(** * logplexc: the batching log client with bounded concurrency

    A shallow embedding of [logplexc.go] and the verification of its
    delivery-scheduling core: the token bucket that admits POST workers,
    the flush triggers, the drop decision, the statistics block and the
    shutdown protocol.

    Every Go function is a Rocq definition of the same name.  Code that
    touches shared state or blocks is written in continuation-passing
    style over the type [Prog] of goroutine programs: one constructor per
    synchronisation primitive the file uses (atomic add, mutex, unbuffered
    channel select, WaitGroup, [go], ...).  A scheduler, [step], runs one
    primitive of one goroutine at a time on the shared [Client]; the
    calls into the mini client ([SwapBundle], [BufferMessage], [Post]) and
    the clock are answered by the environment through the step label. *)

From Stdlib Require Import ZArith String Lia Bool.
From stdpp Require Import base list.

Local Open Scope Z_scope.

(** ** Machine integers *)

(** [int32] as used by [atomic.AddInt32]: two's complement wrap-around. *)
Definition int32 (z : Z) : Z := (z + 2 ^ 31) mod 2 ^ 32 - 2 ^ 31.

(** [uint64] arithmetic wraps modulo 2^64. *)
Definition uint64 (z : Z) : Z := z mod 2 ^ 64.

Definition in_int32 (z : Z) : Prop := - 2 ^ 31 <= z < 2 ^ 31.
Definition in_uint64 (z : Z) : Prop := 0 <= z < 2 ^ 64.

(** ** Data model (lines 14-95) *)

Record Stats : Type := mkStats {
  (* Number of concurrent requests at the time of retrieval. *)
  Concurrency : Z;            (* int32 *)
  (* Message-level statistics, all uint64 *)
  Total : Z;
  Dropped : Z;
  Cancelled : Z;
  Rejected : Z;
  Successful : Z;
  (* Request-level statistics, all uint64 *)
  TotalRequests : Z;
  DroppedRequests : Z;
  CancelRequests : Z;
  RejectRequests : Z;
  SuccessRequests : Z
}.

(** The zero value of [Stats]. *)
Definition zeroStats : Stats := mkStats 0 0 0 0 0 0 0 0 0 0 0.

(** [TimeTriggerBehavior] is a [byte]; the three named values are the
    [iota] constants, any other byte is representable as well. *)
Definition TimeTriggerBehavior : Type := Z.
Definition TimeTriggerPeriodic : TimeTriggerBehavior := 0.
Definition TimeTriggerImmediate : TimeTriggerBehavior := 1.
Definition TimeTriggerNever : TimeTriggerBehavior := 2.

Module Config.
(** [Logplex], [Token] and [HttpClient] are only handed on to the mini
    client; [Period] is a [time.Duration], a signed count of
    nanoseconds. *)
Record t : Type := mk {
  Logplex : string;
  Token : string;
  HttpClient : string;
  RequestSizeTrigger : Z;
  Concurrency : Z;
  Period : Z;
  TimeTrigger : TimeTriggerBehavior
}.
End Config.
Abbreviation Config := Config.t.

(** *** What the client sees of the mini client

    The mini client (framing, buffering, the HTTP exchange) lives in a file
    of its own, outside the verified source.  Its types are modelled below as
    far as [logplexc.go] looks into them; its constructor is a parameter of
    [NewClient], and its methods [BufferMessage], [SwapBundle] and [Post]
    are answered by the environment of the scheduler. *)

(** Modelled from the spec: the type [MiniStats] is declared in the mini
    client's file.  The spec (section 6) gives a batch its count of framed
    records and the buffering call a reported volume; the Go types of the two
    fields are forced by their uses at lines 202, 225 and 279 ([Buffered] is
    compared with an [int], [NumberFramed] is added to a [uint64]). *)
Record MiniStats : Type := mkMiniStats {
  NumberFramed : Z;           (* uint64 *)
  Buffered : Z                (* int *)
}.

(** Modelled from the spec: the type [Bundle] is declared in the mini
    client's file.  Section 6 makes a batch a record count and its data; the
    count is reached as [b.NumberFramed] and [&b.MiniStats] (lines 225 and
    237), so [MiniStats] is embedded. *)
Record Bundle : Type := mkBundle {
  bMiniStats : MiniStats;     (* embedded MiniStats *)
  outbox : string
}.

(** Modelled from the spec: the type [MiniConfig] is declared in the mini
    client's file; the three fields are the ones [NewClient] fills in (lines
    99-103), opaque to the core (section 6). *)
Record MiniConfig : Type := mkMiniConfig {
  mcLogplex : string;
  mcToken : string;
  mcHttpClient : string
}.

(** Modelled from the spec: the type [MiniClient] is declared in the mini
    client's file; the core only holds the handle (section 3). *)
Record MiniClient : Type := mkMiniClient { miniConfig : MiniConfig }.

(** The arguments of [BufferMessage]. *)
Record LogMessage : Type := mkLogMessage {
  when : Z;
  host : string;
  procId : string;
  log : string
}.

(** The result of [m.c.Post(b)]: an error and no response, or a response
    with its status code. *)
Inductive PostResult : Type :=
| PostErr (err : string)
| PostResp (StatusCode : Z).

Definition StatusNoContent : Z := 204.

(** [*time.Ticker]: the channel [C] has room for one tick. *)
Record Ticker : Type := mkTicker {
  tickPeriod : Z;
  tickPending : bool;         (* a tick sits in ticker.C *)
  tickStopped : bool
}.

Record Client : Type := mkClient {
  stats : Stats;              (* embedded Stats *)
  statLock : bool;            (* sync.Mutex, true while held *)
  c : MiniClient;
  bucket : list nat;          (* unbuffered chan: the goroutines parked in a send *)
  RequestSizeTrigger : Z;
  timeTrigger : TimeTriggerBehavior;
  ticker : option Ticker;     (* nil pointer as None *)
  finalize : bool;            (* true once closed *)
  finalizeDone : Z            (* sync.WaitGroup counter *)
}.

(** The ten [uint64] counters of [Stats]. *)
Inductive Counter : Type :=
| CTotal | CDropped | CCancelled | CRejected | CSuccessful
| CTotalRequests | CDroppedRequests | CCancelRequests | CRejectRequests
| CSuccessRequests.

(** ** Goroutine programs *)

(** What a finished call hands back. *)
Inductive RetVal : Type :=
| RVoid
| RError (err : option string)
| RStats (s : Stats).

(** Which piece of the client a goroutine runs; book-keeping only, the
    scheduler never branches on it. *)
Inductive Role : Type :=
| Supplier                    (* the token-supply goroutine of NewClient *)
| TickerTask                  (* the periodic flush goroutine of NewClient *)
| Worker                      (* go m.syncWorker(&b) *)
| Caller.                     (* an application goroutine inside a public method *)

Inductive Prog : Type :=
| Return (r : RetVal)
| Continue                                     (* end of the body of [for { ... }] *)
| Panic (why : string)
| AtomicAddInt32 (delta : Z) (k : Prog)        (* atomic.AddInt32(&m.Stats.Concurrency, delta) *)
| SwapBundle (k : Bundle -> Prog)              (* m.c.SwapBundle() *)
| MiniBufferMessage (msg : LogMessage) (k : MiniStats -> Prog)
| Post (b : Bundle) (k : PostResult -> Prog)   (* m.c.Post(b) *)
| BodyClose (k : Prog)                         (* resp.Body.Close() *)
| RecvBucketOrDefault (kRecv kDefault : Prog)  (* select { case <-m.bucket: / default: } *)
| SendBucketOrFinalize (kSent kFinalize : Prog)
                                               (* select { case m.bucket <- struct{}{}: / case <-m.finalize: } *)
| RecvFinalizeOrDefault (kClosed kDefault : Prog)
                                               (* select { case <-m.finalize: / default: } *)
| RecvTickOrFinalize (kTick kFinalize : Prog)  (* select { case <-m.ticker.C: / case <-m.finalize: } *)
| WgAdd (n : Z) (k : Prog)                     (* m.finalizeDone.Add(n) *)
| WgDone (k : Prog)                            (* m.finalizeDone.Done() *)
| WgWait (k : Prog)                            (* m.finalizeDone.Wait() *)
| Go (r : Role) (p : Prog) (k : Prog)          (* go p *)
| Lock (k : Prog)                              (* m.statLock.Lock() *)
| Unlock (k : Prog)                            (* m.statLock.Unlock() *)
| AddUint64 (fld : Counter) (n : Z) (k : Prog) (* m.fld += n, on a counter of m.Stats *)
| ReadStats (k : Stats -> Prog)                (* s = m.Stats *)
| Gosched (k : Prog)                           (* runtime.Gosched() *)
| TickerStop (k : Prog)                        (* m.ticker.Stop() *)
| CloseFinalize (k : Prog).                    (* close(m.finalize) *)

(** ** The statistics updates (lines 278-317) *)

Definition addTotal (n : Z) (m : Stats) : Stats :=
  mkStats (Concurrency m) (uint64 (Total m + n)) (Dropped m) (Cancelled m)
    (Rejected m) (Successful m) (TotalRequests m) (DroppedRequests m)
    (CancelRequests m) (RejectRequests m) (SuccessRequests m).
Definition addDropped (n : Z) (m : Stats) : Stats :=
  mkStats (Concurrency m) (Total m) (uint64 (Dropped m + n)) (Cancelled m)
    (Rejected m) (Successful m) (TotalRequests m) (DroppedRequests m)
    (CancelRequests m) (RejectRequests m) (SuccessRequests m).
Definition addCancelled (n : Z) (m : Stats) : Stats :=
  mkStats (Concurrency m) (Total m) (Dropped m) (uint64 (Cancelled m + n))
    (Rejected m) (Successful m) (TotalRequests m) (DroppedRequests m)
    (CancelRequests m) (RejectRequests m) (SuccessRequests m).
Definition addRejected (n : Z) (m : Stats) : Stats :=
  mkStats (Concurrency m) (Total m) (Dropped m) (Cancelled m)
    (uint64 (Rejected m + n)) (Successful m) (TotalRequests m)
    (DroppedRequests m) (CancelRequests m) (RejectRequests m)
    (SuccessRequests m).
Definition addSuccessful (n : Z) (m : Stats) : Stats :=
  mkStats (Concurrency m) (Total m) (Dropped m) (Cancelled m) (Rejected m)
    (uint64 (Successful m + n)) (TotalRequests m) (DroppedRequests m)
    (CancelRequests m) (RejectRequests m) (SuccessRequests m).
Definition addTotalRequests (n : Z) (m : Stats) : Stats :=
  mkStats (Concurrency m) (Total m) (Dropped m) (Cancelled m) (Rejected m)
    (Successful m) (uint64 (TotalRequests m + n)) (DroppedRequests m)
    (CancelRequests m) (RejectRequests m) (SuccessRequests m).
Definition addDroppedRequests (n : Z) (m : Stats) : Stats :=
  mkStats (Concurrency m) (Total m) (Dropped m) (Cancelled m) (Rejected m)
    (Successful m) (TotalRequests m) (uint64 (DroppedRequests m + n))
    (CancelRequests m) (RejectRequests m) (SuccessRequests m).
Definition addCancelRequests (n : Z) (m : Stats) : Stats :=
  mkStats (Concurrency m) (Total m) (Dropped m) (Cancelled m) (Rejected m)
    (Successful m) (TotalRequests m) (DroppedRequests m)
    (uint64 (CancelRequests m + n)) (RejectRequests m) (SuccessRequests m).
Definition addRejectRequests (n : Z) (m : Stats) : Stats :=
  mkStats (Concurrency m) (Total m) (Dropped m) (Cancelled m) (Rejected m)
    (Successful m) (TotalRequests m) (DroppedRequests m) (CancelRequests m)
    (uint64 (RejectRequests m + n)) (SuccessRequests m).
Definition addSuccessRequests (n : Z) (m : Stats) : Stats :=
  mkStats (Concurrency m) (Total m) (Dropped m) (Cancelled m) (Rejected m)
    (Successful m) (TotalRequests m) (DroppedRequests m) (CancelRequests m)
    (RejectRequests m) (uint64 (SuccessRequests m + n)).
Definition addConcurrency (delta : Z) (m : Stats) : Stats :=
  mkStats (int32 (Concurrency m + delta)) (Total m) (Dropped m) (Cancelled m)
    (Rejected m) (Successful m) (TotalRequests m) (DroppedRequests m)
    (CancelRequests m) (RejectRequests m) (SuccessRequests m).

Definition getCounter (fld : Counter) (m : Stats) : Z :=
  match fld with
  | CTotal => Total m
  | CDropped => Dropped m
  | CCancelled => Cancelled m
  | CRejected => Rejected m
  | CSuccessful => Successful m
  | CTotalRequests => TotalRequests m
  | CDroppedRequests => DroppedRequests m
  | CCancelRequests => CancelRequests m
  | CRejectRequests => RejectRequests m
  | CSuccessRequests => SuccessRequests m
  end.

(** [m.fld += n] *)
Definition addCounter (fld : Counter) (n : Z) (m : Stats) : Stats :=
  match fld with
  | CTotal => addTotal n m
  | CDropped => addDropped n m
  | CCancelled => addCancelled n m
  | CRejected => addRejected n m
  | CSuccessful => addSuccessful n m
  | CTotalRequests => addTotalRequests n m
  | CDroppedRequests => addDroppedRequests n m
  | CCancelRequests => addCancelRequests n m
  | CRejectRequests => addRejectRequests n m
  | CSuccessRequests => addSuccessRequests n m
  end.

Definition statReqTotalUnsync (s : MiniStats) (k : Prog) : Prog :=
  AddUint64 CTotal (NumberFramed s) (
  AddUint64 CTotalRequests 1 k).

(** In the four functions below the deferred [Unlock] runs last. *)
Definition statReqSuccess (s : MiniStats) (k : Prog) : Prog :=
  Lock (
  statReqTotalUnsync s (
  AddUint64 CSuccessful (NumberFramed s) (
  AddUint64 CSuccessRequests 1 (
  Unlock k)))).

Definition statReqErr (s : MiniStats) (k : Prog) : Prog :=
  Lock (
  statReqTotalUnsync s (
  AddUint64 CCancelled (NumberFramed s) (
  AddUint64 CCancelRequests 1 (
  Unlock k)))).

Definition statReqRej (s : MiniStats) (k : Prog) : Prog :=
  Lock (
  statReqTotalUnsync s (
  AddUint64 CRejected (NumberFramed s) (
  AddUint64 CRejectRequests 1 (
  Unlock k)))).

Definition statReqDrop (s : MiniStats) (k : Prog) : Prog :=
  Lock (
  statReqTotalUnsync s (
  AddUint64 CDropped (NumberFramed s) (
  AddUint64 CDroppedRequests 1 (
  Unlock k)))).

(** [Statistics] (lines 210-216): copy the block under the lock. *)
Definition Statistics (k : Stats -> Prog) : Prog :=
  Lock (
  ReadStats (fun s =>
  Unlock (k s))).

(** ** The delivery task (lines 246-276) *)

(** The two outer deferred functions of [syncWorker], in the order they
    run: give the token back unless the client shuts down, then
    [finalizeDone.Done()]. *)
Definition syncWorkerExit : Prog :=
  SendBucketOrFinalize
    (WgDone (Return RVoid))   (* Made token available. *)
    (WgDone (Return RVoid)).  (* Client is shutting down. *)

Definition syncWorker (b : Bundle) : Prog :=
  Post b (fun r =>
  match r with
  | PostErr _ =>
      statReqErr (bMiniStats b) syncWorkerExit
  | PostResp StatusCode =>
      (* defer resp.Body.Close() *)
      if negb (StatusCode =? StatusNoContent)
      then statReqRej (bMiniStats b) (BodyClose syncWorkerExit)
      else statReqSuccess (bMiniStats b) (BodyClose syncWorkerExit)
  end).

(** ** The flush attempt (lines 218-244) *)

Definition maybeWork (k : Prog) : Prog :=
  AtomicAddInt32 1 (
  let ret := AtomicAddInt32 (-1) k in   (* the deferred decrement *)
  SwapBundle (fun b =>
  (* Avoid sending empty requests *)
  if NumberFramed (bMiniStats b) <=? 0 then ret
  else
    RecvBucketOrDefault
      (WgAdd 1 (
       Go Worker (syncWorker b) ret))
      (statReqDrop (bMiniStats b) (
       Gosched ret)))).

(** ** Buffering a message (lines 190-208) *)

Definition errClosed : string :=
  "Failed trying to buffer a message: client already Closed".

Definition BufferMessage (m : Client) (msg : LogMessage)
    (k : option string -> Prog) : Prog :=
  RecvFinalizeOrDefault
    (k (Some errClosed))
    (MiniBufferMessage msg (fun s =>
     if (Buffered s >=? RequestSizeTrigger m)
        || (timeTrigger m =? TimeTriggerImmediate)
     then maybeWork (k None)
     else k None)).

(** ** Close (lines 183-188) *)

Definition Close (k : Prog) : Prog :=
  TickerStop (
  CloseFinalize (
  WgWait k)).

(** ** Goroutines and the running system *)

Record Thread : Type := mkThread {
  role : Role;
  code : Prog;                (* what is left to run *)
  loop : option Prog;         (* the body to restart at [Continue] *)
  holds : bool                (* auxiliary: the goroutine owns an admission token *)
}.

(** A goroutine owns a token from the moment it receives one from the bucket,
    is started with one, or puts a new one on offer, until it has handed it
    on or given it up.  [inserted] is an auxiliary counter: the tokens put on
    offer by a goroutine that did not own one, that is, the initial
    insertions.  Neither it nor [holds] and [role] is ever read by [step]. *)
Record Sys : Type := mkSys {
  client : Client;
  threads : list Thread;
  crashed : bool;             (* a goroutine panicked: the process is gone *)
  inserted : Z
}.

(** ** Construction (lines 97-181) *)

Inductive Result (A : Type) : Type :=
| Ok (a : A)
| Err (err : string)
| Bug (why : string).         (* panic *)
Arguments Ok {A} a.
Arguments Err {A} err.
Arguments Bug {A} why.

Definition errNegative : string :=
  "logplexc.Client: negative target latency not allowed".

(** The loop [for i := 0; i < cfg.Concurrency; i += 1] of the supply
    goroutine, from the test of [i] on; [fuel] bounds the iterations left
    (see [tokenSupplier_fuel]: the loop never needs more than
    [cfg.Concurrency - i]).  The deferred [Done] runs on both exits. *)
Fixpoint supplyFrom (fuel : nat) (n i : Z) : Prog :=
  match fuel with
  | O => WgDone (Return RVoid)
  | S fuel' =>
      if i <? n
      then SendBucketOrFinalize
             (supplyFrom fuel' n (i + 1))
             (WgDone (Return RVoid))      (* case <-m.finalize: return *)
      else WgDone (Return RVoid)
  end.

Definition tokenSupplier (n : Z) : Prog := supplyFrom (Z.to_nat n) n 0.

(** One turn of the loop of the periodic goroutine; [Continue] jumps back
    to the [select]. *)
Definition tickerLoop : Prog :=
  RecvTickOrFinalize
    (maybeWork Continue)
    (WgDone (Return RVoid)).

Definition withTimeTrigger (t : TimeTriggerBehavior) (m : Client) : Client :=
  mkClient (stats m) (statLock m) (c m) (bucket m) (RequestSizeTrigger m) t
    (ticker m) (finalize m) (finalizeDone m).
Definition withTicker (t : option Ticker) (m : Client) : Client :=
  mkClient (stats m) (statLock m) (c m) (bucket m) (RequestSizeTrigger m)
    (timeTrigger m) t (finalize m) (finalizeDone m).
Definition withFinalizeDone (n : Z) (m : Client) : Client :=
  mkClient (stats m) (statLock m) (c m) (bucket m) (RequestSizeTrigger m)
    (timeTrigger m) (ticker m) (finalize m) n.
Definition withStats (s : Stats) (m : Client) : Client :=
  mkClient s (statLock m) (c m) (bucket m) (RequestSizeTrigger m)
    (timeTrigger m) (ticker m) (finalize m) (finalizeDone m).
Definition withStatLock (l : bool) (m : Client) : Client :=
  mkClient (stats m) l (c m) (bucket m) (RequestSizeTrigger m)
    (timeTrigger m) (ticker m) (finalize m) (finalizeDone m).
Definition withBucket (q : list nat) (m : Client) : Client :=
  mkClient (stats m) (statLock m) (c m) q (RequestSizeTrigger m)
    (timeTrigger m) (ticker m) (finalize m) (finalizeDone m).
Definition withFinalize (f : bool) (m : Client) : Client :=
  mkClient (stats m) (statLock m) (c m) (bucket m) (RequestSizeTrigger m)
    (timeTrigger m) (ticker m) f (finalizeDone m).

Section WithMiniClient.

(** The constructor of the mini client is outside the verified source; the
    client only looks at whether it failed. *)
Variable NewMiniClient : MiniConfig -> MiniClient + string.

(** [NewClient] starts its goroutines in [world], the goroutines of the
    process, and hands back the client. *)
Definition NewClient (cfg : Config) (world : list Thread)
    : Result Client * list Thread :=
  match NewMiniClient
          (mkMiniConfig (Config.Logplex cfg) (Config.Token cfg)
             (Config.HttpClient cfg)) with
  | inr err => (Err err, world)
  | inl c =>
      let m := mkClient zeroStats false c [] (Config.RequestSizeTrigger cfg)
                 0 None false 0 in
      (* Handle determining m.timeTrigger. *)
      let chosen :=
        if Config.TimeTrigger cfg =? TimeTriggerPeriodic then
          if Config.Period cfg <? 0 then Err errNegative
          else if Config.Period cfg =? 0 then Ok TimeTriggerImmediate
          else if Config.Period cfg >? 0 then Ok TimeTriggerPeriodic
          else Bug "bug"
        else Ok (Config.TimeTrigger cfg) in
      match chosen with
      | Err err => (Err err, world)
      | Bug why => (Bug why, world)
      | Ok t =>
          let m := withTimeTrigger t m in
          (* Supply tokens to the buckets. *)
          let m := withFinalizeDone (finalizeDone m + 1) m in
          let world :=
            world ++ [mkThread Supplier
                        (tokenSupplier (Config.Concurrency cfg)) None false] in
          (* Set up the time-based log flushing, if requested. *)
          if timeTrigger m =? TimeTriggerPeriodic then
            let m := withTicker
                       (Some (mkTicker (Config.Period cfg) false false)) m in
            let m := withFinalizeDone (finalizeDone m + 1) m in
            let world :=
              world ++ [mkThread TickerTask tickerLoop (Some tickerLoop)
                          false] in
            (Ok m, world)
          else (Ok m, world)
      end
  end.

End WithMiniClient.

(** ** The scheduler *)

(** The public methods an application goroutine may call. *)
Inductive ApiCall : Type :=
| CallBufferMessage (msg : LogMessage)
| CallStatistics
| CallClose.

Definition callProg (m : Client) (call : ApiCall) : Prog :=
  match call with
  | CallBufferMessage msg => BufferMessage m msg (fun err => Return (RError err))
  | CallStatistics => Statistics (fun s => Return (RStats s))
  | CallClose => Close (Return RVoid)
  end.

(** What the environment contributes to a step. *)
Inductive Answer : Type :=
| ANone
| ABundle (b : Bundle)        (* the result of SwapBundle *)
| AMiniStats (s : MiniStats)  (* the result of the mini client's BufferMessage *)
| APost (r : PostResult)      (* the result of Post *)
| APick (first : bool).       (* which ready case a select takes *)

Inductive Label : Type :=
| Invoke (call : ApiCall)     (* a new application goroutine enters a method *)
| TimerFires                  (* the runtime puts a tick into ticker.C *)
| Run (tid : nat) (a : Answer).

Definition goto (p : Prog) (t : Thread) : Thread :=
  mkThread (role t) p (loop t) (holds t).
Definition withHolds (h : bool) (t : Thread) : Thread :=
  mkThread (role t) (code t) (loop t) h.

Definition setThread (tid : nat) (t : Thread) (s : Sys) : Sys :=
  mkSys (client s) (<[tid := t]> (threads s)) (crashed s) (inserted s).
Definition setClient (m : Client) (s : Sys) : Sys :=
  mkSys m (threads s) (crashed s) (inserted s).
Definition spawn (t : Thread) (s : Sys) : Sys :=
  mkSys (client s) (threads s ++ [t]) (crashed s) (inserted s).
Definition crash (s : Sys) : Sys :=
  mkSys (client s) (threads s) true (inserted s).
Definition countInsertion (fresh : bool) (s : Sys) : Sys :=
  mkSys (client s) (threads s) (crashed s)
    (if fresh then inserted s + 1 else inserted s).

(** A value of the Go type [uint64]. *)
Definition is_uint64 (z : Z) : bool := (0 <=? z) && (z <? 2 ^ 64).

(** One primitive of goroutine [tid] in state [s], where [t] is the
    goroutine and [m] the client.  [None]: the goroutine cannot move (it is
    blocked, finished, or the answer does not fit its primitive). *)
Definition runThread (s : Sys) (tid : nat) (t : Thread) (a : Answer)
    : option Sys :=
  let m := client s in
  match code t with
  | Return _ => None
  | Continue =>
      match loop t with
      | Some body => Some (setThread tid (goto body t) s)
      | None => None
      end
  | Panic _ => Some (crash s)
  | AtomicAddInt32 delta k =>
      Some (setThread tid (goto k t)
              (setClient (withStats (addConcurrency delta (stats m)) m) s))
  | SwapBundle k =>
      match a with
      | ABundle b =>
          if is_uint64 (NumberFramed (bMiniStats b))
          then Some (setThread tid (goto (k b) t) s)
          else None
      | _ => None
      end
  | MiniBufferMessage _ k =>
      match a with
      | AMiniStats ms => Some (setThread tid (goto (k ms) t) s)
      | _ => None
      end
  | Post _ k =>
      match a with
      | APost r => Some (setThread tid (goto (k r) t) s)
      | _ => None
      end
  | BodyClose k => Some (setThread tid (goto k t) s)
  | RecvBucketOrDefault kRecv kDefault =>
      (* a receive on an unbuffered channel is ready exactly when a sender
         is parked; the longest-parked sender is served *)
      match bucket m with
      | [] => Some (setThread tid (goto kDefault t) s)
      | sender :: rest =>
          match threads s !! sender with
          | Some ts =>
              match code ts with
              | SendBucketOrFinalize kSent _ =>
                  Some (setThread tid (withHolds true (goto kRecv t))
                          (setThread sender (withHolds false (goto kSent ts))
                             (setClient (withBucket rest m) s)))
              | _ => None
              end
          | None => None
          end
      end
  | SendBucketOrFinalize _ kFinalize =>
      (* no receiver ever waits on the bucket, so the send parks unless
         finalize is closed; a parked send is completed by the receiver *)
      if finalize m
      then Some (setThread tid (withHolds false (goto kFinalize t)) s)
      else if bool_decide (tid ∈ bucket m) then None
      else Some (setThread tid (withHolds true t)
                   (countInsertion (negb (holds t))
                      (setClient (withBucket (bucket m ++ [tid]) m) s)))
  | RecvFinalizeOrDefault kClosed kDefault =>
      Some (setThread tid (goto (if finalize m then kClosed else kDefault) t) s)
  | RecvTickOrFinalize kTick kFinalize =>
      let tick :=
        match ticker m with
        | Some tk => tickPending tk
        | None => false
        end in
      let takeTick :=
        match ticker m with
        | Some tk =>
            Some (setThread tid (goto kTick t)
                    (setClient
                       (withTicker
                          (Some (mkTicker (tickPeriod tk) false
                                   (tickStopped tk))) m) s))
        | None => None
        end in
      let takeFinalize := Some (setThread tid (goto kFinalize t) s) in
      match tick, finalize m with
      | false, false => None
      | true, false => takeTick
      | false, true => takeFinalize
      | true, true =>
          (* both ready: the runtime picks one *)
          match a with
          | APick true => takeTick
          | APick false => takeFinalize
          | _ => None
          end
      end
  | WgAdd n k =>
      if finalizeDone m + n <? 0 then Some (crash s)
      else Some (setThread tid (goto k t)
                   (setClient (withFinalizeDone (finalizeDone m + n) m) s))
  | WgDone k =>
      if finalizeDone m - 1 <? 0 then Some (crash s)
      else Some (setThread tid (goto k t)
                   (setClient (withFinalizeDone (finalizeDone m - 1) m) s))
  | WgWait k =>
      if finalizeDone m =? 0 then Some (setThread tid (goto k t) s) else None
  | Go r p k =>
      (* the token of the parent, if any, goes with the new goroutine *)
      Some (spawn (mkThread r p None (holds t))
              (setThread tid (withHolds false (goto k t)) s))
  | Lock k =>
      if statLock m then None
      else Some (setThread tid (goto k t) (setClient (withStatLock true m) s))
  | Unlock k =>
      if statLock m
      then Some (setThread tid (goto k t) (setClient (withStatLock false m) s))
      else Some (crash s)
  | AddUint64 fld n k =>
      Some (setThread tid (goto k t)
              (setClient (withStats (addCounter fld n (stats m)) m) s))
  | ReadStats k => Some (setThread tid (goto (k (stats m)) t) s)
  | Gosched k => Some (setThread tid (goto k t) s)
  | TickerStop k =>
      match ticker m with
      | None => Some (crash s)    (* nil pointer dereference *)
      | Some tk =>
          Some (setThread tid (goto k t)
                  (setClient
                     (withTicker
                        (Some (mkTicker (tickPeriod tk) (tickPending tk) true))
                        m) s))
      end
  | CloseFinalize k =>
      if finalize m then Some (crash s)     (* close of closed channel *)
      else
        (* every select parked on finalize is woken; none of them can
           complete its send any more *)
        Some (setThread tid (goto k t)
                (setClient (withBucket [] (withFinalize true m)) s))
  end.

Definition step (s : Sys) (l : Label) : option Sys :=
  if crashed s then None
  else
    match l with
    | Invoke call =>
        Some (spawn (mkThread Caller (callProg (client s) call) None false) s)
    | TimerFires =>
        match ticker (client s) with
        | Some tk =>
            if tickStopped tk then None
            else Some (setClient
                         (withTicker (Some (mkTicker (tickPeriod tk) true false))
                            (client s)) s)
        | None => None
        end
    | Run tid a =>
        match threads s !! tid with
        | Some t => runThread s tid t a
        | None => None
        end
    end.

(** A schedule is a list of labels, run from left to right. *)
Fixpoint run (s : Sys) (ls : list Label) : option Sys :=
  match ls with
  | [] => Some s
  | l :: ls' =>
      match step s l with
      | Some s' => run s' ls'
      | None => None
      end
  end.

Section Reachable.

Variable NewMiniClient : MiniConfig -> MiniClient + string.

(** The system right after a successful [NewClient] in a fresh process. *)
Definition boot (cfg : Config) : option Sys :=
  match NewClient NewMiniClient cfg [] with
  | (Ok m, world) => Some (mkSys m world false 0)
  | _ => None
  end.

Definition reachable (cfg : Config) (s : Sys) : Prop :=
  exists s0 ls, boot cfg = Some s0 /\ run s0 ls = Some s.

End Reachable.

(** * Vocabulary of the verification *)

(** [focus s tid t m p]: the state [s] with the client replaced by [m] and
    goroutine [tid], whose record is [t], standing at code [p]. *)
Definition focus (s : Sys) (tid : nat) (t : Thread) (m : Client) (p : Prog)
    : Sys :=
  setThread tid (goto p t) (setClient m s).

(** The four terminal categories of a batch. *)
Inductive Outcome : Type :=
| OutDropped | OutCancelled | OutRejected | OutSuccessful.

Definition msgCounter (o : Outcome) : Counter :=
  match o with
  | OutDropped => CDropped
  | OutCancelled => CCancelled
  | OutRejected => CRejected
  | OutSuccessful => CSuccessful
  end.

Definition reqCounter (o : Outcome) : Counter :=
  match o with
  | OutDropped => CDroppedRequests
  | OutCancelled => CCancelRequests
  | OutRejected => CRejectRequests
  | OutSuccessful => CSuccessRequests
  end.

(** One request of [n] records accounted to category [o]: the running
    totals and the two counters of [o], in the order of the source. *)
Definition account (o : Outcome) (n : Z) (m : Stats) : Stats :=
  addCounter (reqCounter o) 1 (
  addCounter (msgCounter o) n (
  addCounter CTotalRequests 1 (
  addCounter CTotal n m))).

(** The classification of a delivery in the words of the spec (section
    4.4): no response is cancelled, the success code is successful, any
    other code is rejected. *)
Definition classify (r : PostResult) : Outcome :=
  match r with
  | PostErr _ => OutCancelled
  | PostResp code =>
      if code =? StatusNoContent then OutSuccessful else OutRejected
  end.

(** The statistics function [syncWorker] calls for a category. *)
Definition statReq (o : Outcome) : MiniStats -> Prog -> Prog :=
  match o with
  | OutDropped => statReqDrop
  | OutCancelled => statReqErr
  | OutRejected => statReqRej
  | OutSuccessful => statReqSuccess
  end.

(** [own P p]: [P] holds of [p] and of every later point of the goroutine
    that runs [p], whatever the environment answers; the goroutines it
    starts are not followed. *)
Fixpoint own (P : Prog -> Prop) (p : Prog) : Prop :=
  P p /\
  match p with
  | Return _ | Continue | Panic _ => True
  | AtomicAddInt32 _ k | BodyClose k | WgAdd _ k | WgDone k | WgWait k
  | Lock k | Unlock k | AddUint64 _ _ k | Gosched k | TickerStop k
  | CloseFinalize k | Go _ _ k => own P k
  | SwapBundle k => forall b, own P (k b)
  | MiniBufferMessage _ k => forall ms, own P (k ms)
  | Post _ k => forall r, own P (k r)
  | ReadStats k => forall m, own P (k m)
  | RecvBucketOrDefault k1 k2 | SendBucketOrFinalize k1 k2
  | RecvFinalizeOrDefault k1 k2 | RecvTickOrFinalize k1 k2 =>
      own P k1 /\ own P k2
  end.

(** The goroutine does not wait for the network at this point. *)
Definition offNetwork (p : Prog) : Prop :=
  match p with
  | Post _ _ => False
  | _ => True
  end.

(** If the call is over at this point, it has returned [r]. *)
Definition returns (r : RetVal) (p : Prog) : Prop :=
  match p with
  | Return r' => r' = r
  | Continue | Panic _ => False
  | _ => True
  end.

(** The name of the primitive a goroutine is about to run. *)
Inductive Prim : Type :=
| PReturn | PContinue | PPanic | PAtomicAddInt32 (delta : Z) | PSwapBundle
| PMiniBufferMessage | PPost | PBodyClose | PRecvBucketOrDefault
| PSendBucketOrFinalize | PRecvFinalizeOrDefault | PRecvTickOrFinalize
| PWgAdd | PWgDone | PWgWait | PGo (r : Role) | PLock | PUnlock
| PAddUint64 (fld : Counter) (n : Z) | PReadStats | PGosched | PTickerStop
| PCloseFinalize.

Definition prim (p : Prog) : Prim :=
  match p with
  | Return _ => PReturn
  | Continue => PContinue
  | Panic _ => PPanic
  | AtomicAddInt32 delta _ => PAtomicAddInt32 delta
  | SwapBundle _ => PSwapBundle
  | MiniBufferMessage _ _ => PMiniBufferMessage
  | Post _ _ => PPost
  | BodyClose _ => PBodyClose
  | RecvBucketOrDefault _ _ => PRecvBucketOrDefault
  | SendBucketOrFinalize _ _ => PSendBucketOrFinalize
  | RecvFinalizeOrDefault _ _ => PRecvFinalizeOrDefault
  | RecvTickOrFinalize _ _ => PRecvTickOrFinalize
  | WgAdd _ _ => PWgAdd
  | WgDone _ => PWgDone
  | WgWait _ => PWgWait
  | Go r _ _ => PGo r
  | Lock _ => PLock
  | Unlock _ => PUnlock
  | AddUint64 fld n _ => PAddUint64 fld n
  | ReadStats _ => PReadStats
  | Gosched _ => PGosched
  | TickerStop _ => PTickerStop
  | CloseFinalize _ => PCloseFinalize
  end.

(** The primitives goroutine [tid] runs when it is scheduled alone with the
    answers [answers], as long as it can move. *)
Fixpoint trace (s : Sys) (tid : nat) (answers : list Answer) : list Prim :=
  match answers with
  | [] => []
  | a :: answers' =>
      match threads s !! tid, step s (Run tid a) with
      | Some t, Some s' => prim (code t) :: trace s' tid answers'
      | _, _ => []
      end
  end.

(** [s'] differs from [s] at most in the concurrency gauge and in what the
    goroutines are about to run: same counters, same lock, same bucket,
    same tokens, same goroutines. *)
Definition quiet (s s' : Sys) : Prop :=
  (forall fld, getCounter fld (stats (client s')) =
               getCounter fld (stats (client s))) /\
  statLock (client s') = statLock (client s) /\
  bucket (client s') = bucket (client s) /\
  finalizeDone (client s') = finalizeDone (client s) /\
  map holds (threads s') = map holds (threads s) /\
  map role (threads s') = map role (threads s) /\
  inserted s' = inserted s.

(** A mini client whose constructor succeeds, for the examples. *)
Definition demoNewMiniClient (mc : MiniConfig) : MiniClient + string :=
  inl (mkMiniClient mc).

Definition miniConfigOf (cfg : Config) : MiniConfig :=
  mkMiniConfig (Config.Logplex cfg) (Config.Token cfg) (Config.HttpClient cfg).

#[global] Instance Counter_eq_dec : EqDecision Counter.
Proof. solve_decision. Defined.

#[global] Instance Outcome_eq_dec : EqDecision Outcome.
Proof. solve_decision. Defined.

(** What [account o n] does to each counter, spelled out. *)
Definition accounted (o : Outcome) (n : Z) (m : Stats) (fld : Counter) : Z :=
  if bool_decide (fld = CTotal \/ fld = msgCounter o)
  then uint64 (getCounter fld m + n)
  else if bool_decide (fld = CTotalRequests \/ fld = reqCounter o)
  then uint64 (getCounter fld m + 1)
  else getCounter fld m.

(** What runs after the transport call, by case on its result. *)
Definition afterPost (r : PostResult) : Prog :=
  match r with
  | PostErr _ => syncWorkerExit
  | PostResp _ => BodyClose syncWorkerExit
  end.

(** ** The admission tokens *)

Definition b2z (b : bool) : Z := if b then 1 else 0.

(** The tokens owned by the goroutines of a list. *)
Fixpoint tokensHeld (ts : list Thread) : Z :=
  match ts with
  | [] => 0
  | t :: ts' => b2z (holds t) + tokensHeld ts'
  end.

(** The admission tokens in circulation: those the goroutines own, the
    ones on offer in the bucket included. *)
Definition inCirculation (s : Sys) : Z := tokensHeld (threads s).

(** The token discipline of a piece of code run by a goroutine of role [r]
    that owns a token ([h = true]) or not: only a dispatcher without a token
    probes the bucket, only a worker with a token gives one back, a token
    goes to the worker started with it, and a goroutine ends without one. *)
Fixpoint tokOk (r : Role) (h : bool) (p : Prog) : Prop :=
  match p with
  | Return _ | Continue => h = false
  | Panic _ => True
  | AtomicAddInt32 _ k | BodyClose k | WgAdd _ k | WgDone k | WgWait k
  | Lock k | Unlock k | AddUint64 _ _ k | Gosched k | TickerStop k
  | CloseFinalize k => tokOk r h k
  | SwapBundle k => forall b, tokOk r h (k b)
  | MiniBufferMessage _ k => forall ms, tokOk r h (k ms)
  | Post _ k => forall res, tokOk r h (k res)
  | ReadStats k => forall m, tokOk r h (k m)
  | RecvFinalizeOrDefault k1 k2 | RecvTickOrFinalize k1 k2 =>
      tokOk r h k1 /\ tokOk r h k2
  | RecvBucketOrDefault kRecv kDefault =>
      (r = Caller \/ r = TickerTask) /\ h = false /\
      tokOk r true kRecv /\ tokOk r false kDefault
  | SendBucketOrFinalize kSent kFinalize =>
      r = Worker /\ h = true /\ tokOk r false kSent /\ tokOk r false kFinalize
  | Go r' p k =>
      r' = Worker /\ h = true /\ tokOk Worker true p /\ tokOk r false k
  end.

(** The supply goroutine [t] in state [s], for a capacity [n]: either it is
    in its loop with [i] sends completed, [i < n], a token on offer if it
    owns one; or it has left the loop, after [n] sends or because of the
    shutdown. *)
Definition supplierOk (n : Z) (s : Sys) (t : Thread) : Prop :=
  (let i := inserted s - b2z (holds t) in
   0 <= i < n /\
   exists fuel, (Z.to_nat (n - i) <= fuel)%nat /\ code t = supplyFrom fuel n i)
  \/
  (holds t = false /\
   (code t = WgDone (Return RVoid) \/ code t = Return RVoid) /\
   (finalize (client s) = true \/ inserted s = Z.max 0 n)).

Record TokInv (n : Z) (s : Sys) : Prop := mkTokInv {
  tok_supplier :
    exists t, threads s !! 0%nat = Some t /\ role t = Supplier /\
              loop t = None /\ supplierOk n s t;
  tok_others :
    forall tid t, threads s !! tid = Some t -> tid <> 0%nat ->
      role t <> Supplier /\ tokOk (role t) (holds t) (code t) /\
      forall body, loop t = Some body -> tokOk (role t) false body;
  tok_parked :
    forall tid, tid ∈ bucket (client s) ->
      exists t kSent kFinalize,
        threads s !! tid = Some t /\ holds t = true /\
        code t = SendBucketOrFinalize kSent kFinalize;
  tok_nodup : NoDup (bucket (client s));
  tok_closed : finalize (client s) = true -> bucket (client s) = [];
  tok_held : tokensHeld (threads s) <= inserted s;
  tok_bound : 0 <= inserted s <= Z.max 0 n;
  tok_workers :
    (exists tid t, threads s !! tid = Some t /\ role t = Worker) ->
    0 < inserted s
}.

(** The answers a flush attempt that ends in a drop consumes: only the
    swapped-out batch comes from outside. *)
Definition dropAnswers (b : Bundle) : list Answer :=
  [ANone; ABundle b; ANone] ++
  [ANone; ANone; ANone; ANone; ANone; ANone] ++
  [ANone; ANone].

Definition dropTrace (n : Z) : list Prim :=
  [PAtomicAddInt32 1; PSwapBundle; PRecvBucketOrDefault;
   PLock; PAddUint64 CTotal n; PAddUint64 CTotalRequests 1;
   PAddUint64 CDropped n; PAddUint64 CDroppedRequests 1; PUnlock;
   PGosched; PAtomicAddInt32 (-1)].

(** The client after a flush attempt that dropped a batch of [n] records. *)
Definition afterDrop (n : Z) (m : Client) : Client :=
  withStats
    (addConcurrency (-1)
       (account OutDropped n (addConcurrency 1 (stats m)))) m.

(** ** The statistics identities *)

(** The identities of the spec as Go evaluates them, every [+] on [uint64]
    wrapping. *)
Definition balanced (m : Stats) : Prop :=
  uint64 (uint64 (uint64 (Successful m + Rejected m) + Cancelled m)
          + Dropped m) = Total m /\
  uint64 (uint64 (uint64 (SuccessRequests m + RejectRequests m)
                  + CancelRequests m) + DroppedRequests m) = TotalRequests m.

(** By how much the terminal categories are ahead of the totals. *)
Definition msgDeficit (m : Stats) : Z :=
  Successful m + Rejected m + Cancelled m + Dropped m - Total m.
Definition reqDeficit (m : Stats) : Z :=
  SuccessRequests m + RejectRequests m + CancelRequests m + DroppedRequests m
  - TotalRequests m.

(** What [m.fld += n] does to the two deficits. *)
Definition bump (fld : Counter) (n : Z) (d : Z * Z) : Z * Z :=
  match fld with
  | CTotal => (fst d - n, snd d)
  | CDropped | CCancelled | CRejected | CSuccessful => (fst d + n, snd d)
  | CTotalRequests => (fst d, snd d - n)
  | CDroppedRequests | CCancelRequests | CRejectRequests
  | CSuccessRequests => (fst d, snd d + n)
  end.

Definition settled (d : Z * Z) : Prop :=
  uint64 (fst d) = 0 /\ uint64 (snd d) = 0.

(** The lock discipline of a piece of code.  [st] is [None] outside a
    critical section and [Some d] inside one that has so far moved the
    deficits by [d]: counters are only written inside, a section starts at
    [Lock] and may only be left, or the block read, with the deficits
    settled, and a goroutine ends outside. *)
Fixpoint lockOk (st : option (Z * Z)) (p : Prog) : Prop :=
  match p with
  | Return _ | Continue => st = None
  | Panic _ => True
  | Lock k => st = None /\ lockOk (Some (0, 0)) k
  | Unlock k => (exists d, st = Some d /\ settled d) /\ lockOk None k
  | AddUint64 fld n k => exists d, st = Some d /\ lockOk (Some (bump fld n d)) k
  | ReadStats k =>
      (exists d, st = Some d /\ settled d) /\ forall m, lockOk st (k m)
  | Go _ p k => lockOk None p /\ lockOk st k
  | AtomicAddInt32 _ k | BodyClose k | WgAdd _ k | WgDone k | WgWait k
  | Gosched k | TickerStop k | CloseFinalize k => lockOk st k
  | SwapBundle k => forall b, lockOk st (k b)
  | MiniBufferMessage _ k => forall ms, lockOk st (k ms)
  | Post _ k => forall res, lockOk st (k res)
  | RecvBucketOrDefault k1 k2 | SendBucketOrFinalize k1 k2
  | RecvFinalizeOrDefault k1 k2 | RecvTickOrFinalize k1 k2 =>
      lockOk st k1 /\ lockOk st k2
  end.

(** The critical section goroutine [tid] is in, when [own] names the owner
    of the lock and what its section has done. *)
Definition sectionOf (own : option (nat * (Z * Z))) (tid : nat)
    : option (Z * Z) :=
  match own with
  | Some (o, d) => if decide (tid = o) then Some d else None
  | None => None
  end.

Definition pending (own : option (nat * (Z * Z))) : Z * Z :=
  match own with
  | Some (_, d) => d
  | None => (0, 0)
  end.

Definition owned (own : option (nat * (Z * Z))) : bool :=
  match own with
  | Some _ => true
  | None => false
  end.

Record StatInvAt (own : option (nat * (Z * Z))) (s : Sys) : Prop :=
  mkStatInvAt {
  stat_lock : statLock (client s) = owned own;
  stat_exists :
    forall o d, own = Some (o, d) -> (o < length (threads s))%nat;
  stat_threads :
    forall tid t, threads s !! tid = Some t ->
      lockOk (sectionOf own tid) (code t) /\
      forall body, loop t = Some body -> lockOk None body;
  stat_deficit :
    uint64 (msgDeficit (stats (client s)) - fst (pending own)) = 0 /\
    uint64 (reqDeficit (stats (client s)) - snd (pending own)) = 0;
  stat_range : forall fld, in_uint64 (getCounter fld (stats (client s)))
}.

Definition StatInv (s : Sys) : Prop := exists own, StatInvAt own s.

(** ** The concurrency gauge *)

(** The gauge discipline of a piece of code: [g] says whether the goroutine
    is between the increment at the entry of a flush attempt and the
    deferred decrement.  The increment is only done outside, the decrement
    only inside, and a goroutine starts and ends outside. *)
Fixpoint gaugeOk (g : bool) (p : Prog) : Prop :=
  match p with
  | Return _ | Continue => g = false
  | Panic _ => True
  | AtomicAddInt32 delta k =>
      (g = false /\ delta = 1 /\ gaugeOk true k) \/
      (g = true /\ delta = -1 /\ gaugeOk false k)
  | Go _ p k => gaugeOk false p /\ gaugeOk g k
  | BodyClose k | WgAdd _ k | WgDone k | WgWait k | Lock k | Unlock k
  | AddUint64 _ _ k | Gosched k | TickerStop k | CloseFinalize k =>
      gaugeOk g k
  | SwapBundle k => forall b, gaugeOk g (k b)
  | MiniBufferMessage _ k => forall ms, gaugeOk g (k ms)
  | Post _ k => forall res, gaugeOk g (k res)
  | ReadStats k => forall m, gaugeOk g (k m)
  | RecvBucketOrDefault k1 k2 | SendBucketOrFinalize k1 k2
  | RecvFinalizeOrDefault k1 k2 | RecvTickOrFinalize k1 k2 =>
      gaugeOk g k1 /\ gaugeOk g k2
  end.

(** How many goroutines of a list of flags are inside a flush attempt. *)
Fixpoint attempts (gs : list bool) : Z :=
  match gs with
  | [] => 0
  | g :: gs' => b2z g + attempts gs'
  end.

(** [gs] tells, goroutine by goroutine, who is inside a flush attempt; the
    gauge is their number, as an [int32]. *)
Record GaugeInvAt (gs : list bool) (s : Sys) : Prop := mkGaugeInvAt {
  gauge_length : length gs = length (threads s);
  gauge_threads :
    forall tid t g, threads s !! tid = Some t -> gs !! tid = Some g ->
      gaugeOk g (code t) /\
      forall body, loop t = Some body -> gaugeOk false body;
  gauge_value : Concurrency (stats (client s)) = int32 (attempts gs)
}.

Definition GaugeInv (s : Sys) : Prop := exists gs, GaugeInvAt gs s.

(** ** The auxiliary variables are only observed *)

(** A state without its auxiliary variables. *)
Definition eraseThread (t : Thread) : Thread :=
  mkThread Caller (code t) (loop t) false.

Definition erase (s : Sys) : Sys :=
  mkSys (client s) (map eraseThread (threads s)) (crashed s) 0.

(** ** The wait group *)

(** A goroutine started by the client is registered with [finalizeDone]
    until its deferred [Done]; a goroutine of the application is not. *)
Definition selfRegistered (r : Role) : Z :=
  match r with
  | Caller => 0
  | Supplier | TickerTask | Worker => 1
  end.

(** The wait-group discipline of a piece of code run by a goroutine of role
    [r] that answers for [w] registrations: its own, until its [Done], and
    the one it has added for a delivery task it is about to start.  [Done]
    is the last thing a goroutine does, a goroutine is started with the
    registration made for it, and no code panics. *)
Fixpoint wgOk (r : Role) (w : Z) (p : Prog) : Prop :=
  match p with
  | Return _ => w = 0
  | Continue => w = 1
  | Panic _ => False
  | WgDone k => w = 1 /\ k = Return RVoid
  | WgAdd n k => selfRegistered r <= w /\ 0 <= n /\ wgOk r (w + n) k
  | Go r' p k =>
      r' <> Caller /\ selfRegistered r + 1 <= w /\
      wgOk r' 1 p /\ wgOk r (w - 1) k
  | AtomicAddInt32 _ k | BodyClose k | WgWait k | Lock k | Unlock k
  | AddUint64 _ _ k | Gosched k | TickerStop k | CloseFinalize k =>
      selfRegistered r <= w /\ wgOk r w k
  | SwapBundle k => selfRegistered r <= w /\ forall b, wgOk r w (k b)
  | MiniBufferMessage _ k => selfRegistered r <= w /\ forall ms, wgOk r w (k ms)
  | Post _ k => selfRegistered r <= w /\ forall res, wgOk r w (k res)
  | ReadStats k => selfRegistered r <= w /\ forall m, wgOk r w (k m)
  | RecvBucketOrDefault k1 k2 | SendBucketOrFinalize k1 k2
  | RecvFinalizeOrDefault k1 k2 | RecvTickOrFinalize k1 k2 =>
      selfRegistered r <= w /\ wgOk r w k1 /\ wgOk r w k2
  end.

Fixpoint sumZ (ws : list Z) : Z :=
  match ws with
  | [] => 0
  | w :: ws' => w + sumZ ws'
  end.

(** [ws] tells, goroutine by goroutine, the registrations it answers for;
    the counter of the wait group is their sum. *)
Record WgInvAt (ws : list Z) (s : Sys) : Prop := mkWgInvAt {
  wg_length : length ws = length (threads s);
  wg_threads :
    forall tid t w, threads s !! tid = Some t -> ws !! tid = Some w ->
      wgOk (role t) w (code t) /\
      forall body, loop t = Some body -> wgOk (role t) 1 body;
  wg_value : finalizeDone (client s) = sumZ ws
}.

Definition WgInv (s : Sys) : Prop := exists ws, WgInvAt ws s.

(** The goroutine has returned. *)
Definition finished (p : Prog) : bool :=
  match p with
  | Return _ => true
  | _ => false
  end.

Definition isCaller (r : Role) : bool :=
  match r with
  | Caller => true
  | _ => false
  end.

(** The goroutines the client has started that have not returned yet. *)
Fixpoint tasksRunning (ts : list Thread) : Z :=
  match ts with
  | [] => 0
  | t :: ts' =>
      b2z (negb (isCaller (role t)) && negb (finished (code t)))
      + tasksRunning ts'
  end.

(** ** The statistics lock *)

(** The goroutine is inside a critical section of [statLock]: about to
    write a counter, to copy the block or to unlock. *)
Definition inSection (p : Prog) : bool :=
  match p with
  | AddUint64 _ _ _ | ReadStats _ | Unlock _ => true
  | _ => false
  end.

(** ** Calls of Close *)

(** The code, and the goroutines it starts, never reach the two statements
    of [Close] that can panic. *)
Fixpoint closeFree (p : Prog) : Prop :=
  match p with
  | TickerStop _ | CloseFinalize _ => False
  | Return _ | Continue | Panic _ => True
  | Go _ p k => closeFree p /\ closeFree k
  | AtomicAddInt32 _ k | BodyClose k | WgAdd _ k | WgDone k | WgWait k
  | Lock k | Unlock k | AddUint64 _ _ k | Gosched k => closeFree k
  | SwapBundle k => forall b, closeFree (k b)
  | MiniBufferMessage _ k => forall ms, closeFree (k ms)
  | Post _ k => forall res, closeFree (k res)
  | ReadStats k => forall m, closeFree (k m)
  | RecvBucketOrDefault k1 k2 | SendBucketOrFinalize k1 k2
  | RecvFinalizeOrDefault k1 k2 | RecvTickOrFinalize k1 k2 =>
      closeFree k1 /\ closeFree k2
  end.

(** The goroutine is in [Close], before [close(m.finalize)] has run. *)
Definition closing (p : Prog) : bool :=
  match p with
  | TickerStop _ | CloseFinalize _ => true
  | _ => false
  end.

(** A goroutine is either nowhere near those statements or in [Close], at
    its first or at its second statement. *)
Definition closeOk (p : Prog) : Prop :=
  closeFree p \/
  exists k, closeFree k /\ (p = Close k \/ p = CloseFinalize (WgWait k)).

Fixpoint closers (ts : list Thread) : Z :=
  match ts with
  | [] => 0
  | t :: ts' => b2z (closing (code t)) + closers ts'
  end.



(** After [K] calls of [Close]: the calls that have not yet closed the
    shutdown signal, and the one that has, are at most [K]. *)
Record CloseInv (K : Z) (s : Sys) : Prop := mkCloseInv {
  close_threads :
    forall tid t, threads s !! tid = Some t ->
      closeOk (code t) /\ forall body, loop t = Some body -> closeFree body;
  close_count : closers (threads s) + b2z (finalize (client s)) <= K
}.

(** The answers a flush attempt that is admitted consumes, and the
    primitives it runs. *)
Definition admitAnswers (b : Bundle) : list Answer :=
  [ANone; ABundle b; ANone; ANone; ANone; ANone].

Definition admitTrace : list Prim :=
  [PAtomicAddInt32 1; PSwapBundle; PRecvBucketOrDefault; PWgAdd; PGo Worker;
   PAtomicAddInt32 (-1)].

(** ** The periodic goroutine *)

Definition isTicker (r : Role) : bool :=
  match r with
  | TickerTask => true
  | _ => false
  end.

(** Only the periodic goroutine runs a loop, and the loop is [tickerLoop]. *)
Definition loopsOk (ts : list Thread) : Prop :=
  forall tid t, ts !! tid = Some t ->
    loop t = if isTicker (role t) then Some tickerLoop else None.

(** One turn of the periodic goroutine that takes a tick and finds nothing
    buffered. *)
Definition idleTurn : list Answer :=
  [APick true; ANone; ABundle (mkBundle (mkMiniStats 0 0) ""); ANone; ANone].

Definition idleTrace : list Prim :=
  [PRecvTickOrFinalize; PAtomicAddInt32 1; PSwapBundle; PAtomicAddInt32 (-1);
   PContinue].

(** ** Deliveries in flight *)

(** Only a delivery task that owns a token waits for the transport: [r] is
    the role of the goroutine and [h] says whether it owns a token at this
    point. *)
Fixpoint postOk (r : Role) (h : bool) (p : Prog) : Prop :=
  match p with
  | Return _ | Panic _ => True
  | Continue => h = false
  | Post _ k => r = Worker /\ h = true /\ forall res, postOk r h (k res)
  | RecvBucketOrDefault kRecv kDefault =>
      postOk r true kRecv /\ postOk r h kDefault
  | SendBucketOrFinalize kSent kFinalize =>
      postOk r false kSent /\ postOk r false kFinalize
  | Go r' p k => postOk r' h p /\ postOk r false k
  | AtomicAddInt32 _ k | BodyClose k | WgAdd _ k | WgDone k | WgWait k
  | Lock k | Unlock k | AddUint64 _ _ k | Gosched k | TickerStop k
  | CloseFinalize k => postOk r h k
  | SwapBundle k => forall b, postOk r h (k b)
  | MiniBufferMessage _ k => forall ms, postOk r h (k ms)
  | ReadStats k => forall m, postOk r h (k m)
  | RecvFinalizeOrDefault k1 k2 | RecvTickOrFinalize k1 k2 =>
      postOk r h k1 /\ postOk r h k2
  end.

Definition postsOk (ts : list Thread) : Prop :=
  forall tid t, ts !! tid = Some t ->
    postOk (role t) (holds t) (code t) /\
    forall body, loop t = Some body -> postOk (role t) false body.

(** The goroutine is inside [m.c.Post(b)], waiting for the transport. *)
Definition posting (p : Prog) : bool :=
  match p with
  | Post _ _ => true
  | _ => false
  end.

(** The requests in flight. *)
Fixpoint inFlight (ts : list Thread) : Z :=
  match ts with
  | [] => 0
  | t :: ts' => b2z (posting (code t)) + inFlight ts'
  end.

(** ** Running down after the shutdown *)

(** What the environment answers a goroutine that is run down: nothing is
    buffered any more, the transport gives up, and a [select] with both cases
    ready takes the shutdown signal. *)
Definition idleBundle : Bundle := mkBundle (mkMiniStats 0 0) "".

Definition answerFor (p : Prog) : Answer :=
  match p with
  | SwapBundle _ => ABundle idleBundle
  | MiniBufferMessage _ _ => AMiniStats (mkMiniStats 0 0)
  | Post _ _ => APost (PostErr "shutdown")
  | _ => APick false
  end.

(** The primitives a goroutine, and the goroutines it starts, have left to
    run once the shutdown signal is closed and the environment answers as
    above; a goroutine in [Close] is not counted, it waits for the others. *)
Fixpoint toGo (p : Prog) : nat :=
  match p with
  | Return _ | Panic _ | WgWait _ | TickerStop _ | CloseFinalize _ => 0
  | Continue => 3             (* back to the select, then Done *)
  | AtomicAddInt32 _ k | BodyClose k | WgAdd _ k | WgDone k | Lock k
  | Unlock k | AddUint64 _ _ k | Gosched k => S (toGo k)
  | SwapBundle k => S (toGo (k idleBundle))
  | MiniBufferMessage _ k => S (toGo (k (mkMiniStats 0 0)))
  | Post _ k => S (toGo (k (PostErr "shutdown")))
  | ReadStats k => S (toGo (k zeroStats))
  | RecvBucketOrDefault _ kDefault => S (toGo kDefault)
  | SendBucketOrFinalize _ kFinalize => S (toGo kFinalize)
  | RecvFinalizeOrDefault kClosed _ => S (toGo kClosed)
  | RecvTickOrFinalize _ kFinalize => S (toGo kFinalize)
  | Go _ q k => S (toGo q + toGo k)
  end.

Fixpoint workLeft (ts : list Thread) : nat :=
  match ts with
  | [] => 0
  | t :: ts' => toGo (code t) + workLeft ts'
  end.

(** The code never waits for the wait group, never panics, loops only in the
    periodic goroutine, and what it has left to run does not depend on the
    statistics it reads. *)
Fixpoint waitFree (r : Role) (p : Prog) : Prop :=
  match p with
  | Return _ => True
  | Continue => r = TickerTask
  | Panic _ | WgWait _ | TickerStop _ | CloseFinalize _ => False
  | Go r' q k => waitFree r' q /\ waitFree r k
  | AtomicAddInt32 _ k | BodyClose k | WgAdd _ k | WgDone k | Lock k
  | Unlock k | AddUint64 _ _ k | Gosched k => waitFree r k
  | SwapBundle k => forall b, waitFree r (k b)
  | MiniBufferMessage _ k => forall ms, waitFree r (k ms)
  | Post _ k => forall res, waitFree r (k res)
  | ReadStats k =>
      forall m, waitFree r (k m) /\ toGo (k m) = toGo (k zeroStats)
  | RecvBucketOrDefault k1 k2 | SendBucketOrFinalize k1 k2
  | RecvFinalizeOrDefault k1 k2 | RecvTickOrFinalize k1 k2 =>
      waitFree r k1 /\ waitFree r k2
  end.

(** The three points of a call of [Close]. *)
Definition inClose (p : Prog) : Prop :=
  p = Close (Return RVoid) \/ p = CloseFinalize (WgWait (Return RVoid)) \/
  p = WgWait (Return RVoid).

Definition drainOk (ts : list Thread) : Prop :=
  forall tid t, ts !! tid = Some t ->
    (inClose (code t) \/ waitFree (role t) (code t)) /\
    forall body, loop t = Some body -> waitFree (role t) body.

Definition isRun (l : Label) : Prop :=
  match l with
  | Run _ _ => True
  | _ => False
  end.

(** ** Every record is accounted once *)

(** The running total looked at: of records, or of requests. *)
Definition tally (req : bool) : Counter :=
  if req then CTotalRequests else CTotal.

(** What a batch taken from the mini client has to add to the running
    total: nothing if it is empty, else its records, or one request. *)
Definition due (req : bool) (b : Bundle) : Z :=
  if NumberFramed (bMiniStats b) <=? 0 then 0
  else if req then 1 else NumberFramed (bMiniStats b).

(** What the goroutine, and the goroutines it starts, will still add to the
    running total if it takes no further batch. *)
Fixpoint owed (req : bool) (p : Prog) : Z :=
  match p with
  | Return _ | Continue | Panic _ => 0
  | AddUint64 fld n k =>
      (if bool_decide (fld = tally req) then n else 0) + owed req k
  | Go _ q k => owed req q + owed req k
  | SwapBundle k => owed req (k idleBundle)
  | MiniBufferMessage _ k => owed req (k (mkMiniStats 0 0))
  | Post _ k => owed req (k (PostErr "shutdown"))
  | ReadStats k => owed req (k zeroStats)
  | RecvBucketOrDefault _ kDefault => owed req kDefault
  | SendBucketOrFinalize _ kFinalize => owed req kFinalize
  | RecvFinalizeOrDefault kClosed _ => owed req kClosed
  | RecvTickOrFinalize _ kFinalize => owed req kFinalize
  | AtomicAddInt32 _ k | BodyClose k | WgAdd _ k | WgDone k | WgWait k
  | Lock k | Unlock k | Gosched k | TickerStop k | CloseFinalize k =>
      owed req k
  end.

(** The debt of a piece of code is the same on every path, whatever the
    environment answers and whichever case a [select] takes; it is made by
    taking a batch, and is then what the batch is due. *)
Fixpoint owedOk (req : bool) (p : Prog) : Prop :=
  match p with
  | Return _ | Continue | Panic _ => True
  | SwapBundle k => forall b, owedOk req (k b) /\ owed req (k b) = due req b
  | MiniBufferMessage _ k =>
      forall ms, owedOk req (k ms) /\
                 owed req (k ms) = owed req (k (mkMiniStats 0 0))
  | Post _ k =>
      forall res, owedOk req (k res) /\
                  owed req (k res) = owed req (k (PostErr "shutdown"))
  | ReadStats k =>
      forall m, owedOk req (k m) /\ owed req (k m) = owed req (k zeroStats)
  | RecvBucketOrDefault k1 k2 | SendBucketOrFinalize k1 k2
  | RecvFinalizeOrDefault k1 k2 | RecvTickOrFinalize k1 k2 =>
      owedOk req k1 /\ owedOk req k2 /\ owed req k1 = owed req k2
  | Go _ q k => owedOk req q /\ owedOk req k
  | AtomicAddInt32 _ k | BodyClose k | WgAdd _ k | WgDone k | WgWait k
  | Lock k | Unlock k | AddUint64 _ _ k | Gosched k | TickerStop k
  | CloseFinalize k => owedOk req k
  end.

Definition owedAll (req : bool) (ts : list Thread) : Prop :=
  forall tid t, ts !! tid = Some t ->
    owedOk req (code t) /\
    forall body, loop t = Some body -> owedOk req body /\ owed req body = 0.

(** The debt of all goroutines. *)
Fixpoint pendingOf (req : bool) (ts : list Thread) : Z :=
  match ts with
  | [] => 0
  | t :: ts' => owed req (code t) + pendingOf req ts'
  end.

(** What a step takes from the mini client. *)
Definition taken (req : bool) (s : Sys) (l : Label) : Z :=
  match l with
  | Run tid (ABundle b) =>
      match threads s !! tid with
      | Some t =>
          match code t with
          | SwapBundle _ => due req b
          | _ => 0
          end
      | None => 0
      end
  | _ => 0
  end.

Fixpoint takenAlong (req : bool) (s : Sys) (ls : list Label) : Z :=
  match ls with
  | [] => 0
  | l :: ls' =>
      match step s l with
      | Some s' => taken req s l + takenAlong req s' ls'
      | None => 0
      end
  end.

(** ** Example runs *)

(** Capacity 1, size threshold 1, no time trigger. *)
Definition demoConfig : Config :=
  Config.mk "https://logplex.example/logs" "t.0f0f" "" 1 1 0 TimeTriggerNever.

(** The same with capacity 0. *)
Definition demoConfigZero : Config :=
  Config.mk "https://logplex.example/logs" "t.0f0f" "" 1 0 0 TimeTriggerNever.

(** The behaviours that need no period, with a period left at zero. *)
Definition demoConfigImmediate : Config :=
  Config.mk "https://logplex.example/logs" "t.0f0f" "" 1024 1 0
    TimeTriggerImmediate.
Definition demoConfigNever : Config :=
  Config.mk "https://logplex.example/logs" "t.0f0f" "" 1024 1 0
    TimeTriggerNever.

(** A negative period next to the immediate behaviour. *)
Definition demoConfigNegative : Config :=
  Config.mk "https://logplex.example/logs" "t.0f0f" "" 1024 1 (-1)
    TimeTriggerImmediate.

(** A zero period under the periodic behaviour. *)
Definition demoConfigZeroPeriod : Config :=
  Config.mk "https://logplex.example/logs" "t.0f0f" "" 1024 1 0
    TimeTriggerPeriodic.

Definition demoMessage : LogMessage :=
  mkLogMessage 1700000000 "host-1" "web.1" "GET / 200".

(** One framed record, one unit of volume buffered. *)
Definition demoMiniStats : MiniStats := mkMiniStats 1 1.
Definition demoBundle : Bundle := mkBundle demoMiniStats "<14>1 GET / 200".
Definition emptyBundle : Bundle := mkBundle (mkMiniStats 0 0) "".

Definition stateAfter (cfg : Config) (ls : list Label) : option Sys :=
  match boot demoNewMiniClient cfg with
  | Some s0 => run s0 ls
  | None => None
  end.

Definition noSys : Sys :=
  mkSys (mkClient zeroStats false (mkMiniClient (mkMiniConfig "" "" "")) [] 0
           0 None false 0) [] true 0.

Definition orNoSys (o : option Sys) : Sys :=
  match o with
  | Some s => s
  | None => noSys
  end.

(** The supply goroutine offers its token; a caller buffers one record,
    which crosses the threshold; its flush attempt takes the token and starts
    the delivery task, goroutine 2. *)
Definition demoDispatch : list Label :=
  [Run 0 ANone; Invoke (CallBufferMessage demoMessage); Run 1 ANone;
   Run 1 (AMiniStats demoMiniStats); Run 1 ANone; Run 1 (ABundle demoBundle);
   Run 1 ANone; Run 1 ANone; Run 1 ANone].

(** While that delivery is in flight a second caller, goroutine 3, buffers
    a record and is about to start a flush attempt. *)
Definition demoSecondCaller : list Label :=
  demoDispatch ++
  [Run 1 ANone; Invoke (CallBufferMessage demoMessage); Run 3 ANone;
   Run 3 (AMiniStats demoMiniStats)].

Definition demoInFlight : Sys :=
  Eval vm_compute in orNoSys (stateAfter demoConfig demoDispatch).
Definition demoSaturated : Sys :=
  Eval vm_compute in orNoSys (stateAfter demoConfig demoSecondCaller).

(** A caller that has just entered [BufferMessage]. *)
Definition demoEntered : Sys :=
  Eval vm_compute in
  orNoSys (stateAfter demoConfig [Invoke (CallBufferMessage demoMessage)]).

(** Capacity 0: a caller about to start a flush attempt. *)
Definition demoZeroCaller : list Label :=
  [Run 0 ANone; Invoke (CallBufferMessage demoMessage); Run 1 ANone;
   Run 1 (AMiniStats demoMiniStats)].

Definition demoZero : Sys :=
  Eval vm_compute in orNoSys (stateAfter demoConfigZero demoZeroCaller).

(** Two callers of a client of capacity 1 with the immediate behaviour,
    both inside a flush attempt. *)
Definition demoTwoAttempts : list Label :=
  [Invoke (CallBufferMessage demoMessage);
   Invoke (CallBufferMessage demoMessage);
   Run 1 ANone; Run 1 (AMiniStats demoMiniStats); Run 1 ANone;
   Run 2 ANone; Run 2 (AMiniStats demoMiniStats); Run 2 ANone].

(** The delivery of [demoDispatch] gets a 204 and accounts it. *)
Definition demoDelivery : list Label :=
  demoDispatch ++
  [Run 2 (APost (PostResp 204)); Run 2 ANone; Run 2 ANone; Run 2 ANone;
   Run 2 ANone; Run 2 ANone; Run 2 ANone].

Definition demoDelivered : Sys :=
  Eval vm_compute in orNoSys (stateAfter demoConfig demoDelivery).

Definition demoTwoInside : Sys :=
  Eval vm_compute in orNoSys (stateAfter demoConfigImmediate demoTwoAttempts).

(** The caller of [demoDispatch] has left its flush attempt. *)
Definition demoReturned : Sys :=
  Eval vm_compute in
  orNoSys (stateAfter demoConfig (demoDispatch ++ [Run 1 ANone])).

(** A goroutine has just called [Close] on a client that has no ticker. *)
Definition demoClosing : Sys :=
  Eval vm_compute in
  orNoSys (stateAfter demoConfigImmediate [Invoke CallClose]).

(** Capacity 1, size threshold 1, a tick every 100 ms. *)
Definition demoConfigPeriodic : Config :=
  Config.mk "https://logplex.example/logs" "t.0f0f" "" 1 1 100000000
    TimeTriggerPeriodic.

(** A caller (goroutine 2) reaches the probe of the bucket before the supply
    goroutine has offered its token; then another goroutine (3) calls [Close],
    which stops the ticker and closes the shutdown signal. *)
Definition demoShutdown : list Label :=
  [Invoke (CallBufferMessage demoMessage); Run 2 ANone;
   Run 2 (AMiniStats demoMiniStats); Run 2 ANone; Run 2 (ABundle demoBundle);
   Invoke CallClose; Run 3 ANone; Run 3 ANone].

Definition demoClosed : Sys :=
  Eval vm_compute in orNoSys (stateAfter demoConfigPeriodic demoShutdown).

(** The supply goroutine has offered its token and a caller is about to
    start a flush attempt. *)
Definition demoOffer : list Label :=
  [Run 0 ANone; Invoke (CallBufferMessage demoMessage); Run 1 ANone;
   Run 1 (AMiniStats demoMiniStats)].

Definition demoOffered : Sys :=
  Eval vm_compute in orNoSys (stateAfter demoConfig demoOffer).

(** The delivery of [demoDispatch] has its answer and is inside the
    critical section of its statistics update. *)
Definition demoUpdate : list Label :=
  demoDispatch ++ [Run 2 (APost (PostResp 204)); Run 2 ANone; Run 2 ANone].

Definition demoUpdating : Sys :=
  Eval vm_compute in orNoSys (stateAfter demoConfig demoUpdate).

(** The delivery of [demoDelivery] has closed the body of the response, and
    another goroutine, 3, asks for the statistics. *)
Definition demoAccount : list Label := demoDelivery ++ [Run 2 ANone].

Definition demoAccounted : Sys :=
  Eval vm_compute in orNoSys (stateAfter demoConfig demoAccount).

Definition demoAsk : list Label := demoAccount ++ [Invoke CallStatistics].

Definition demoAsking : Sys :=
  Eval vm_compute in orNoSys (stateAfter demoConfig demoAsk).

(** A periodic client: freshly built; with a tick pending; with a goroutine,
    2, that has just called [Close]. *)
Definition demoBooted : Sys :=
  Eval vm_compute in orNoSys (stateAfter demoConfigPeriodic []).

Definition demoTick : Sys :=
  Eval vm_compute in orNoSys (stateAfter demoConfigPeriodic [TimerFires]).

Definition demoClosingPeriodic : Sys :=
  Eval vm_compute in
  orNoSys (stateAfter demoConfigPeriodic [Invoke CallClose]).

(** After the shutdown of [demoShutdown] the supply goroutine leaves its
    loop, and a goroutine, 4, calls [Close] once more. *)
Definition demoLeave : list Label := demoShutdown ++ [Run 0 ANone].

Definition demoLeft : Sys :=
  Eval vm_compute in orNoSys (stateAfter demoConfigPeriodic demoLeave).

Definition demoCloseAgain : list Label := demoShutdown ++ [Invoke CallClose].

Definition demoClosedAgain : Sys :=
  Eval vm_compute in orNoSys (stateAfter demoConfigPeriodic demoCloseAgain).

(** A caller, goroutine 2, takes the token of the supply goroutine; before
    it registers the delivery task another goroutine, 3, calls [Close], and
    the supply goroutine and the periodic goroutine leave. *)
Definition demoLateAdmission : list Label :=
  [Run 0 ANone; Invoke (CallBufferMessage demoMessage); Run 2 ANone;
   Run 2 (AMiniStats demoMiniStats); Run 2 ANone; Run 2 (ABundle demoBundle);
   Run 2 ANone; Invoke CallClose; Run 3 ANone; Run 3 ANone; Run 0 ANone;
   Run 1 (APick false); Run 1 ANone].

Definition demoLate : Sys :=
  Eval vm_compute in orNoSys (stateAfter demoConfigPeriodic demoLateAdmission).

(** The client of [demoConfig], freshly built. *)
Definition demoFresh : Sys :=
  Eval vm_compute in orNoSys (stateAfter demoConfig []).

(** * Verification *)

(** ** Running one goroutine *)

Lemma step_run (s : Sys) (tid : nat) (t : Thread) (a : Answer) :
  crashed s = false ->
  threads s !! tid = Some t ->
  step s (Run tid a) = runThread s tid t a.
Proof. intros Hc Ht. unfold step. now rewrite Hc, Ht. Qed.

Lemma run_cons (s : Sys) (l : Label) (ls : list Label) :
  run s (l :: ls) =
  match step s l with
  | Some s' => run s' ls
  | None => None
  end.
Proof. reflexivity. Qed.

Lemma run_app (s : Sys) (ls1 ls2 : list Label) :
  run s (ls1 ++ ls2) =
  match run s ls1 with
  | Some s' => run s' ls2
  | None => None
  end.
Proof.
  revert s. induction ls1 as [|l ls1 IH]; intros s; simpl; [reflexivity|].
  destruct (step s l); [apply IH | reflexivity].
Qed.

Lemma run_snoc (s s' : Sys) (ls : list Label) (l : Label) :
  run s ls = Some s' -> run s (ls ++ [l]) = step s' l.
Proof.
  intros H. rewrite run_app, H. simpl. now destruct (step s' l).
Qed.

Lemma lookup_setThread (s : Sys) (tid : nat) (t t' : Thread) :
  threads s !! tid = Some t ->
  threads (setThread tid t' s) !! tid = Some t'.
Proof.
  intros Ht. simpl. apply list_lookup_insert_eq.
  now apply lookup_lt_Some in Ht.
Qed.

Lemma focus_here (s : Sys) (tid : nat) (t : Thread) :
  threads s !! tid = Some t -> s = focus s tid t (client s) (code t).
Proof.
  intros Ht. unfold focus, setThread, setClient, goto. simpl.
  destruct t; simpl. rewrite list_insert_id by assumption. now destruct s.
Qed.

Lemma focus_next (s : Sys) (tid : nat) (t : Thread) (m m' : Client)
    (p q : Prog) :
  setThread tid (goto q (goto p t)) (setClient m' (focus s tid t m p)) =
  focus s tid t m' q.
Proof.
  unfold focus, setThread, setClient, goto. simpl.
  now rewrite list_insert_insert_eq.
Qed.

Lemma focus_goto (s : Sys) (tid : nat) (t : Thread) (m : Client) (p q : Prog) :
  setThread tid (goto q (goto p t)) (focus s tid t m p) = focus s tid t m q.
Proof.
  unfold focus, setThread, setClient, goto. simpl.
  now rewrite list_insert_insert_eq.
Qed.

Lemma client_focus (s : Sys) (tid : nat) (t : Thread) (m : Client) (p : Prog) :
  client (focus s tid t m p) = m.
Proof. reflexivity. Qed.

Lemma step_focus (s : Sys) (tid : nat) (t : Thread) (m : Client) (p : Prog)
    (a : Answer) :
  crashed s = false ->
  (tid < length (threads s))%nat ->
  step (focus s tid t m p) (Run tid a) =
  runThread (focus s tid t m p) tid (goto p t) a.
Proof.
  intros Hc Hlt. apply step_run; [exact Hc|].
  unfold focus. simpl. now apply list_lookup_insert_eq.
Qed.

Lemma focus_client_id (s : Sys) (tid : nat) (t : Thread) (p : Prog) :
  focus s tid t (client s) p = setThread tid (goto p t) s.
Proof. unfold focus, setClient. now destruct s. Qed.

Lemma trace_focus (s : Sys) (tid : nat) (t : Thread) (m : Client) (p : Prog)
    (a : Answer) (answers : list Answer) :
  crashed s = false ->
  (tid < length (threads s))%nat ->
  trace (focus s tid t m p) tid (a :: answers) =
  match runThread (focus s tid t m p) tid (goto p t) a with
  | Some s' => prim p :: trace s' tid answers
  | None => []
  end.
Proof.
  intros Hc Hlt. simpl trace at 1.
  rewrite (step_focus _ _ _ _ _ _ Hc Hlt).
  unfold focus at 1. simpl threads. rewrite list_lookup_insert_eq by assumption.
  reflexivity.
Qed.

(** Run the next primitive of the focused goroutine, alone. *)
Ltac solo Hc Hlt :=
  rewrite run_cons, (step_focus _ _ _ _ _ _ Hc Hlt);
  cbn -[addCounter addConcurrency focus run is_uint64];
  rewrite ?client_focus, ?focus_next, ?focus_goto.

Ltac solo_trace Hc Hlt :=
  rewrite (trace_focus _ _ _ _ _ _ _ Hc Hlt);
  cbn -[addCounter addConcurrency focus trace is_uint64];
  rewrite ?client_focus, ?focus_next, ?focus_goto.

(** ** Machine arithmetic *)

Lemma int32_id (z : Z) : in_int32 z -> int32 z = z.
Proof.
  unfold in_int32, int32. intros H.
  rewrite Z.mod_small by lia. lia.
Qed.

Lemma int32_add_sub (z d : Z) : in_int32 z -> int32 (int32 (z + d) + - d) = z.
Proof.
  intros H. rewrite <- (int32_id z H) at 2. unfold int32.
  f_equal.
  replace ((z + d + 2 ^ 31) mod 2 ^ 32 - 2 ^ 31 + - d + 2 ^ 31)
    with ((z + d + 2 ^ 31) mod 2 ^ 32 + - d) by lia.
  rewrite Zplus_mod_idemp_l. f_equal. lia.
Qed.

Lemma uint64_range (z : Z) : in_uint64 (uint64 z).
Proof. unfold in_uint64, uint64. apply Z.mod_pos_bound. lia. Qed.

Lemma uint64_id (z : Z) : in_uint64 z -> uint64 z = z.
Proof. unfold in_uint64, uint64. intros H. now apply Z.mod_small. Qed.

(** ** The supply loop has enough fuel *)

Lemma supplyFrom_exit (fuel : nat) (n i : Z) :
  n <= i -> supplyFrom fuel n i = WgDone (Return RVoid).
Proof.
  intros H. destruct fuel; simpl; [reflexivity|].
  destruct (Z.ltb_spec i n); [lia | reflexivity].
Qed.

Lemma supplyFrom_send (fuel : nat) (n i : Z) :
  i < n ->
  (Z.to_nat (n - i) <= fuel)%nat ->
  exists fuel',
    fuel = S fuel' /\
    (Z.to_nat (n - (i + 1)) <= fuel')%nat /\
    supplyFrom fuel n i =
      SendBucketOrFinalize (supplyFrom fuel' n (i + 1)) (WgDone (Return RVoid)).
Proof.
  intros Hlt Hfuel. destruct fuel as [|fuel']; [lia|].
  exists fuel'. split; [reflexivity|]. split; [lia|].
  simpl. destruct (Z.ltb_spec i n); [reflexivity | lia].
Qed.

(** More fuel than [n - i] changes nothing: the loop is the Go loop. *)
Lemma tokenSupplier_fuel (fuel : nat) (n i : Z) :
  (Z.to_nat (n - i) <= fuel)%nat ->
  supplyFrom fuel n i = supplyFrom (Z.to_nat (n - i)) n i.
Proof.
  revert i. induction fuel as [|fuel IH]; intros i Hfuel.
  - replace (Z.to_nat (n - i)) with O by lia. reflexivity.
  - destruct (Z.ltb_spec i n) as [Hlt|Hge].
    + destruct (supplyFrom_send (Z.to_nat (n - i)) n i Hlt) as (f' & Hf & _ & ->);
        [lia|].
      simpl. destruct (Z.ltb_spec i n); [|lia].
      rewrite (IH (i + 1)) by lia.
      replace f' with (Z.to_nat (n - (i + 1))) by lia. reflexivity.
    + now rewrite !supplyFrom_exit.
Qed.

(** ** C7: construction and the period *)

Section Construction.

Variable NewMiniClient : MiniConfig -> MiniClient + string.

Lemma NewClient_negative_periodic (cfg : Config) (world : list Thread) :
  Config.TimeTrigger cfg = TimeTriggerPeriodic ->
  Config.Period cfg < 0 ->
  exists err, NewClient NewMiniClient cfg world = (Err err, world).
Proof.
  intros Htt Hneg. unfold NewClient.
  destruct (NewMiniClient _) as [c|err]; [|now exists err].
  rewrite Htt. simpl.
  destruct (Z.ltb_spec (Config.Period cfg) 0); [|lia].
  now exists errNegative.
Qed.

Lemma NewClient_zero_periodic (cfg : Config) (world : list Thread)
    (c : MiniClient) :
  NewMiniClient (miniConfigOf cfg) = inl c ->
  Config.TimeTrigger cfg = TimeTriggerPeriodic ->
  Config.Period cfg = 0 ->
  NewClient NewMiniClient cfg world =
    (Ok (mkClient zeroStats false c [] (Config.RequestSizeTrigger cfg)
           TimeTriggerImmediate None false 1),
     world ++ [mkThread Supplier (tokenSupplier (Config.Concurrency cfg))
                 None false]).
Proof.
  intros Hc Htt Hz. unfold NewClient. unfold miniConfigOf in Hc.
  rewrite Hc, Htt, Hz. reflexivity.
Qed.

Lemma NewClient_not_periodic (cfg : Config) (world : list Thread)
    (c : MiniClient) :
  NewMiniClient (miniConfigOf cfg) = inl c ->
  Config.TimeTrigger cfg <> TimeTriggerPeriodic ->
  NewClient NewMiniClient cfg world =
    (Ok (mkClient zeroStats false c [] (Config.RequestSizeTrigger cfg)
           (Config.TimeTrigger cfg) None false 1),
     world ++ [mkThread Supplier (tokenSupplier (Config.Concurrency cfg))
                 None false]).
Proof.
  intros Hc Htt. unfold NewClient. unfold miniConfigOf in Hc. rewrite Hc.
  destruct (Z.eqb_spec (Config.TimeTrigger cfg) TimeTriggerPeriodic);
    [contradiction|].
  cbn -[Z.eqb].
  destruct (Z.eqb_spec (Config.TimeTrigger cfg) TimeTriggerPeriodic);
    [contradiction | reflexivity].
Qed.

Lemma NewClient_positive_periodic (cfg : Config) (world : list Thread)
    (c : MiniClient) :
  NewMiniClient (miniConfigOf cfg) = inl c ->
  Config.TimeTrigger cfg = TimeTriggerPeriodic ->
  0 < Config.Period cfg ->
  NewClient NewMiniClient cfg world =
    (Ok (mkClient zeroStats false c [] (Config.RequestSizeTrigger cfg)
           TimeTriggerPeriodic
           (Some (mkTicker (Config.Period cfg) false false)) false 2),
     (world ++ [mkThread Supplier (tokenSupplier (Config.Concurrency cfg))
                  None false])
       ++ [mkThread TickerTask tickerLoop (Some tickerLoop) false]).
Proof.
  intros Hc Htt Hpos. unfold NewClient. unfold miniConfigOf in Hc.
  rewrite Hc, Htt. cbn -[Z.ltb Z.eqb Z.gtb].
  destruct (Z.ltb_spec (Config.Period cfg) 0); [lia|].
  destruct (Z.eqb_spec (Config.Period cfg) 0); [lia|].
  destruct (Z.gtb_spec (Config.Period cfg) 0); [|lia].
  reflexivity.
Qed.

(** The [panic("bug")] of the switch is dead code: [NewClient] hands back
    a client, with the goroutines it started added to those of the process,
    or an error, with the process as it was. *)
Lemma NewClient_returns (cfg : Config) (world : list Thread) :
  (exists m started,
     NewClient NewMiniClient cfg world = (Ok m, world ++ started)) \/
  (exists err, NewClient NewMiniClient cfg world = (Err err, world)).
Proof.
  destruct (NewMiniClient (miniConfigOf cfg)) as [c|err] eqn:Hc.
  - destruct (Z.eq_dec (Config.TimeTrigger cfg) TimeTriggerPeriodic) as [Htt|Htt].
    + destruct (Z.lt_trichotomy (Config.Period cfg) 0) as [H|[H|H]].
      * right. now apply NewClient_negative_periodic.
      * left. rewrite (NewClient_zero_periodic _ _ _ Hc Htt H). eauto.
      * left. rewrite (NewClient_positive_periodic _ _ _ Hc Htt H).
        rewrite <- app_assoc. eauto.
    + left. rewrite (NewClient_not_periodic _ _ _ Hc Htt). eauto.
  - right. unfold NewClient. unfold miniConfigOf in Hc. rewrite Hc. eauto.
Qed.

(** C7 (amended).  Under the [Periodic] behaviour a negative period makes
    [NewClient] fail and leaves the goroutines of the process as they were,
    and a zero period yields a client whose policy is [Immediate], with no
    ticker and only the supply goroutine started.  Under every other
    behaviour the period is not looked at: construction succeeds, whatever
    the period, and the configured behaviour is kept. *)
Theorem NewClient_period (cfg : Config) (world : list Thread) :
  (Config.TimeTrigger cfg = TimeTriggerPeriodic ->
   Config.Period cfg < 0 ->
   exists err, NewClient NewMiniClient cfg world = (Err err, world)) /\
  (forall c,
     NewMiniClient (miniConfigOf cfg) = inl c ->
     Config.TimeTrigger cfg = TimeTriggerPeriodic ->
     Config.Period cfg = 0 ->
     exists m,
       NewClient NewMiniClient cfg world =
         (Ok m,
          world ++ [mkThread Supplier (tokenSupplier (Config.Concurrency cfg))
                      None false]) /\
       timeTrigger m = TimeTriggerImmediate /\ ticker m = None) /\
  (forall c,
     NewMiniClient (miniConfigOf cfg) = inl c ->
     Config.TimeTrigger cfg <> TimeTriggerPeriodic ->
     exists m,
       NewClient NewMiniClient cfg world =
         (Ok m,
          world ++ [mkThread Supplier (tokenSupplier (Config.Concurrency cfg))
                      None false]) /\
       timeTrigger m = Config.TimeTrigger cfg /\ ticker m = None).
Proof.
  split; [apply NewClient_negative_periodic|]. split.
  - intros c Hc Htt Hz. eexists. split.
    + apply (NewClient_zero_periodic _ _ _ Hc Htt Hz).
    + split; reflexivity.
  - intros c Hc Htt. eexists. split.
    + apply (NewClient_not_periodic _ _ _ Hc Htt).
    + split; reflexivity.
Qed.

End Construction.

(** ** The statistics updates, run alone *)

Lemma account_counters (o : Outcome) (n : Z) (m : Stats) (fld : Counter) :
  getCounter fld (account o n m) = accounted o n m fld.
Proof. destruct o, fld; reflexivity. Qed.

Lemma account_gauge (o : Outcome) (n : Z) (m : Stats) :
  Concurrency (account o n m) = Concurrency m.
Proof. destruct o; reflexivity. Qed.

(** A category other than the one accounted keeps both its counters. *)
Lemma account_other (o o' : Outcome) (n : Z) (m : Stats) :
  o' <> o ->
  getCounter (msgCounter o') (account o n m) = getCounter (msgCounter o') m /\
  getCounter (reqCounter o') (account o n m) = getCounter (reqCounter o') m.
Proof. destruct o, o'; intros H; try contradiction; split; reflexivity. Qed.

Lemma statReq_unfold (o : Outcome) (ms : MiniStats) (k : Prog) :
  statReq o ms k =
  Lock (
  AddUint64 CTotal (NumberFramed ms) (
  AddUint64 CTotalRequests 1 (
  AddUint64 (msgCounter o) (NumberFramed ms) (
  AddUint64 (reqCounter o) 1 (
  Unlock k))))).
Proof. destruct o; reflexivity. Qed.

Lemma unlock_after_lock (m : Client) (st : Stats) :
  statLock m = false ->
  withStatLock false (withStats st (withStatLock true m)) = withStats st m.
Proof. destruct m; simpl. now intros ->. Qed.

(** From a state where the lock is free, the six primitives of a
    statistics function run without interruption leave the block with one
    request accounted to the category, and the lock free again. *)
Lemma run_statReq (s : Sys) (tid : nat) (t : Thread) (m : Client)
    (o : Outcome) (ms : MiniStats) (k : Prog) :
  crashed s = false ->
  (tid < length (threads s))%nat ->
  statLock m = false ->
  run (focus s tid t m (statReq o ms k))
      (map (Run tid) [ANone; ANone; ANone; ANone; ANone; ANone]) =
  Some (focus s tid t
          (withStats (account o (NumberFramed ms) (stats m)) m) k).
Proof.
  intros Hc Hlt Hl. rewrite statReq_unfold. simpl map.
  solo Hc Hlt. rewrite Hl. rewrite ?client_focus, ?focus_next.
  do 5 solo Hc Hlt.
  cbn -[addCounter]. unfold account.
  now rewrite <- (unlock_after_lock m _ Hl).
Qed.

(** ** C4: the delivery task classifies by the response alone *)

Lemma syncWorker_post (s : Sys) (tid : nat) (t : Thread) (m : Client)
    (b : Bundle) (r : PostResult) :
  crashed s = false ->
  (tid < length (threads s))%nat ->
  step (focus s tid t m (syncWorker b)) (Run tid (APost r)) =
  Some (focus s tid t m (statReq (classify r) (bMiniStats b) (afterPost r))).
Proof.
  intros Hc Hlt. rewrite (step_focus _ _ _ _ _ _ Hc Hlt).
  cbn -[focus Z.eqb]. rewrite focus_goto.
  destruct r as [err|code]; [reflexivity|].
  unfold classify, afterPost.
  now destruct (code =? StatusNoContent).
Qed.

(** C4.  A delivery task whose transport call returns [r] accounts its
    batch, once and under the lock, to the category [classify r]: cancelled
    when there is an error and no response, successful when the status is
    204, rejected for any other status.  The category is a function of [r]
    alone; the two other delivery categories and the drops keep their
    counters. *)
Theorem syncWorker_classifies (s : Sys) (tid : nat) (t : Thread) (b : Bundle)
    (r : PostResult) :
  crashed s = false ->
  threads s !! tid = Some t ->
  code t = syncWorker b ->
  statLock (client s) = false ->
  let n := NumberFramed (bMiniStats b) in
  let m := stats (client s) in
  exists s',
    run s (map (Run tid) [APost r; ANone; ANone; ANone; ANone; ANone; ANone])
      = Some s' /\
    stats (client s') = account (classify r) n m /\
    (forall fld, getCounter fld (stats (client s'))
                 = accounted (classify r) n m fld) /\
    (forall o, o <> classify r ->
       getCounter (msgCounter o) (stats (client s')) = getCounter (msgCounter o) m /\
       getCounter (reqCounter o) (stats (client s')) = getCounter (reqCounter o) m) /\
    statLock (client s') = false /\
    threads s' !! tid = Some (goto (afterPost r) t).
Proof.
  intros Hc Ht Hp Hl n m.
  assert (Hlt := lookup_lt_Some _ _ _ Ht).
  eexists. split.
  - rewrite (focus_here s tid t Ht) at 1. rewrite Hp.
    simpl map. rewrite run_cons, (syncWorker_post _ _ _ _ _ _ Hc Hlt).
    apply (run_statReq _ _ _ _ _ _ _ Hc Hlt Hl).
  - rewrite client_focus. simpl stats.
    split; [reflexivity|]. split; [intros fld; apply account_counters|].
    split; [intros o Ho; now apply account_other|].
    split; [exact Hl|].
    unfold focus. simpl. now apply list_lookup_insert_eq.
Qed.

(** ** Flush attempts, run alone *)

Lemma getCounter_addConcurrency (fld : Counter) (d : Z) (m : Stats) :
  getCounter fld (addConcurrency d m) = getCounter fld m.
Proof. now destruct fld. Qed.

Lemma fmap_insert_same {A B : Type} (f : A -> B) (l : list A) (i : nat)
    (x y : A) :
  l !! i = Some x -> f y = f x -> f <$> (<[i := y]> l) = f <$> l.
Proof.
  intros Hl Hf. rewrite list_fmap_insert, Hf.
  apply list_insert_id. now rewrite list_lookup_fmap, Hl.
Qed.

Lemma quiet_focus (s : Sys) (tid : nat) (t : Thread) (m : Client) (p : Prog) :
  threads s !! tid = Some t ->
  (forall fld, getCounter fld (stats m) = getCounter fld (stats (client s))) ->
  statLock m = statLock (client s) ->
  bucket m = bucket (client s) ->
  finalizeDone m = finalizeDone (client s) ->
  quiet s (focus s tid t m p).
Proof.
  intros Ht Hcnt Hl Hb Hw. unfold quiet. rewrite client_focus.
  repeat split; try assumption; unfold focus; simpl.
  - now apply (fmap_insert_same holds _ _ t).
  - now apply (fmap_insert_same role _ _ t).
Qed.

Lemma withStats_id (m : Client) : withStats (stats m) m = m.
Proof. now destruct m. Qed.

Lemma addConcurrency_there_and_back (d : Z) (m : Stats) :
  in_int32 (Concurrency m) ->
  addConcurrency (- d) (addConcurrency d m) = m.
Proof.
  intros H. unfold addConcurrency. simpl.
  rewrite (int32_add_sub _ _ H). now destruct m.
Qed.

Lemma withStats_withStats (st st' : Stats) (m : Client) :
  withStats st (withStats st' m) = withStats st m.
Proof. reflexivity. Qed.

(** C9.  A flush attempt whose swapped-out batch has no framed record runs
    three primitives: the gauge increment, the swap and the deferred gauge
    decrement.  None of them changes a counter, the lock, the bucket, the
    tokens or the set of goroutines, and together they leave the whole state
    as it was, the gauge included. *)
Theorem maybeWork_empty_batch (s : Sys) (tid : nat) (t : Thread) (k : Prog)
    (b : Bundle) :
  crashed s = false ->
  threads s !! tid = Some t ->
  code t = maybeWork k ->
  is_uint64 (NumberFramed (bMiniStats b)) = true ->
  NumberFramed (bMiniStats b) <= 0 ->
  exists s1 s2 s3,
    step s (Run tid ANone) = Some s1 /\
    step s1 (Run tid (ABundle b)) = Some s2 /\
    step s2 (Run tid ANone) = Some s3 /\
    trace s tid [ANone; ABundle b; ANone] =
      [PAtomicAddInt32 1; PSwapBundle; PAtomicAddInt32 (-1)] /\
    quiet s s1 /\ quiet s s2 /\ quiet s s3 /\
    threads s3 !! tid = Some (goto k t) /\
    (in_int32 (Concurrency (stats (client s))) ->
     s3 = setThread tid (goto k t) s).
Proof.
  intros Hc Ht Hp Hu Hn.
  assert (Hlt := lookup_lt_Some _ _ _ Ht).
  assert (Hle : (NumberFramed (bMiniStats b) <=? 0) = true)
    by now apply Z.leb_le.
  set (m1 := withStats (addConcurrency 1 (stats (client s))) (client s)).
  set (ret := AtomicAddInt32 (-1) k).
  set (m3 := withStats (addConcurrency (-1) (stats m1)) m1).
  assert (H1 : step s (Run tid ANone)
               = Some (focus s tid t m1
                         (SwapBundle (fun b =>
                            if NumberFramed (bMiniStats b) <=? 0 then ret
                            else RecvBucketOrDefault
                                   (WgAdd 1 (Go Worker (syncWorker b) ret))
                                   (statReqDrop (bMiniStats b) (Gosched ret)))))).
  { rewrite (focus_here s tid t Ht) at 1. rewrite Hp.
    rewrite (step_focus _ _ _ _ _ _ Hc Hlt).
    cbn -[focus addConcurrency Z.leb]. now rewrite client_focus, focus_next. }
  assert (H2 : step (focus s tid t m1
                       (SwapBundle (fun b =>
                          if NumberFramed (bMiniStats b) <=? 0 then ret
                          else RecvBucketOrDefault
                                 (WgAdd 1 (Go Worker (syncWorker b) ret))
                                 (statReqDrop (bMiniStats b) (Gosched ret)))))
                 (Run tid (ABundle b))
               = Some (focus s tid t m1 ret)).
  { rewrite (step_focus _ _ _ _ _ _ Hc Hlt).
    cbn -[focus addConcurrency Z.leb is_uint64]. rewrite Hu, Hle.
    now rewrite focus_goto. }
  assert (H3 : step (focus s tid t m1 ret) (Run tid ANone)
               = Some (focus s tid t m3 k)).
  { rewrite (step_focus _ _ _ _ _ _ Hc Hlt).
    cbn -[focus addConcurrency]. now rewrite client_focus, focus_next. }
  eexists _, _, _. split; [exact H1|]. split; [exact H2|]. split; [exact H3|].
  split.
  { unfold trace. rewrite Ht, H1, Hp.
    assert (Hf : forall m p, threads (focus s tid t m p) !! tid
                             = Some (goto p t)).
    { intros m p. unfold focus. simpl. now apply list_lookup_insert_eq. }
    rewrite Hf, H2, Hf, H3. reflexivity. }
  assert (Hq : forall m p,
             (forall fld, getCounter fld (stats m)
                          = getCounter fld (stats (client s))) ->
             statLock m = statLock (client s) ->
             bucket m = bucket (client s) ->
             finalizeDone m = finalizeDone (client s) ->
             quiet s (focus s tid t m p))
    by (intros; now apply quiet_focus).
  split; [apply Hq; try reflexivity;
          intros fld; apply getCounter_addConcurrency|].
  split; [apply Hq; try reflexivity;
          intros fld; apply getCounter_addConcurrency|].
  split; [apply Hq; try reflexivity; intros fld; unfold m3, m1; simpl stats;
          now rewrite !getCounter_addConcurrency|].
  split; [unfold focus; simpl; now apply list_lookup_insert_eq|].
  intros Hg. unfold m3, m1. simpl stats.
  replace (-1) with (- (1)) by reflexivity.
  rewrite (addConcurrency_there_and_back _ _ Hg).
  rewrite withStats_withStats, withStats_id. apply focus_client_id.
Qed.

(** ** C6: buffering a message *)

Lemma own_statReqDrop (P : Prog -> Prop) (ms : MiniStats) (k : Prog) :
  (forall q, prim q <> PReturn -> prim q <> PContinue -> prim q <> PPanic ->
             prim q <> PPost -> P q) ->
  own P k ->
  own P (statReqDrop ms k).
Proof.
  intros HP Hk. unfold statReqDrop, statReqTotalUnsync. simpl.
  repeat (split; [apply HP; discriminate|]). exact Hk.
Qed.

(** A flush attempt is a finite piece of straight-line code of the caller:
    what holds at every local primitive and of the continuation holds of
    the whole attempt. *)
Lemma own_maybeWork (P : Prog -> Prop) (k : Prog) :
  (forall q, prim q <> PReturn -> prim q <> PContinue -> prim q <> PPanic ->
             prim q <> PPost -> P q) ->
  own P k ->
  own P (maybeWork k).
Proof.
  intros HP Hk. unfold maybeWork. simpl.
  split; [apply HP; discriminate|].
  split; [apply HP; discriminate|].
  intros b. destruct (NumberFramed (bMiniStats b) <=? 0).
  - simpl. split; [apply HP; discriminate | exact Hk].
  - simpl. split; [apply HP; discriminate|]. split.
    + split; [apply HP; discriminate|]. split; [apply HP; discriminate|].
      split; [apply HP; discriminate | exact Hk].
    + apply own_statReqDrop; [exact HP|]. simpl.
      split; [apply HP; discriminate|].
      split; [apply HP; discriminate | exact Hk].
Qed.

(** C6.  A call of [BufferMessage] first probes the shutdown signal.  If it
    is closed the call returns the "client already Closed" error at once:
    the mini client is not asked to buffer anything.  Otherwise the record
    is handed to the mini client and, with its answer [ms], the call starts
    a flush attempt exactly when [ms.Buffered >= m.RequestSizeTrigger] or
    the policy is [Immediate]; either way it returns no error, and nowhere
    does the calling goroutine wait for the transport. *)
Theorem BufferMessage_spec (s : Sys) (tid : nat) (t : Thread)
    (msg : LogMessage) :
  crashed s = false ->
  threads s !! tid = Some t ->
  code t = callProg (client s) (CallBufferMessage msg) ->
  (finalize (client s) = true ->
   run s [Run tid ANone] =
     Some (setThread tid (goto (Return (RError (Some errClosed))) t) s) /\
   trace s tid [ANone] = [PRecvFinalizeOrDefault]) /\
  (finalize (client s) = false ->
   forall ms,
     let flush :=
       (Buffered ms >=? RequestSizeTrigger (client s))
       || (timeTrigger (client s) =? TimeTriggerImmediate) in
     let rest :=
       if flush then maybeWork (Return (RError None))
       else Return (RError None) in
     run s [Run tid ANone; Run tid (AMiniStats ms)] =
       Some (setThread tid (goto rest t) s) /\
     trace s tid [ANone; AMiniStats ms] =
       [PRecvFinalizeOrDefault; PMiniBufferMessage] /\
     prim rest = (if flush then PAtomicAddInt32 1 else PReturn) /\
     own (returns (RError None)) rest) /\
  own offNetwork (code t).
Proof.
  intros Hc Ht Hp.
  assert (Hlt := lookup_lt_Some _ _ _ Ht).
  assert (Hf : forall m p, threads (focus s tid t m p) !! tid
                           = Some (goto p t)).
  { intros m p. unfold focus. simpl. now apply list_lookup_insert_eq. }
  split; [|split].
  - intros Hfin. split.
    + rewrite (focus_here s tid t Ht) at 1. rewrite Hp. simpl callProg.
      unfold BufferMessage. solo Hc Hlt. rewrite Hfin.
      simpl. now rewrite focus_client_id.
    + rewrite (focus_here s tid t Ht) at 1. rewrite Hp. simpl callProg.
      unfold BufferMessage. solo_trace Hc Hlt. reflexivity.
  - intros Hfin ms flush rest. split; [|split; [|split]].
    + rewrite (focus_here s tid t Ht) at 1. rewrite Hp. simpl callProg.
      unfold BufferMessage. solo Hc Hlt. rewrite Hfin.
      solo Hc Hlt. simpl. now rewrite focus_client_id.
    + rewrite (focus_here s tid t Ht) at 1. rewrite Hp. simpl callProg.
      unfold BufferMessage. solo_trace Hc Hlt. rewrite Hfin.
      solo_trace Hc Hlt. reflexivity.
    + unfold rest. now destruct flush.
    + unfold rest. destruct flush; [|now simpl].
      apply own_maybeWork; [|now simpl].
      intros q H1 H2 H3 _. destruct q; simpl; try exact I; contradiction.
  - rewrite Hp. simpl callProg. unfold BufferMessage. simpl.
    split; [exact I|]. split; [now simpl|]. split; [exact I|].
    intros ms.
    destruct ((Buffered ms >=? RequestSizeTrigger (client s))
              || (timeTrigger (client s) =? TimeTriggerImmediate));
      [|now simpl].
    apply own_maybeWork; [|now simpl].
    intros q _ _ _ H4. destruct q; simpl; try exact I; contradiction.
Qed.

(** ** The token invariant *)

Lemma tokensHeld_app (ts1 ts2 : list Thread) :
  tokensHeld (ts1 ++ ts2) = tokensHeld ts1 + tokensHeld ts2.
Proof. induction ts1 as [|t ts1 IH]; simpl; lia. Qed.

Lemma tokensHeld_insert (ts : list Thread) (i : nat) (t t' : Thread) :
  ts !! i = Some t ->
  tokensHeld (<[i := t']> ts) = tokensHeld ts - b2z (holds t) + b2z (holds t').
Proof.
  revert i. induction ts as [|x ts IH]; intros i Hi; [discriminate|].
  destruct i as [|i]; simpl in *.
  - injection Hi as ->. lia.
  - rewrite (IH i Hi). lia.
Qed.

Lemma tokensHeld_nonneg (ts : list Thread) : 0 <= tokensHeld ts.
Proof.
  induction ts as [|t ts IH]; simpl; [lia|]. destruct (holds t); simpl; lia.
Qed.

Lemma tokensHeld_lookup (ts : list Thread) (i : nat) (t : Thread) :
  ts !! i = Some t -> b2z (holds t) <= tokensHeld ts.
Proof.
  revert i. induction ts as [|x ts IH]; intros i Hi; [discriminate|].
  destruct i as [|i]; simpl in *.
  - injection Hi as ->. pose proof (tokensHeld_nonneg ts). lia.
  - specialize (IH i Hi). destruct (holds x); simpl; lia.
Qed.

Lemma lookup_insert_cases {A : Type} (l : list A) (i j : nat) (x y : A) :
  <[i := x]> l !! j = Some y ->
  (j = i /\ y = x) \/ (j <> i /\ l !! j = Some y).
Proof.
  intros H. destruct (decide (j = i)) as [->|Hne].
  - left. split; [reflexivity|].
    destruct (decide (i < length l)%nat) as [Hlt|Hge].
    + rewrite list_lookup_insert_eq in H by assumption. now injection H.
    + apply lookup_lt_Some in H. rewrite length_insert in H. lia.
  - right. split; [assumption|]. now rewrite list_lookup_insert_ne in H.
Qed.

(** The code of the supply goroutine has one of three shapes. *)
Lemma supplier_code (n : Z) (s : Sys) (t : Thread) :
  supplierOk n s t ->
  (exists kSent, code t = SendBucketOrFinalize kSent (WgDone (Return RVoid)))
  \/ code t = WgDone (Return RVoid) \/ code t = Return RVoid.
Proof.
  intros [(Hi & fuel & Hfuel & Hcode)|(_ & Hcode & _)].
  - left. destruct (supplyFrom_send fuel n _ (proj2 Hi) Hfuel)
      as (fuel' & _ & _ & Heq).
    rewrite Hcode, Heq. eauto.
  - right. exact Hcode.
Qed.

Lemma tokOk_statReq (r : Role) (h : bool) (o : Outcome) (ms : MiniStats)
    (k : Prog) :
  tokOk r h k -> tokOk r h (statReq o ms k).
Proof. intros H. now destruct o. Qed.

Lemma tokOk_syncWorker (b : Bundle) : tokOk Worker true (syncWorker b).
Proof.
  unfold syncWorker. simpl. intros [err|code].
  - simpl. repeat split.
  - destruct (negb (code =? StatusNoContent)); simpl; repeat split.
Qed.

Lemma tokOk_maybeWork (r : Role) (k : Prog) :
  r = Caller \/ r = TickerTask ->
  tokOk r false k -> tokOk r false (maybeWork k).
Proof.
  intros Hr Hk. unfold maybeWork. simpl. intros b.
  destruct (NumberFramed (bMiniStats b) <=? 0); simpl; [exact Hk|].
  repeat split; try assumption. apply tokOk_syncWorker.
Qed.

Lemma tokOk_callProg (m : Client) (call : ApiCall) :
  tokOk Caller false (callProg m call).
Proof.
  destruct call as [msg| |]; simpl; [|reflexivity|reflexivity].
  split; [reflexivity|]. intros ms.
  destruct ((Buffered ms >=? RequestSizeTrigger m)
            || (timeTrigger m =? TimeTriggerImmediate)); [|reflexivity].
  apply tokOk_maybeWork; [now left | reflexivity].
Qed.

Lemma tokOk_tickerLoop : tokOk TickerTask false tickerLoop.
Proof.
  unfold tickerLoop. simpl. split; [|reflexivity].
  change (tokOk TickerTask false (maybeWork Continue)).
  apply tokOk_maybeWork; [now right | reflexivity].
Qed.

Lemma TokInv_crash (n : Z) (s : Sys) : TokInv n s -> TokInv n (crash s).
Proof. intros []. now constructor. Qed.

Lemma supplierOk_ext (n : Z) (s s' : Sys) (t t' : Thread) :
  inserted s' = inserted s ->
  finalize (client s') = finalize (client s) ->
  holds t' = holds t ->
  code t' = code t ->
  supplierOk n s t -> supplierOk n s' t'.
Proof.
  unfold supplierOk. intros -> -> -> ->. exact id.
Qed.

(** The invariant only looks at the goroutines, the bucket, the shutdown
    signal and the insertion count. *)
Lemma TokInv_ext (n : Z) (s s' : Sys) :
  threads s' = threads s ->
  bucket (client s') = bucket (client s) ->
  finalize (client s') = finalize (client s) ->
  inserted s' = inserted s ->
  TokInv n s -> TokInv n s'.
Proof.
  intros Ht Hb Hf Hi [(t0 & H0 & Hr & Hl & Hs) Ho Hp Hn Hc Hh Hbd Hw].
  constructor; rewrite ?Ht, ?Hb, ?Hf, ?Hi; try assumption.
  exists t0. repeat split; try assumption.
  now apply (supplierOk_ext n s s' t0 t0).
Qed.

(** A goroutine that is not in a send on the bucket moves on to [k], its
    token, if any, kept. *)
Lemma TokInv_goto (n : Z) (s : Sys) (tid : nat) (t : Thread) (k : Prog) :
  TokInv n s ->
  threads s !! tid = Some t ->
  (forall kSent kFinalize, code t <> SendBucketOrFinalize kSent kFinalize) ->
  (tid <> 0%nat -> tokOk (role t) (holds t) k) ->
  (tid = 0%nat -> code t = WgDone (Return RVoid) /\ k = Return RVoid) ->
  TokInv n (setThread tid (goto k t) s).
Proof.
  intros [(t0 & H0 & Hr & Hl & Hs) Ho Hp Hn Hc Hh Hbd Hw] Ht Hns Hk H0k.
  assert (Hlt := lookup_lt_Some _ _ _ Ht).
  constructor; simpl.
  - destruct (decide (tid = 0%nat)) as [->|Hne].
    + rewrite H0 in Ht. injection Ht as <-.
      destruct (H0k eq_refl) as [Hcode ->].
      exists (goto (Return RVoid) t0).
      split; [now apply list_lookup_insert_eq|].
      repeat split; try assumption.
      destruct Hs as [(Hi & fuel & Hfuel & Hcode')|(Hh0 & _ & Hfin)].
      * destruct (supplyFrom_send fuel n _ (proj2 Hi) Hfuel)
          as (fuel' & _ & _ & Heq).
        rewrite Hcode', Heq in Hcode. discriminate.
      * right. simpl. auto.
    + exists t0. rewrite list_lookup_insert_ne by assumption.
      repeat split; try assumption.
  - intros j tj Hj Hj0.
    destruct (lookup_insert_cases _ _ _ _ _ Hj) as [[-> ->]|[Hne Hj']].
    + destruct (Ho _ _ Ht Hj0) as (Hrole & _ & Hloop). simpl. auto.
    + exact (Ho _ _ Hj' Hj0).
  - intros j Hj. destruct (Hp j Hj) as (tj & kS & kF & Hj' & Hhj & Hcj).
    exists tj, kS, kF. repeat split; try assumption.
    rewrite list_lookup_insert_ne; [assumption|].
    intros ->. rewrite Ht in Hj'. injection Hj' as <-. now apply Hns in Hcj.
  - assumption.
  - assumption.
  - rewrite (tokensHeld_insert _ _ _ _ Ht). simpl. lia.
  - assumption.
  - intros (j & tj & Hj & Hrj). apply Hw.
    destruct (lookup_insert_cases _ _ _ _ _ Hj) as [[-> ->]|[Hne Hj']].
    + exists tid, t. auto.
    + exists j, tj. auto.
Qed.

(** The same for a step that also changes the client, but neither its
    bucket nor its shutdown signal. *)
Lemma TokInv_simple (n : Z) (s : Sys) (tid : nat) (t : Thread) (m : Client)
    (k : Prog) :
  TokInv n s ->
  threads s !! tid = Some t ->
  bucket m = bucket (client s) ->
  finalize m = finalize (client s) ->
  (forall kSent kFinalize, code t <> SendBucketOrFinalize kSent kFinalize) ->
  (tid <> 0%nat -> tokOk (role t) (holds t) k) ->
  (tid = 0%nat -> code t = WgDone (Return RVoid) /\ k = Return RVoid) ->
  TokInv n (setThread tid (goto k t) (setClient m s)).
Proof.
  intros Inv Ht Hb Hf Hns Hk H0k.
  apply TokInv_goto; try assumption.
  now apply (TokInv_ext n s).
Qed.

(** A send on the bucket that finds the shutdown signal: the token is
    given up. *)
Lemma TokInv_giveup (n : Z) (s : Sys) (tid : nat) (t : Thread)
    (kSent kFinalize : Prog) :
  TokInv n s ->
  threads s !! tid = Some t ->
  code t = SendBucketOrFinalize kSent kFinalize ->
  finalize (client s) = true ->
  TokInv n (setThread tid (withHolds false (goto kFinalize t)) s).
Proof.
  intros [(t0 & H0 & Hr & Hl & Hs) Ho Hp Hn Hc Hh Hbd Hw] Ht Hcode Hfin.
  assert (Hlt := lookup_lt_Some _ _ _ Ht).
  specialize (Hc Hfin).
  constructor; simpl.
  - destruct (decide (tid = 0%nat)) as [->|Hne].
    + rewrite H0 in Ht. injection Ht as <-.
      exists (withHolds false (goto kFinalize t0)).
      split; [now apply list_lookup_insert_eq|].
      repeat split; try assumption.
      right. simpl. split; [reflexivity|]. split; [|now left].
      destruct (supplier_code _ _ _ Hs) as [[k Hk]|[Hk|Hk]];
        rewrite Hk in Hcode; try discriminate.
      injection Hcode as _ <-. now left.
    + exists t0. rewrite list_lookup_insert_ne by assumption.
      repeat split; try assumption.
  - intros j tj Hj Hj0.
    destruct (lookup_insert_cases _ _ _ _ _ Hj) as [[-> ->]|[Hne Hj']].
    + destruct (Ho _ _ Ht Hj0) as (Hrole & Htok & Hloop). simpl.
      rewrite Hcode in Htok. simpl in Htok.
      destruct Htok as (_ & _ & _ & HkF). auto.
    + exact (Ho _ _ Hj' Hj0).
  - rewrite Hc. intros j Hj. now apply elem_of_nil in Hj.
  - assumption.
  - intros _. assumption.
  - rewrite (tokensHeld_insert _ _ _ _ Ht). simpl.
    destruct (holds t); simpl; lia.
  - assumption.
  - intros (j & tj & Hj & Hrj). apply Hw.
    destruct (lookup_insert_cases _ _ _ _ _ Hj) as [[-> ->]|[Hne Hj']].
    + exists tid, t. auto.
    + exists j, tj. auto.
Qed.

(** A send on the bucket parks; if the goroutine did not own a token, this
    is the insertion of a new one. *)
Lemma TokInv_park (n : Z) (s : Sys) (tid : nat) (t : Thread)
    (kSent kFinalize : Prog) :
  TokInv n s ->
  threads s !! tid = Some t ->
  code t = SendBucketOrFinalize kSent kFinalize ->
  finalize (client s) = false ->
  tid ∉ bucket (client s) ->
  TokInv n (setThread tid (withHolds true t)
              (countInsertion (negb (holds t))
                 (setClient (withBucket (bucket (client s) ++ [tid])
                               (client s)) s))).
Proof.
  intros [(t0 & H0 & Hr & Hl & Hs) Ho Hp Hn Hc Hh Hbd Hw] Ht Hcode Hfin Hnin.
  assert (Hlt := lookup_lt_Some _ _ _ Ht).
  assert (Hfresh : holds t = false -> tid = 0%nat).
  { intros Hh0. destruct (decide (tid = 0%nat)) as [|Hne]; [assumption|].
    destruct (Ho _ _ Ht Hne) as (_ & Htok & _).
    rewrite Hcode in Htok. simpl in Htok. destruct Htok as (_ & Hh1 & _).
    congruence. }
  constructor; simpl.
  - destruct (decide (tid = 0%nat)) as [->|Hne].
    + rewrite H0 in Ht. injection Ht as <-.
      exists (withHolds true t0).
      split; [now apply list_lookup_insert_eq|].
      repeat split; try assumption.
      destruct Hs as [(Hi & fuel & Hfuel & Hcode')|(_ & Hk & _)].
      * left.
        assert (Heq : (if negb (holds t0) then inserted s + 1 else inserted s)
                      - b2z true = inserted s - b2z (holds t0))
          by (destruct (holds t0); simpl; lia).
        cbn [holds code withHolds inserted setThread countInsertion setClient
             threads client crashed].
        rewrite Heq. split; [exact Hi|]. now exists fuel.
      * destruct Hk as [Hk|Hk]; rewrite Hk in Hcode; discriminate.
    + exists t0. rewrite list_lookup_insert_ne by assumption.
      repeat split; try assumption.
      destruct (holds t) eqn:Hht; [|elim Hne; now apply Hfresh].
      apply (supplierOk_ext n s _ t0 t0); try reflexivity. exact Hs.
  - intros j tj Hj Hj0.
    destruct (lookup_insert_cases _ _ _ _ _ Hj) as [[-> ->]|[Hne Hj']].
    + destruct (Ho _ _ Ht Hj0) as (Hrole & Htok & Hloop).
      assert (Hh1 : holds t = true).
      { rewrite Hcode in Htok. simpl in Htok. tauto. }
      rewrite Hh1 in Htok. simpl. auto.
    + exact (Ho _ _ Hj' Hj0).
  - intros j Hj. apply elem_of_app in Hj. destruct Hj as [Hj|Hj].
    + destruct (Hp j Hj) as (tj & kS & kF & Hj' & Hhj & Hcj).
      destruct (decide (j = tid)) as [->|Hne].
      * now elim Hnin.
      * exists tj, kS, kF. now rewrite list_lookup_insert_ne by auto.
    + apply list_elem_of_singleton in Hj. subst j.
      exists (withHolds true t), kSent, kFinalize.
      split; [now apply list_lookup_insert_eq|]. auto.
  - apply NoDup_app. split; [assumption|]. split.
    + intros x Hx Hx'. apply list_elem_of_singleton in Hx'. now subst x.
    + apply NoDup_singleton.
  - congruence.
  - rewrite (tokensHeld_insert _ _ _ _ Ht). simpl.
    destruct (holds t); simpl; lia.
  - destruct (holds t) eqn:Hht; simpl; [assumption|].
    specialize (Hfresh eq_refl). subst tid.
    rewrite H0 in Ht. injection Ht as <-.
    destruct Hs as [(Hi & _)|(_ & Hk & _)].
    + rewrite Hht in Hi. simpl in Hi. lia.
    + destruct Hk as [Hk|Hk]; rewrite Hk in Hcode; discriminate.
  - intros (j & tj & Hj & Hrj).
    assert (0 < inserted s).
    { apply Hw.
      destruct (lookup_insert_cases _ _ _ _ _ Hj) as [[-> ->]|[Hne Hj']].
      - exists tid, t. auto.
      - exists j, tj. auto. }
    destruct (negb (holds t)); lia.
Qed.

(** The dispatcher receives from the longest-parked sender: the token
    changes hands. *)
Lemma TokInv_rendezvous (n : Z) (s : Sys) (tid sender : nat) (t ts : Thread)
    (rest : list nat) (kRecv kDefault kSent kFinalize : Prog) :
  TokInv n s ->
  threads s !! tid = Some t ->
  code t = RecvBucketOrDefault kRecv kDefault ->
  bucket (client s) = sender :: rest ->
  threads s !! sender = Some ts ->
  code ts = SendBucketOrFinalize kSent kFinalize ->
  TokInv n (setThread tid (withHolds true (goto kRecv t))
              (setThread sender (withHolds false (goto kSent ts))
                 (setClient (withBucket rest (client s)) s))).
Proof.
  intros [(t0 & H0 & Hr & Hl & Hs) Ho Hp Hn Hc Hh Hbd Hw]
         Ht Hcode Hb Hts Hcs.
  assert (Hlt := lookup_lt_Some _ _ _ Ht).
  assert (Hlts := lookup_lt_Some _ _ _ Hts).
  assert (Hne : tid <> sender).
  { intros ->. rewrite Ht in Hts. injection Hts as ->. congruence. }
  assert (Ht0 : tid <> 0%nat).
  { intros ->. rewrite H0 in Ht. injection Ht as ->.
    destruct (supplier_code _ _ _ Hs) as [[k Hk]|[Hk|Hk]]; congruence. }
  destruct (Ho _ _ Ht Ht0) as (Hrole & Htok & Hloop).
  rewrite Hcode in Htok. simpl in Htok.
  destruct Htok as (Hdisp & Hht & HkR & HkD).
  assert (Hhs : holds ts = true).
  { destruct (Hp sender) as (ts' & ? & ? & Hts' & Hhs' & _).
    - rewrite Hb. now left.
    - congruence. }
  rewrite Hb in Hn. apply NoDup_cons in Hn. destruct Hn as [Hnin Hnd].
  constructor; simpl.
  - destruct (decide (sender = 0%nat)) as [->|Hs0].
    + rewrite H0 in Hts. injection Hts as <-.
      exists (withHolds false (goto kSent t0)).
      split.
      { rewrite list_lookup_insert_ne by auto.
        now apply list_lookup_insert_eq. }
      repeat split; try assumption.
      destruct Hs as [(Hi & fuel & Hfuel & Hcode')|(Hh0 & _)]; [|congruence].
      rewrite Hhs in Hi, Hfuel, Hcode'. simpl in Hi, Hfuel, Hcode'.
      destruct (supplyFrom_send fuel n _ (proj2 Hi) Hfuel)
        as (fuel' & _ & Hfuel' & Heq).
      rewrite Hcode', Heq in Hcs. injection Hcs as <- <-.
      replace (inserted s - 1 + 1) with (inserted s) in * by lia.
      destruct (Z.lt_ge_cases (inserted s) n) as [Hlt'|Hge].
      * left. simpl. rewrite Z.sub_0_r. split; [lia|]. now exists fuel'.
      * right. simpl. split; [reflexivity|].
        split; [left; now apply supplyFrom_exit | right; lia].
    + exists t0. rewrite !list_lookup_insert_ne by auto.
      repeat split; try assumption.
  - intros j tj Hj Hj0.
    destruct (lookup_insert_cases _ _ _ _ _ Hj) as [[-> ->]|[Hnej Hj']].
    + simpl. auto.
    + destruct (lookup_insert_cases _ _ _ _ _ Hj') as [[-> ->]|[Hnej' Hj'']].
      * destruct (Ho _ _ Hts Hj0) as (Hrs & Htoks & Hloops).
        rewrite Hcs in Htoks. simpl in Htoks. simpl. tauto.
      * exact (Ho _ _ Hj'' Hj0).
  - intros j Hj. destruct (Hp j) as (tj & kS & kF & Hj' & Hhj & Hcj).
    { rewrite Hb. now right. }
    exists tj, kS, kF. repeat split; try assumption.
    rewrite !list_lookup_insert_ne; [assumption| |].
    + intros ->. contradiction.
    + intros ->. rewrite Ht in Hj'. injection Hj' as <-. congruence.
  - assumption.
  - intros Hfin. specialize (Hc Hfin). congruence.
  - rewrite (tokensHeld_insert _ _ t _);
      [|rewrite list_lookup_insert_ne by auto; exact Ht].
    rewrite (tokensHeld_insert _ _ _ _ Hts). simpl.
    rewrite Hhs, Hht. simpl. lia.
  - assumption.
  - intros (j & tj & Hj & Hrj). apply Hw.
    destruct (lookup_insert_cases _ _ _ _ _ Hj) as [[-> ->]|[Hnej Hj']].
    + exists tid, t. auto.
    + destruct (lookup_insert_cases _ _ _ _ _ Hj') as [[-> ->]|[Hnej' Hj'']].
      * exists sender, ts. auto.
      * exists j, tj. auto.
Qed.

(** [go m.syncWorker(&b)]: the token goes with the worker. *)
Lemma TokInv_go (n : Z) (s : Sys) (tid : nat) (t : Thread) (r : Role)
    (p k : Prog) :
  TokInv n s ->
  threads s !! tid = Some t ->
  code t = Go r p k ->
  TokInv n (spawn (mkThread r p None (holds t))
              (setThread tid (withHolds false (goto k t)) s)).
Proof.
  intros [(t0 & H0 & Hr & Hl & Hs) Ho Hp Hn Hc Hh Hbd Hw] Ht Hcode.
  assert (Hlt := lookup_lt_Some _ _ _ Ht).
  assert (Ht0 : tid <> 0%nat).
  { intros ->. rewrite H0 in Ht. injection Ht as ->.
    destruct (supplier_code _ _ _ Hs) as [[k' Hk]|[Hk|Hk]]; congruence. }
  destruct (Ho _ _ Ht Ht0) as (Hrole & Htok & Hloop).
  rewrite Hcode in Htok. simpl in Htok.
  destruct Htok as (-> & Hht & Hp' & Hk').
  assert (Hlen : length (<[tid := withHolds false (goto k t)]> (threads s))
                 = length (threads s)) by apply length_insert.
  constructor; simpl.
  - exists t0. split.
    + rewrite lookup_app_l by (rewrite Hlen; lia).
      now rewrite list_lookup_insert_ne by auto.
    + repeat split; try assumption.
  - intros j tj Hj Hj0.
    apply lookup_app_Some in Hj. destruct Hj as [Hj|[Hge Hj]].
    + destruct (lookup_insert_cases _ _ _ _ _ Hj) as [[-> ->]|[Hnej Hj']].
      * simpl. auto.
      * exact (Ho _ _ Hj' Hj0).
    + destruct (j - _)%nat; [|discriminate].
      injection Hj as <-. simpl. rewrite Hht.
      repeat split; try assumption; discriminate.
  - intros j Hj. destruct (Hp j Hj) as (tj & kS & kF & Hj' & Hhj & Hcj).
    exists tj, kS, kF. repeat split; try assumption.
    rewrite lookup_app_l
      by (rewrite Hlen; now apply lookup_lt_Some in Hj').
    rewrite list_lookup_insert_ne; [assumption|].
    intros ->. rewrite Ht in Hj'. injection Hj' as <-. congruence.
  - assumption.
  - assumption.
  - rewrite tokensHeld_app, (tokensHeld_insert _ _ _ _ Ht). simpl. lia.
  - assumption.
  - intros _. pose proof (tokensHeld_lookup _ _ _ Ht) as Hle.
    rewrite Hht in Hle. simpl in Hle. lia.
Qed.

(** [close(m.finalize)]: every parked send is released. *)
Lemma TokInv_close (n : Z) (s : Sys) :
  TokInv n s ->
  TokInv n (setClient (withBucket [] (withFinalize true (client s))) s).
Proof.
  intros [(t0 & H0 & Hr & Hl & Hs) Ho Hp Hn Hc Hh Hbd Hw].
  constructor; simpl; try assumption.
  - exists t0. repeat split; try assumption.
    destruct Hs as [Hs|(? & ? & ?)]; [now left | right; auto].
  - intros j Hj. now apply elem_of_nil in Hj.
  - apply NoDup_nil_2.
  - reflexivity.
Qed.

(** A new application goroutine enters a public method. *)
Lemma TokInv_invoke (n : Z) (s : Sys) (call : ApiCall) :
  TokInv n s ->
  TokInv n (spawn (mkThread Caller (callProg (client s) call) None false) s).
Proof.
  intros [(t0 & H0 & Hr & Hl & Hs) Ho Hp Hn Hc Hh Hbd Hw].
  assert (Hlt := lookup_lt_Some _ _ _ H0).
  constructor; simpl; try assumption.
  - exists t0. rewrite lookup_app_l by assumption.
    repeat split; try assumption.
  - intros j tj Hj Hj0.
    apply lookup_app_Some in Hj. destruct Hj as [Hj|[Hge Hj]].
    + exact (Ho _ _ Hj Hj0).
    + destruct (j - _)%nat; [|discriminate].
      injection Hj as <-. simpl.
      split; [discriminate|]. split; [apply tokOk_callProg | discriminate].
  - intros j Hj. destruct (Hp j Hj) as (tj & kS & kF & Hj' & Hhj & Hcj).
    exists tj, kS, kF. repeat split; try assumption.
    now apply lookup_app_l_Some.
  - rewrite tokensHeld_app. simpl. lia.
  - intros (j & tj & Hj & Hrj). apply Hw.
    apply lookup_app_Some in Hj. destruct Hj as [Hj|[Hge Hj]].
    + exists j, tj. auto.
    + destruct (j - _)%nat; [|discriminate].
      injection Hj as <-. discriminate.
Qed.

(** Discharge the side conditions of [TokInv_simple] from the shape of the
    code that was run. *)
Ltac tok_simple Inv Ht Hcode Hsup Htok :=
  apply (TokInv_simple _ _ _ _ _ _ Inv Ht);
  [ reflexivity
  | reflexivity
  | intros ? ?; rewrite Hcode; discriminate
  | intros Hne; specialize (Htok Hne); try rewrite Hcode in Htok;
    simpl in Htok;
    first [ exact Htok | apply Htok | tauto
          | destruct Htok as (_ & Hh & _ & HkD); rewrite Hh; exact HkD ]
  | intros He; specialize (Hsup He); try rewrite Hcode in Hsup;
    destruct Hsup as [[? Hk]|[Hk|Hk]]; try discriminate;
    injection Hk as ->; split; first [assumption | reflexivity] ].

Lemma TokInv_runThread (n : Z) (s s' : Sys) (tid : nat) (t : Thread)
    (a : Answer) :
  TokInv n s ->
  threads s !! tid = Some t ->
  runThread s tid t a = Some s' ->
  TokInv n s'.
Proof.
  intros Inv Ht Hrun.
  assert (Hsup : tid = 0%nat ->
            (exists k, code t = SendBucketOrFinalize k (WgDone (Return RVoid)))
            \/ code t = WgDone (Return RVoid) \/ code t = Return RVoid).
  { intros ->. destruct (tok_supplier _ _ Inv) as (t0 & H0 & _ & _ & Hs).
    rewrite H0 in Ht. injection Ht as <-. exact (supplier_code _ _ _ Hs). }
  assert (Hloop0 : tid = 0%nat -> loop t = None).
  { intros ->. destruct (tok_supplier _ _ Inv) as (t0 & H0 & _ & Hl & _).
    rewrite H0 in Ht. now injection Ht as <-. }
  assert (Htok : tid <> 0%nat -> tokOk (role t) (holds t) (code t)).
  { intros Hne. now destruct (tok_others _ _ Inv _ _ Ht Hne) as (_ & ? & _). }
  unfold runThread in Hrun.
  destruct (code t) as
    [ r | | why | delta k | k | msg k | b k | k | kRecv kDefault
    | kSent kFinalize | kClosed kDefault | kTick kFinalize | z k | k | k
    | r p k | k | k | fld z k | k | k | k | k ] eqn:Hcode.
  - discriminate.
  - (* Continue *)
    destruct (loop t) as [body|] eqn:Hloop; [|discriminate].
    injection Hrun as <-.
    apply TokInv_goto; try assumption.
    + intros ? ?. rewrite Hcode. discriminate.
    + intros Hne. destruct (tok_others _ _ Inv _ _ Ht Hne) as (_ & Hc & Hb).
      rewrite Hcode in Hc. simpl in Hc. rewrite Hc. now apply Hb.
    + intros He. specialize (Hloop0 He). congruence.
  - injection Hrun as <-. now apply TokInv_crash.
  - injection Hrun as <-. tok_simple Inv Ht Hcode Hsup Htok.
  - destruct a; try discriminate.
    destruct (is_uint64 _); [|discriminate].
    injection Hrun as <-.
    rewrite <- (focus_client_id s). unfold focus.
    tok_simple Inv Ht Hcode Hsup Htok.
  - destruct a; try discriminate. injection Hrun as <-.
    rewrite <- (focus_client_id s). unfold focus.
    tok_simple Inv Ht Hcode Hsup Htok.
  - destruct a; try discriminate. injection Hrun as <-.
    rewrite <- (focus_client_id s). unfold focus.
    tok_simple Inv Ht Hcode Hsup Htok.
  - injection Hrun as <-.
    rewrite <- (focus_client_id s). unfold focus.
    tok_simple Inv Ht Hcode Hsup Htok.
  - (* RecvBucketOrDefault *)
    destruct (bucket (client s)) as [|sender rest] eqn:Hb.
    + injection Hrun as <-.
      rewrite <- (focus_client_id s). unfold focus.
      tok_simple Inv Ht Hcode Hsup Htok.
    + destruct (threads s !! sender) as [ts|] eqn:Hts; [|discriminate].
      destruct (code ts) eqn:Hcs; try discriminate.
      injection Hrun as <-.
      eapply TokInv_rendezvous; eassumption.
  - (* SendBucketOrFinalize *)
    destruct (finalize (client s)) eqn:Hfin.
    + injection Hrun as <-. eapply TokInv_giveup; eassumption.
    + destruct (bool_decide (tid ∈ bucket (client s))) eqn:Hin;
        [discriminate|].
      injection Hrun as <-.
      apply bool_decide_eq_false in Hin.
      eapply TokInv_park; eassumption.
  - injection Hrun as <-.
    rewrite <- (focus_client_id s). unfold focus.
    destruct (finalize (client s));
      tok_simple Inv Ht Hcode Hsup Htok.
  - (* RecvTickOrFinalize *)
    assert (Htick : forall tk,
              TokInv n (setThread tid (goto kTick t)
                          (setClient (withTicker tk (client s)) s))).
    { intros tk. tok_simple Inv Ht Hcode Hsup Htok. }
    assert (Hfinal : TokInv n (setThread tid (goto kFinalize t) s)).
    { rewrite <- (focus_client_id s). unfold focus.
      tok_simple Inv Ht Hcode Hsup Htok. }
    destruct (ticker (client s)) as [tk|];
      [destruct (tickPending tk)|]; destruct (finalize (client s));
      try discriminate;
      try (destruct a as [| | | |[|]]; try discriminate);
      injection Hrun as <-; first [apply Htick | apply Hfinal].
  - destruct (_ <? 0); injection Hrun as <-;
      [now apply TokInv_crash | tok_simple Inv Ht Hcode Hsup Htok].
  - destruct (_ <? 0); injection Hrun as <-;
      [now apply TokInv_crash | tok_simple Inv Ht Hcode Hsup Htok].
  - destruct (_ =? 0); [|discriminate]. injection Hrun as <-.
    rewrite <- (focus_client_id s). unfold focus.
    tok_simple Inv Ht Hcode Hsup Htok.
  - injection Hrun as <-. eapply TokInv_go; eassumption.
  - destruct (statLock (client s)); [discriminate|]. injection Hrun as <-.
    tok_simple Inv Ht Hcode Hsup Htok.
  - destruct (statLock (client s)); injection Hrun as <-;
      [tok_simple Inv Ht Hcode Hsup Htok | now apply TokInv_crash].
  - injection Hrun as <-. tok_simple Inv Ht Hcode Hsup Htok.
  - injection Hrun as <-.
    rewrite <- (focus_client_id s). unfold focus.
    tok_simple Inv Ht Hcode Hsup Htok.
  - injection Hrun as <-.
    rewrite <- (focus_client_id s). unfold focus.
    tok_simple Inv Ht Hcode Hsup Htok.
  - destruct (ticker (client s)) as [tk|]; injection Hrun as <-;
      [tok_simple Inv Ht Hcode Hsup Htok | now apply TokInv_crash].
  - (* CloseFinalize *)
    destruct (finalize (client s)) eqn:Hfin; injection Hrun as <-;
      [now apply TokInv_crash|].
    apply TokInv_goto.
    + now apply TokInv_close.
    + exact Ht.
    + intros ? ?. rewrite Hcode. discriminate.
    + intros Hne. exact (Htok Hne).
    + intros He. specialize (Hsup He).
      destruct Hsup as [[? Hk]|[Hk|Hk]]; discriminate.
Qed.

Lemma TokInv_step (n : Z) (s s' : Sys) (l : Label) :
  TokInv n s -> step s l = Some s' -> TokInv n s'.
Proof.
  intros Inv Hstep. unfold step in Hstep.
  destruct (crashed s); [discriminate|].
  destruct l as [call| |tid a].
  - injection Hstep as <-. now apply TokInv_invoke.
  - destruct (ticker (client s)) as [tk|]; [|discriminate].
    destruct (tickStopped tk); [discriminate|]. injection Hstep as <-.
    now apply (TokInv_ext n s).
  - destruct (threads s !! tid) as [t|] eqn:Ht; [|discriminate].
    eapply TokInv_runThread; eassumption.
Qed.

Lemma TokInv_run (n : Z) (ls : list Label) (s s' : Sys) :
  TokInv n s -> run s ls = Some s' -> TokInv n s'.
Proof.
  revert s. induction ls as [|l ls IH]; intros s Inv Hrun; simpl in Hrun.
  - now injection Hrun as <-.
  - destruct (step s l) as [s1|] eqn:Hstep; [|discriminate].
    apply (IH s1); [|assumption]. eapply TokInv_step; eassumption.
Qed.

(** ** The system after construction *)

Section Boot.

Variable NewMiniClient : MiniConfig -> MiniClient + string.

(** What [NewClient] has built when it succeeds: the supply goroutine and,
    for a positive period under the periodic behaviour only, a ticker and
    its goroutine. *)
Lemma boot_shape (cfg : Config) (s0 : Sys) :
  boot NewMiniClient cfg = Some s0 ->
  exists m rest,
    s0 = mkSys m
           (mkThread Supplier (tokenSupplier (Config.Concurrency cfg))
              None false :: rest) false 0 /\
    stats m = zeroStats /\ statLock m = false /\ bucket m = [] /\
    finalize m = false /\
    RequestSizeTrigger m = Config.RequestSizeTrigger cfg /\
    ((rest = [] /\ ticker m = None /\ finalizeDone m = 1 /\
      timeTrigger m <> TimeTriggerPeriodic /\
      (Config.TimeTrigger cfg = TimeTriggerPeriodic /\ Config.Period cfg = 0 /\
       timeTrigger m = TimeTriggerImmediate
       \/ Config.TimeTrigger cfg <> TimeTriggerPeriodic /\
          timeTrigger m = Config.TimeTrigger cfg))
     \/
     (rest = [mkThread TickerTask tickerLoop (Some tickerLoop) false] /\
      ticker m = Some (mkTicker (Config.Period cfg) false false) /\
      finalizeDone m = 2 /\
      timeTrigger m = TimeTriggerPeriodic /\
      Config.TimeTrigger cfg = TimeTriggerPeriodic /\ 0 < Config.Period cfg)).
Proof.
  unfold boot. intros Hboot.
  destruct (NewMiniClient (miniConfigOf cfg)) as [c|err] eqn:Hc.
  - destruct (Z.eq_dec (Config.TimeTrigger cfg) TimeTriggerPeriodic)
      as [Htt|Htt].
    + destruct (Z.lt_trichotomy (Config.Period cfg) 0) as [H|[H|H]].
      * destruct (NewClient_negative_periodic NewMiniClient cfg [] Htt H)
          as [err Herr].
        rewrite Herr in Hboot. discriminate.
      * rewrite (NewClient_zero_periodic _ _ _ _ Hc Htt H) in Hboot.
        injection Hboot as <-. eexists _, _. split; [reflexivity|].
        repeat split. left. repeat split; try discriminate. left. auto.
      * rewrite (NewClient_positive_periodic _ _ _ _ Hc Htt H) in Hboot.
        injection Hboot as <-. eexists _, _. split; [reflexivity|].
        repeat split. right. repeat split; assumption.
    + rewrite (NewClient_not_periodic _ _ _ _ Hc Htt) in Hboot.
      injection Hboot as <-. eexists _, _. split; [reflexivity|].
      repeat split. left. repeat split; try assumption. right. auto.
  - unfold NewClient in Hboot. unfold miniConfigOf in Hc.
    rewrite Hc in Hboot. discriminate.
Qed.

Lemma TokInv_boot (cfg : Config) (s0 : Sys) :
  boot NewMiniClient cfg = Some s0 -> TokInv (Config.Concurrency cfg) s0.
Proof.
  intros Hboot.
  destruct (boot_shape _ _ Hboot)
    as (m & rest & -> & _ & _ & Hb & Hf & _ & Hrest).
  set (n := Config.Concurrency cfg).
  constructor; simpl.
  - eexists. split; [reflexivity|]. repeat split.
    unfold supplierOk. simpl.
    destruct (Z.lt_ge_cases 0 n) as [Hpos|Hnp].
    + left. split; [lia|]. exists (Z.to_nat n). split; [lia|reflexivity].
    + right. split; [reflexivity|]. split; [|right; lia].
      left. now apply supplyFrom_exit.
  - intros j tj Hj Hj0. destruct j as [|j]; [contradiction|].
    simpl in Hj.
    destruct Hrest as [(-> & _)|(-> & _)]; [discriminate|].
    destruct j; [|discriminate]. injection Hj as <-. simpl.
    split; [discriminate|]. split; [apply tokOk_tickerLoop|].
    intros body Hbody. injection Hbody as <-. apply tokOk_tickerLoop.
  - rewrite Hb. intros j Hj. now apply elem_of_nil in Hj.
  - rewrite Hb. apply NoDup_nil_2.
  - congruence.
  - destruct Hrest as [(-> & _)|(-> & _)]; simpl; lia.
  - lia.
  - intros (j & tj & Hj & Hrj).
    destruct j as [|j]; simpl in Hj; [injection Hj as <-; discriminate|].
    destruct Hrest as [(-> & _)|(-> & _)]; [discriminate|].
    destruct j; [|discriminate]. injection Hj as <-. discriminate.
Qed.

Lemma TokInv_reachable (cfg : Config) (s : Sys) :
  reachable NewMiniClient cfg s -> TokInv (Config.Concurrency cfg) s.
Proof.
  intros (s0 & ls & Hboot & Hrun).
  eapply TokInv_run; [|eassumption]. now apply TokInv_boot.
Qed.

End Boot.

(** ** Flush attempts that find the bucket empty *)

Lemma getCounter_account_gauge (o : Outcome) (n d : Z) (m : Stats)
    (fld : Counter) :
  getCounter fld (account o n (addConcurrency d m)) =
  getCounter fld (account o n m).
Proof. destruct o, fld; reflexivity. Qed.

Lemma trace_app (s : Sys) (tid : nat) (as1 as2 : list Answer) (s' : Sys) :
  run s (map (Run tid) as1) = Some s' ->
  length (trace s tid as1) = length as1 ->
  trace s tid (as1 ++ as2) = trace s tid as1 ++ trace s' tid as2.
Proof.
  revert s. induction as1 as [|a as1 IH]; intros s Hrun Hlen; simpl in *.
  - now injection Hrun as <-.
  - destruct (threads s !! tid) as [t|]; [|discriminate].
    destruct (step s (Run tid a)) as [s1|]; [|discriminate].
    simpl in *. f_equal. apply IH; [assumption | lia].
Qed.

Lemma run_map_app (s : Sys) (tid : nat) (as1 as2 : list Answer) :
  run s (map (Run tid) (as1 ++ as2)) =
  match run s (map (Run tid) as1) with
  | Some s' => run s' (map (Run tid) as2)
  | None => None
  end.
Proof. rewrite map_app. apply run_app. Qed.

Lemma trace_statReq (s : Sys) (tid : nat) (t : Thread) (m : Client)
    (o : Outcome) (ms : MiniStats) (k : Prog) :
  crashed s = false ->
  (tid < length (threads s))%nat ->
  statLock m = false ->
  trace (focus s tid t m (statReq o ms k)) tid
        [ANone; ANone; ANone; ANone; ANone; ANone] =
  [PLock; PAddUint64 CTotal (NumberFramed ms); PAddUint64 CTotalRequests 1;
   PAddUint64 (msgCounter o) (NumberFramed ms); PAddUint64 (reqCounter o) 1;
   PUnlock].
Proof.
  intros Hc Hlt Hl. rewrite statReq_unfold.
  solo_trace Hc Hlt. rewrite Hl. rewrite ?client_focus, ?focus_next.
  do 5 solo_trace Hc Hlt. reflexivity.
Qed.

(** From the entry of [maybeWork], with a batch that is not empty, an empty
    bucket and the lock free: the attempt runs its eleven primitives without
    waiting and ends with the batch accounted as dropped. *)
Lemma run_maybeWork_drop (s : Sys) (tid : nat) (t : Thread) (k : Prog)
    (b : Bundle) :
  crashed s = false ->
  threads s !! tid = Some t ->
  code t = maybeWork k ->
  is_uint64 (NumberFramed (bMiniStats b)) = true ->
  0 < NumberFramed (bMiniStats b) ->
  bucket (client s) = [] ->
  statLock (client s) = false ->
  run s (map (Run tid) (dropAnswers b)) =
    Some (focus s tid t (afterDrop (NumberFramed (bMiniStats b)) (client s)) k)
  /\
  trace s tid (dropAnswers b) = dropTrace (NumberFramed (bMiniStats b)).
Proof.
  intros Hc Ht Hp Hu Hn Hb Hl.
  assert (Hlt := lookup_lt_Some _ _ _ Ht).
  assert (Hle : (NumberFramed (bMiniStats b) <=? 0) = false)
    by now apply Z.leb_gt.
  set (ret := AtomicAddInt32 (-1) k).
  set (m1 := withStats (addConcurrency 1 (stats (client s))) (client s)).
  assert (H1 : run s (map (Run tid) [ANone; ABundle b; ANone]) =
               Some (focus s tid t m1
                       (statReq OutDropped (bMiniStats b) (Gosched ret)))).
  { rewrite (focus_here s tid t Ht) at 1. rewrite Hp. unfold maybeWork.
    simpl map. solo Hc Hlt. solo Hc Hlt. rewrite Hu, Hle.
    rewrite ?focus_goto. solo Hc Hlt. cbn [bucket withStats]. rewrite Hb.
    reflexivity. }
  assert (T1 : trace s tid [ANone; ABundle b; ANone] =
               [PAtomicAddInt32 1; PSwapBundle; PRecvBucketOrDefault]).
  { rewrite (focus_here s tid t Ht) at 1. rewrite Hp. unfold maybeWork.
    solo_trace Hc Hlt. solo_trace Hc Hlt. rewrite Hu, Hle.
    rewrite ?focus_goto. solo_trace Hc Hlt. cbn [bucket withStats].
    rewrite Hb. reflexivity. }
  assert (Hl1 : statLock m1 = false) by exact Hl.
  assert (H2 := run_statReq s tid t m1 OutDropped (bMiniStats b) (Gosched ret)
                  Hc Hlt Hl1).
  assert (T2 := trace_statReq s tid t m1 OutDropped (bMiniStats b)
                  (Gosched ret) Hc Hlt Hl1).
  set (m2 := withStats (account OutDropped (NumberFramed (bMiniStats b))
                          (stats m1)) m1) in *.
  assert (H3 : run (focus s tid t m2 (Gosched ret))
                 (map (Run tid) [ANone; ANone]) =
               Some (focus s tid t
                       (afterDrop (NumberFramed (bMiniStats b)) (client s)) k)).
  { simpl map. solo Hc Hlt. solo Hc Hlt. reflexivity. }
  assert (T3 : trace (focus s tid t m2 (Gosched ret)) tid [ANone; ANone] =
               [PGosched; PAtomicAddInt32 (-1)]).
  { solo_trace Hc Hlt. solo_trace Hc Hlt. reflexivity. }
  unfold dropAnswers. split.
  - rewrite run_map_app, H1, run_map_app, H2. exact H3.
  - rewrite (trace_app _ _ _ _ _ H1) by now rewrite T1.
    rewrite (trace_app _ _ _ _ _ H2) by now rewrite T2.
    rewrite T1, T2, T3. reflexivity.
Qed.

(** ** C1, C5, C10: the admission tokens *)

(** The probe of the bucket never waits: it is served by a parked sender
    or falls through to [default]. *)
Lemma probe_never_blocks (n : Z) (s : Sys) (tid : nat) (t : Thread)
    (kRecv kDefault : Prog) (a : Answer) :
  TokInv n s ->
  crashed s = false ->
  threads s !! tid = Some t ->
  code t = RecvBucketOrDefault kRecv kDefault ->
  exists s',
    step s (Run tid a) = Some s' /\
    (bucket (client s) = [] -> s' = setThread tid (goto kDefault t) s).
Proof.
  intros Inv Hc Ht Hcode. rewrite (step_run _ _ _ _ Hc Ht).
  unfold runThread. rewrite Hcode.
  destruct (bucket (client s)) as [|sender rest] eqn:Hb.
  - eexists. split; [reflexivity|]. reflexivity.
  - destruct (tok_parked _ _ Inv sender) as (ts & kS & kF & Hts & _ & Hcs).
    { rewrite Hb. now left. }
    rewrite Hts, Hcs. eexists. split; [reflexivity|]. discriminate.
Qed.

(** How one primitive changes the bucket: not at all, or a send parks at
    its end, or the probe takes its head, or the shutdown empties it. *)
Lemma runThread_bucket (s s' : Sys) (tid : nat) (t : Thread) (a : Answer) :
  runThread s tid t a = Some s' ->
  bucket (client s') = bucket (client s)
  \/ (prim (code t) = PSendBucketOrFinalize /\
      bucket (client s') = bucket (client s) ++ [tid])
  \/ (prim (code t) = PRecvBucketOrDefault /\
      exists sender, bucket (client s) = sender :: bucket (client s'))
  \/ (prim (code t) = PCloseFinalize /\
      finalize (client s') = true /\ bucket (client s') = []).
Proof.
  unfold runThread. intros Hrun.
  destruct (code t) eqn:Hcode; simpl;
    try (injection Hrun as <-; now left);
    try discriminate.
  - destruct (loop t); [|discriminate]. injection Hrun as <-. now left.
  - destruct a; try discriminate. destruct (is_uint64 _); [|discriminate].
    injection Hrun as <-. now left.
  - destruct a; try discriminate. injection Hrun as <-. now left.
  - destruct a; try discriminate. injection Hrun as <-. now left.
  - destruct (bucket (client s)) as [|sender rest] eqn:Hb.
    + injection Hrun as <-. left. exact Hb.
    + destruct (threads s !! sender) as [ts|]; [|discriminate].
      destruct (code ts); try discriminate.
      injection Hrun as <-. right. right. left.
      split; [reflexivity|]. now exists sender.
  - destruct (finalize (client s)).
    + injection Hrun as <-. now left.
    + destruct (bool_decide _); [discriminate|].
      injection Hrun as <-. right. left. split; reflexivity.
  - destruct (ticker (client s)) as [tk|];
      [destruct (tickPending tk)|]; destruct (finalize (client s));
      try discriminate;
      try (destruct a as [| | | |[|]]; try discriminate);
      injection Hrun as <-; now left.
  - destruct (_ <? 0); injection Hrun as <-; now left.
  - destruct (_ <? 0); injection Hrun as <-; now left.
  - destruct (_ =? 0); [|discriminate]. injection Hrun as <-. now left.
  - destruct (statLock (client s)); [discriminate|].
    injection Hrun as <-. now left.
  - destruct (statLock (client s)); injection Hrun as <-; now left.
  - destruct (ticker (client s)); injection Hrun as <-; now left.
  - destruct (finalize (client s)); injection Hrun as <-; [now left|].
    right. right. right. repeat split.
Qed.

(** Who may send on the bucket and who may probe it. *)
Lemma sender_role (n : Z) (s : Sys) (tid : nat) (t : Thread) :
  TokInv n s ->
  threads s !! tid = Some t ->
  prim (code t) = PSendBucketOrFinalize ->
  role t = Supplier \/ role t = Worker.
Proof.
  intros Inv Ht Hprim. destruct (decide (tid = 0%nat)) as [->|Hne].
  - destruct (tok_supplier _ _ Inv) as (t0 & H0 & Hr & _).
    rewrite H0 in Ht. injection Ht as <-. now left.
  - destruct (tok_others _ _ Inv _ _ Ht Hne) as (_ & Htok & _).
    destruct (code t); try discriminate. simpl in Htok. right. tauto.
Qed.

Lemma prober_role (n : Z) (s : Sys) (tid : nat) (t : Thread) :
  TokInv n s ->
  threads s !! tid = Some t ->
  prim (code t) = PRecvBucketOrDefault ->
  role t = Caller \/ role t = TickerTask.
Proof.
  intros Inv Ht Hprim. destruct (decide (tid = 0%nat)) as [->|Hne].
  - destruct (tok_supplier _ _ Inv) as (t0 & H0 & _ & _ & Hs).
    rewrite H0 in Ht. injection Ht as <-.
    destruct (supplier_code _ _ _ Hs) as [[k Hk]|[Hk|Hk]];
      rewrite Hk in Hprim; discriminate.
  - destruct (tok_others _ _ Inv _ _ Ht Hne) as (_ & Htok & _).
    destruct (code t); try discriminate. simpl in Htok. tauto.
Qed.

Section Tokens.

Variable NewMiniClient : MiniConfig -> MiniClient + string.

(** Whatever the configured capacity, the tokens in circulation are at most
    the insertions, and those at most the capacity, or none if it is
    negative. *)
Lemma tokens_le_inserted (cfg : Config) (s : Sys) :
  reachable NewMiniClient cfg s ->
  0 <= inCirculation s <= inserted s /\
  inserted s <= Z.max 0 (Config.Concurrency cfg).
Proof.
  intros Hreach. pose proof (TokInv_reachable _ _ _ Hreach) as Inv.
  pose proof (tok_held _ _ Inv). pose proof (tok_bound _ _ Inv).
  pose proof (tokensHeld_nonneg (threads s)).
  unfold inCirculation. lia.
Qed.

(** C1.  For a capacity [n >= 0], in every reachable state: the admission
    tokens in circulation are at most [n]; the supply goroutine has inserted
    at most [n] of them, and exactly [n] once it has returned unless the
    shutdown signal is closed; a goroutine parked on the bucket to offer a
    token is the supply goroutine or a delivery task; and a step changes the
    bucket only by parking such an offer at its end, by the receive of a
    dispatcher's [select] taking its head, or by the shutdown emptying it. *)
Theorem tokens_bounded (cfg : Config) (s : Sys) :
  reachable NewMiniClient cfg s ->
  0 <= Config.Concurrency cfg ->
  let n := Config.Concurrency cfg in
  0 <= inCirculation s <= n /\
  0 <= inserted s <= n /\
  (exists t0,
     threads s !! 0%nat = Some t0 /\ role t0 = Supplier /\
     (code t0 = Return RVoid ->
      finalize (client s) = true \/ inserted s = n)) /\
  (forall tid, tid ∈ bucket (client s) ->
     exists t, threads s !! tid = Some t /\ holds t = true /\
               (role t = Supplier \/ role t = Worker)) /\
  (forall l s',
     step s l = Some s' ->
     bucket (client s') = bucket (client s)
     \/ (exists tid t a,
           l = Run tid a /\ threads s !! tid = Some t /\
           (role t = Supplier \/ role t = Worker) /\
           bucket (client s') = bucket (client s) ++ [tid])
     \/ (exists tid t a sender,
           l = Run tid a /\ threads s !! tid = Some t /\
           (role t = Caller \/ role t = TickerTask) /\
           prim (code t) = PRecvBucketOrDefault /\
           bucket (client s) = sender :: bucket (client s'))
     \/ (finalize (client s') = true /\ bucket (client s') = [])).
Proof.
  intros Hreach Hn n.
  pose proof (TokInv_reachable _ _ _ Hreach) as Inv. fold n in Inv.
  destruct (tokens_le_inserted _ _ Hreach) as [Hcirc Hins]. fold n in Hins.
  pose proof (tok_bound _ _ Inv) as Hbd.
  rewrite Z.max_r in Hins, Hbd by assumption.
  split; [lia|]. split; [lia|]. split; [|split].
  - destruct (tok_supplier _ _ Inv) as (t0 & H0 & Hr & _ & Hs).
    exists t0. repeat split; try assumption. intros Hret.
    destruct Hs as [(Hi & fuel & Hfuel & Hcode)|(_ & _ & Hfin)].
    + destruct (supplyFrom_send fuel n _ (proj2 Hi) Hfuel)
        as (fuel' & _ & _ & Heq).
      rewrite Hcode, Heq in Hret. discriminate.
    + rewrite Z.max_r in Hfin by assumption. exact Hfin.
  - intros tid Hin.
    destruct (tok_parked _ _ Inv tid Hin) as (t & kS & kF & Ht & Hh & Hcode).
    exists t. repeat split; try assumption.
    apply (sender_role n s tid t Inv Ht). now rewrite Hcode.
  - intros l s' Hstep. unfold step in Hstep.
    destruct (crashed s); [discriminate|].
    destruct l as [call| |tid a].
    + injection Hstep as <-. now left.
    + destruct (ticker (client s)) as [tk|]; [|discriminate].
      destruct (tickStopped tk); [discriminate|].
      injection Hstep as <-. now left.
    + destruct (threads s !! tid) as [t|] eqn:Ht; [|discriminate].
      destruct (runThread_bucket _ _ _ _ _ Hstep)
        as [H|[[Hp H]|[[Hp [sender H]]|[_ H]]]].
      * now left.
      * right. left. exists tid, t, a. repeat split; try assumption.
        exact (sender_role n s tid t Inv Ht Hp).
      * right. right. left. exists tid, t, a, sender.
        repeat split; try assumption.
        exact (prober_role n s tid t Inv Ht Hp).
      * right. right. right. exact H.
Qed.

End Tokens.

Lemma afterDrop_counters (n : Z) (m : Client) (fld : Counter) :
  getCounter fld (stats (afterDrop n m)) = accounted OutDropped n (stats m) fld.
Proof.
  unfold afterDrop. simpl stats.
  now rewrite getCounter_addConcurrency, getCounter_account_gauge,
    account_counters.
Qed.

Lemma afterDrop_gauge (n : Z) (m : Client) :
  in_int32 (Concurrency (stats m)) ->
  Concurrency (stats (afterDrop n m)) = Concurrency (stats m).
Proof.
  intros H. unfold afterDrop.
  change (int32 (Concurrency (account OutDropped n
                                (addConcurrency 1 (stats m))) + -1)
          = Concurrency (stats m)).
  rewrite account_gauge.
  change (int32 (int32 (Concurrency (stats m) + 1) + - (1))
          = Concurrency (stats m)).
  now apply int32_add_sub.
Qed.

Section Saturation.

Variable NewMiniClient : MiniConfig -> MiniClient + string.

(** C5.  A flush attempt on a batch of [n > 0] records that finds no token
    on offer (and the statistics lock free) runs to its end without
    waiting: the probe of the bucket falls through to [default], the batch
    is accounted as dropped ([n] records and one request, the totals
    included), [Gosched] is called, the gauge is decremented.  No goroutine
    is started and no token moves.  The probe itself can always be run,
    in every reachable state, whatever is on the bucket. *)
Theorem maybeWork_saturated (cfg : Config) (s : Sys) (tid : nat) (t : Thread)
    (k : Prog) (b : Bundle) :
  reachable NewMiniClient cfg s ->
  crashed s = false ->
  threads s !! tid = Some t ->
  code t = maybeWork k ->
  is_uint64 (NumberFramed (bMiniStats b)) = true ->
  0 < NumberFramed (bMiniStats b) ->
  bucket (client s) = [] ->
  statLock (client s) = false ->
  let n := NumberFramed (bMiniStats b) in
  (exists s',
     run s (map (Run tid) (dropAnswers b)) = Some s' /\
     trace s tid (dropAnswers b) = dropTrace n /\
     (forall fld, getCounter fld (stats (client s'))
                  = accounted OutDropped n (stats (client s)) fld) /\
     (in_int32 (Concurrency (stats (client s))) ->
      Concurrency (stats (client s')) = Concurrency (stats (client s))) /\
     threads s' = <[tid := goto k t]> (threads s) /\
     bucket (client s') = [] /\ statLock (client s') = false /\
     inserted s' = inserted s /\ crashed s' = false) /\
  (forall s1 tid1 t1 kRecv kDefault a,
     reachable NewMiniClient cfg s1 ->
     crashed s1 = false ->
     threads s1 !! tid1 = Some t1 ->
     code t1 = RecvBucketOrDefault kRecv kDefault ->
     exists s2,
       step s1 (Run tid1 a) = Some s2 /\
       (bucket (client s1) = [] ->
        s2 = setThread tid1 (goto kDefault t1) s1)).
Proof.
  intros Hreach Hc Ht Hp Hu Hn Hb Hl n. split.
  - destruct (run_maybeWork_drop s tid t k b Hc Ht Hp Hu Hn Hb Hl)
      as [Hrun Htrace].
    eexists. split; [exact Hrun|]. split; [exact Htrace|].
    rewrite client_focus.
    split; [intros fld; apply afterDrop_counters|].
    split; [apply afterDrop_gauge|].
    repeat split; assumption.
  - intros s1 tid1 t1 kRecv kDefault a Hreach1 Hc1 Ht1 Hcode1.
    eapply probe_never_blocks; try eassumption.
    exact (TokInv_reachable _ _ _ Hreach1).
Qed.

(** C10.  A capacity of zero is accepted by [NewClient] like any other.
    The client it builds never has a token: none is inserted, none is in
    circulation, the bucket stays empty and no delivery task is ever
    started; every probe of the bucket falls through to [default], so a
    flush attempt on a batch that is not empty accounts it as dropped. *)
Theorem zero_capacity_always_drops (cfg : Config) :
  Config.Concurrency cfg = 0 ->
  (forall c world,
     NewMiniClient (miniConfigOf cfg) = inl c ->
     (Config.TimeTrigger cfg = TimeTriggerPeriodic -> 0 <= Config.Period cfg) ->
     exists m started,
       NewClient NewMiniClient cfg world = (Ok m, world ++ started)) /\
  (forall s,
     reachable NewMiniClient cfg s ->
     inserted s = 0 /\ inCirculation s = 0 /\ bucket (client s) = [] /\
     (forall tid t, threads s !! tid = Some t ->
                    role t <> Worker /\ holds t = false) /\
     (forall tid t kRecv kDefault a,
        crashed s = false ->
        threads s !! tid = Some t ->
        code t = RecvBucketOrDefault kRecv kDefault ->
        step s (Run tid a) = Some (setThread tid (goto kDefault t) s)) /\
     (forall tid t k b,
        crashed s = false ->
        threads s !! tid = Some t ->
        code t = maybeWork k ->
        is_uint64 (NumberFramed (bMiniStats b)) = true ->
        0 < NumberFramed (bMiniStats b) ->
        statLock (client s) = false ->
        exists s',
          run s (map (Run tid) (dropAnswers b)) = Some s' /\
          trace s tid (dropAnswers b)
            = dropTrace (NumberFramed (bMiniStats b)) /\
          (forall fld,
             getCounter fld (stats (client s'))
             = accounted OutDropped (NumberFramed (bMiniStats b))
                 (stats (client s)) fld) /\
          threads s' = <[tid := goto k t]> (threads s))).
Proof.
  intros Hzero. split.
  - intros c world Hc Hper.
    destruct (Z.eq_dec (Config.TimeTrigger cfg) TimeTriggerPeriodic)
      as [Htt|Htt].
    + destruct (Z.eq_dec (Config.Period cfg) 0) as [Hz|Hnz].
      * rewrite (NewClient_zero_periodic _ _ _ _ Hc Htt Hz). eauto.
      * rewrite (NewClient_positive_periodic _ _ _ _ Hc Htt)
          by (specialize (Hper Htt); lia).
        rewrite <- app_assoc. eauto.
    + rewrite (NewClient_not_periodic _ _ _ _ Hc Htt). eauto.
  - intros s Hreach.
    pose proof (TokInv_reachable _ _ _ Hreach) as Inv.
    rewrite Hzero in Inv.
    pose proof (tok_bound _ _ Inv) as Hbd. simpl in Hbd.
    pose proof (tok_held _ _ Inv) as Hheld.
    pose proof (tokensHeld_nonneg (threads s)) as Hnn.
    assert (Hins : inserted s = 0) by lia.
    assert (Hnone : forall tid t, threads s !! tid = Some t ->
                                  holds t = false).
    { intros tid t Ht. pose proof (tokensHeld_lookup _ _ _ Ht) as Hle.
      destruct (holds t); [simpl in Hle; lia | reflexivity]. }
    assert (Hb : bucket (client s) = []).
    { destruct (bucket (client s)) as [|x q] eqn:Hq; [reflexivity|].
      destruct (tok_parked _ _ Inv x) as (tx & ? & ? & Htx & Hhx & _).
      - rewrite Hq. now left.
      - rewrite (Hnone _ _ Htx) in Hhx. discriminate. }
    split; [exact Hins|]. split; [unfold inCirculation; lia|].
    split; [exact Hb|]. split; [|split].
    + intros tid t Ht. split; [|now apply (Hnone tid)].
      intros Hw. pose proof (tok_workers _ _ Inv) as Hws.
      assert (0 < inserted s) by (apply Hws; eauto). lia.
    + intros tid t kRecv kDefault a Hc Ht Hcode.
      destruct (probe_never_blocks _ _ _ _ _ _ a Inv Hc Ht Hcode)
        as (s' & Hstep & Hs').
      now rewrite Hstep, (Hs' Hb).
    + intros tid t k b Hc Ht Hp Hu Hn Hl.
      destruct (run_maybeWork_drop s tid t k b Hc Ht Hp Hu Hn Hb Hl)
        as [Hrun Htrace].
      eexists. split; [exact Hrun|]. split; [exact Htrace|].
      rewrite client_focus.
      split; [intros fld; apply afterDrop_counters | reflexivity].
Qed.

End Saturation.

Section Shutdown_admission.

Variable NewMiniClient : MiniConfig -> MiniClient + string.

(** Once the shutdown signal is closed no token is on offer any more: every
    probe of the bucket falls through to [default], so no further delivery
    task is admitted. *)
Lemma no_admission_after_shutdown (cfg : Config) (s : Sys) (tid : nat)
    (t : Thread) (kRecv kDefault : Prog) (a : Answer) :
  reachable NewMiniClient cfg s ->
  finalize (client s) = true ->
  crashed s = false ->
  threads s !! tid = Some t ->
  code t = RecvBucketOrDefault kRecv kDefault ->
  bucket (client s) = [] /\
  step s (Run tid a) = Some (setThread tid (goto kDefault t) s).
Proof.
  intros Hreach Hfin Hc Ht Hcode.
  pose proof (TokInv_reachable _ _ _ Hreach) as Inv.
  pose proof (tok_closed _ _ Inv Hfin) as Hb.
  split; [exact Hb|].
  destruct (probe_never_blocks _ _ _ _ _ _ a Inv Hc Ht Hcode)
    as (s' & Hstep & Hs').
  now rewrite Hstep, (Hs' Hb).
Qed.

End Shutdown_admission.

(** ** The statistics invariant *)

Lemma divide_wrap (x : Z) : (2 ^ 64 | x - uint64 x).
Proof.
  unfold uint64. exists (x / 2 ^ 64).
  pose proof (Z.div_mod x (2 ^ 64)). lia.
Qed.

Lemma uint64_zero_divide (x : Z) : uint64 x = 0 <-> (2 ^ 64 | x).
Proof. unfold uint64. apply Z.mod_divide. lia. Qed.

Lemma uint64_sub_zero (a b : Z) :
  uint64 (a - b) = 0 -> in_uint64 b -> uint64 a = b.
Proof.
  intros H Hb. apply uint64_zero_divide in H. destruct H as [q Hq].
  unfold uint64. replace a with (b + q * 2 ^ 64) by lia.
  rewrite Z.mod_add by lia. now apply Z.mod_small.
Qed.

Lemma uint64_add_idemp (a b : Z) : uint64 (uint64 a + b) = uint64 (a + b).
Proof. unfold uint64. apply Zplus_mod_idemp_l. Qed.

Lemma uint64_sum4 (a b c e : Z) :
  uint64 (uint64 (uint64 (a + b) + c) + e) = uint64 (a + b + c + e).
Proof.
  rewrite uint64_add_idemp.
  replace (uint64 (a + b) + c + e) with (uint64 (a + b) + (c + e)) by lia.
  rewrite uint64_add_idemp. f_equal. lia.
Qed.

(** Outside a critical section the identities hold as Go computes them. *)
Lemma settled_balanced (m : Stats) :
  uint64 (msgDeficit m) = 0 ->
  uint64 (reqDeficit m) = 0 ->
  (forall fld, in_uint64 (getCounter fld m)) ->
  balanced m.
Proof.
  intros Hm Hr Hrange. unfold balanced. rewrite !uint64_sum4. split.
  - apply uint64_sub_zero; [exact Hm | exact (Hrange CTotal)].
  - apply uint64_sub_zero; [exact Hr | exact (Hrange CTotalRequests)].
Qed.

(** Without overflow the identities are the plain sums of the spec. *)
Lemma balanced_exact (m : Stats) :
  balanced m ->
  (forall fld, in_uint64 (getCounter fld m)) ->
  (Successful m + Rejected m + Cancelled m + Dropped m < 2 ^ 64 ->
   Successful m + Rejected m + Cancelled m + Dropped m = Total m) /\
  (SuccessRequests m + RejectRequests m + CancelRequests m
   + DroppedRequests m < 2 ^ 64 ->
   SuccessRequests m + RejectRequests m + CancelRequests m
   + DroppedRequests m = TotalRequests m).
Proof.
  intros [Hm Hr] Hrange. rewrite !uint64_sum4 in Hm, Hr.
  pose proof (Hrange CSuccessful). pose proof (Hrange CRejected).
  pose proof (Hrange CCancelled). pose proof (Hrange CDropped).
  pose proof (Hrange CSuccessRequests). pose proof (Hrange CRejectRequests).
  pose proof (Hrange CCancelRequests). pose proof (Hrange CDroppedRequests).
  unfold in_uint64 in *. simpl in *. split; intros Hlt.
  - rewrite <- Hm. symmetry. apply uint64_id. unfold in_uint64. lia.
  - rewrite <- Hr. symmetry. apply uint64_id. unfold in_uint64. lia.
Qed.

Lemma deficit_addCounter (fld : Counter) (n : Z) (m : Stats) (d : Z * Z) :
  uint64 (msgDeficit m - fst d) = 0 ->
  uint64 (reqDeficit m - snd d) = 0 ->
  uint64 (msgDeficit (addCounter fld n m) - fst (bump fld n d)) = 0 /\
  uint64 (reqDeficit (addCounter fld n m) - snd (bump fld n d)) = 0.
Proof.
  rewrite !uint64_zero_divide. intros Hm Hr.
  destruct fld; unfold msgDeficit, reqDeficit in *; simpl;
    (split; [|]); try assumption.
  - pose proof (divide_wrap (Total m + n)) as Hw.
    replace (Successful m + Rejected m + Cancelled m + Dropped m
             - uint64 (Total m + n) - (fst d - n))
      with ((Successful m + Rejected m + Cancelled m + Dropped m - Total m
             - fst d) + (Total m + n - uint64 (Total m + n))) by lia.
    now apply Z.divide_add_r.
  - pose proof (divide_wrap (Dropped m + n)) as Hw.
    replace (Successful m + Rejected m + Cancelled m + uint64 (Dropped m + n)
             - Total m - (fst d + n))
      with ((Successful m + Rejected m + Cancelled m + Dropped m - Total m
             - fst d) - (Dropped m + n - uint64 (Dropped m + n))) by lia.
    now apply Z.divide_sub_r.
  - pose proof (divide_wrap (Cancelled m + n)) as Hw.
    replace (Successful m + Rejected m + uint64 (Cancelled m + n) + Dropped m
             - Total m - (fst d + n))
      with ((Successful m + Rejected m + Cancelled m + Dropped m - Total m
             - fst d) - (Cancelled m + n - uint64 (Cancelled m + n))) by lia.
    now apply Z.divide_sub_r.
  - pose proof (divide_wrap (Rejected m + n)) as Hw.
    replace (Successful m + uint64 (Rejected m + n) + Cancelled m + Dropped m
             - Total m - (fst d + n))
      with ((Successful m + Rejected m + Cancelled m + Dropped m - Total m
             - fst d) - (Rejected m + n - uint64 (Rejected m + n))) by lia.
    now apply Z.divide_sub_r.
  - pose proof (divide_wrap (Successful m + n)) as Hw.
    replace (uint64 (Successful m + n) + Rejected m + Cancelled m + Dropped m
             - Total m - (fst d + n))
      with ((Successful m + Rejected m + Cancelled m + Dropped m - Total m
             - fst d) - (Successful m + n - uint64 (Successful m + n))) by lia.
    now apply Z.divide_sub_r.
  - pose proof (divide_wrap (TotalRequests m + n)) as Hw.
    replace (SuccessRequests m + RejectRequests m + CancelRequests m
             + DroppedRequests m - uint64 (TotalRequests m + n) - (snd d - n))
      with ((SuccessRequests m + RejectRequests m + CancelRequests m
             + DroppedRequests m - TotalRequests m - snd d)
            + (TotalRequests m + n - uint64 (TotalRequests m + n))) by lia.
    now apply Z.divide_add_r.
  - pose proof (divide_wrap (DroppedRequests m + n)) as Hw.
    replace (SuccessRequests m + RejectRequests m + CancelRequests m
             + uint64 (DroppedRequests m + n) - TotalRequests m - (snd d + n))
      with ((SuccessRequests m + RejectRequests m + CancelRequests m
             + DroppedRequests m - TotalRequests m - snd d)
            - (DroppedRequests m + n - uint64 (DroppedRequests m + n)))
      by lia.
    now apply Z.divide_sub_r.
  - pose proof (divide_wrap (CancelRequests m + n)) as Hw.
    replace (SuccessRequests m + RejectRequests m
             + uint64 (CancelRequests m + n) + DroppedRequests m
             - TotalRequests m - (snd d + n))
      with ((SuccessRequests m + RejectRequests m + CancelRequests m
             + DroppedRequests m - TotalRequests m - snd d)
            - (CancelRequests m + n - uint64 (CancelRequests m + n)))
      by lia.
    now apply Z.divide_sub_r.
  - pose proof (divide_wrap (RejectRequests m + n)) as Hw.
    replace (SuccessRequests m + uint64 (RejectRequests m + n)
             + CancelRequests m + DroppedRequests m
             - TotalRequests m - (snd d + n))
      with ((SuccessRequests m + RejectRequests m + CancelRequests m
             + DroppedRequests m - TotalRequests m - snd d)
            - (RejectRequests m + n - uint64 (RejectRequests m + n)))
      by lia.
    now apply Z.divide_sub_r.
  - pose proof (divide_wrap (SuccessRequests m + n)) as Hw.
    replace (uint64 (SuccessRequests m + n) + RejectRequests m
             + CancelRequests m + DroppedRequests m
             - TotalRequests m - (snd d + n))
      with ((SuccessRequests m + RejectRequests m + CancelRequests m
             + DroppedRequests m - TotalRequests m - snd d)
            - (SuccessRequests m + n - uint64 (SuccessRequests m + n)))
      by lia.
    now apply Z.divide_sub_r.
Qed.

Lemma range_addCounter (fld : Counter) (n : Z) (m : Stats) :
  (forall f, in_uint64 (getCounter f m)) ->
  forall f, in_uint64 (getCounter f (addCounter fld n m)).
Proof.
  intros H f. pose proof (H f) as Hf.
  destruct fld, f; simpl in *; try assumption; apply uint64_range.
Qed.

Lemma deficit_counters (m m' : Stats) :
  (forall fld, getCounter fld m' = getCounter fld m) ->
  msgDeficit m' = msgDeficit m /\ reqDeficit m' = reqDeficit m.
Proof.
  intros H. unfold msgDeficit, reqDeficit.
  pose proof (H CTotal). pose proof (H CDropped). pose proof (H CCancelled).
  pose proof (H CRejected). pose proof (H CSuccessful).
  pose proof (H CTotalRequests). pose proof (H CDroppedRequests).
  pose proof (H CCancelRequests). pose proof (H CRejectRequests).
  pose proof (H CSuccessRequests). simpl in *. lia.
Qed.

Lemma lockOk_statReq (o : Outcome) (ms : MiniStats) (k : Prog) :
  lockOk None k -> lockOk None (statReq o ms k).
Proof.
  intros Hk. rewrite statReq_unfold. simpl. split; [reflexivity|].
  eexists. split; [reflexivity|]. eexists. split; [reflexivity|].
  destruct o; simpl.
  all: eexists; split; [reflexivity|]; eexists; split; [reflexivity|].
  all: simpl; split; [|exact Hk].
  all: eexists; split; [reflexivity|]; split; simpl.
  all: try reflexivity.
  all: replace (0 - NumberFramed ms + NumberFramed ms) with 0 by lia.
  all: reflexivity.
Qed.

Lemma lockOk_syncWorker (b : Bundle) : lockOk None (syncWorker b).
Proof.
  unfold syncWorker. simpl. intros [err|code].
  - apply (lockOk_statReq OutCancelled). simpl. auto.
  - destruct (negb (code =? StatusNoContent)).
    + apply (lockOk_statReq OutRejected). simpl. auto.
    + apply (lockOk_statReq OutSuccessful). simpl. auto.
Qed.

Lemma lockOk_maybeWork (k : Prog) :
  lockOk None k -> lockOk None (maybeWork k).
Proof.
  intros Hk. unfold maybeWork. simpl. intros b.
  destruct (NumberFramed (bMiniStats b) <=? 0); simpl; [exact Hk|].
  split.
  - split; [apply lockOk_syncWorker | exact Hk].
  - apply (lockOk_statReq OutDropped). exact Hk.
Qed.

Lemma lockOk_callProg (m : Client) (call : ApiCall) :
  lockOk None (callProg m call).
Proof.
  destruct call as [msg| |]; simpl.
  - split; [reflexivity|]. intros ms.
    destruct ((Buffered ms >=? RequestSizeTrigger m)
              || (timeTrigger m =? TimeTriggerImmediate)); [|reflexivity].
    now apply lockOk_maybeWork.
  - split; [reflexivity|]. split.
    + eexists. split; [reflexivity|]. split; reflexivity.
    + intros st. split; [|reflexivity].
      eexists. split; [reflexivity|]. split; reflexivity.
  - reflexivity.
Qed.

Lemma lockOk_tickerLoop : lockOk None tickerLoop.
Proof.
  unfold tickerLoop. simpl. split; [|reflexivity].
  change (lockOk None (maybeWork Continue)). now apply lockOk_maybeWork.
Qed.

Lemma lockOk_supplyFrom (fuel : nat) (n i : Z) :
  lockOk None (supplyFrom fuel n i).
Proof.
  revert i. induction fuel as [|fuel IH]; intros i; simpl; [reflexivity|].
  destruct (i <? n); simpl; [|reflexivity].
  split; [apply IH | reflexivity].
Qed.

Lemma StatInv_crash (s : Sys) : StatInv s -> StatInv (crash s).
Proof. intros [own []]. exists own. now constructor. Qed.

(** The invariant only looks at the goroutines, the lock and the
    counters. *)
Lemma StatInvAt_ext (own : option (nat * (Z * Z))) (s s' : Sys) :
  threads s' = threads s ->
  statLock (client s') = statLock (client s) ->
  (forall fld, getCounter fld (stats (client s'))
               = getCounter fld (stats (client s))) ->
  StatInvAt own s -> StatInvAt own s'.
Proof.
  intros Ht Hl Hcnt [Hlock Hex Hth Hdef Hrange].
  destruct (deficit_counters _ _ Hcnt) as [Hm Hr].
  constructor; rewrite ?Ht, ?Hl, ?Hm, ?Hr; try assumption.
  intros fld. rewrite Hcnt. apply Hrange.
Qed.

(** Goroutine [tid] moves to code that fits the section it is in. *)
Lemma StatInvAt_thread (own : option (nat * (Z * Z))) (s : Sys) (tid : nat)
    (t : Thread) (p : Prog) (h : bool) :
  StatInvAt own s ->
  threads s !! tid = Some t ->
  (lockOk (sectionOf own tid) (code t) -> lockOk (sectionOf own tid) p) ->
  StatInvAt own (setThread tid (mkThread (role t) p (loop t) h) s).
Proof.
  intros [Hlock Hex Hth Hdef Hrange] Ht Hcode.
  constructor; simpl; try assumption.
  - intros o d Ho. rewrite length_insert. now apply (Hex o d).
  - intros j tj Hj.
    destruct (lookup_insert_cases _ _ _ _ _ Hj) as [[-> ->]|[Hne Hj']].
    + destruct (Hth _ _ Ht) as [Hc Hb]. split; [now apply Hcode|].
      exact Hb.
    + exact (Hth _ _ Hj').
Qed.

(** A new goroutine starts outside any critical section. *)
Lemma StatInvAt_spawn (own : option (nat * (Z * Z))) (s : Sys) (t : Thread) :
  StatInvAt own s ->
  lockOk None (code t) ->
  (forall body, loop t = Some body -> lockOk None body) ->
  StatInvAt own (spawn t s).
Proof.
  intros [Hlock Hex Hth Hdef Hrange] Hcode Hloop.
  constructor; simpl; try assumption.
  - intros o d Ho. rewrite length_app. specialize (Hex o d Ho). lia.
  - intros j tj Hj.
    apply lookup_app_Some in Hj. destruct Hj as [Hj|[Hge Hj]].
    + exact (Hth _ _ Hj).
    + destruct (j - _)%nat eqn:Hsub; [|discriminate].
      injection Hj as <-.
      assert (Hs : sectionOf own j = None).
      { destruct own as [[o d]|]; [|reflexivity]. simpl.
        specialize (Hex o d eq_refl).
        destruct (decide (j = o)); [lia | reflexivity]. }
      rewrite Hs. auto.
Qed.

Lemma owned_false (own : option (nat * (Z * Z))) :
  false = owned own -> own = None.
Proof. destruct own; [discriminate | reflexivity]. Qed.

Lemma sectionOf_Some (own : option (nat * (Z * Z))) (tid : nat) (d : Z * Z) :
  sectionOf own tid = Some d -> own = Some (tid, d).
Proof.
  destruct own as [[o d']|]; simpl; [|discriminate].
  destruct (decide (tid = o)) as [->|]; [|discriminate].
  now intros [= ->].
Qed.

Lemma sectionOf_self (tid : nat) (d : Z * Z) :
  sectionOf (Some (tid, d)) tid = Some d.
Proof. simpl. now destruct (decide (tid = tid)). Qed.

Lemma sectionOf_other (o tid : nat) (d : Z * Z) :
  tid <> o -> sectionOf (Some (o, d)) tid = None.
Proof. intros H. simpl. now destruct (decide (tid = o)). Qed.

(** [Lock]: the goroutine enters a critical section with settled deficits. *)
Lemma StatInv_lock (s : Sys) (tid : nat) (t : Thread) (k : Prog) :
  StatInv s ->
  threads s !! tid = Some t ->
  code t = Lock k ->
  statLock (client s) = false ->
  StatInv (setThread tid (goto k t)
             (setClient (withStatLock true (client s)) s)).
Proof.
  intros [own [Hlock Hex Hth Hdef Hrange]] Ht Hcode Hfree.
  rewrite Hfree in Hlock. apply owned_false in Hlock. subst own.
  exists (Some (tid, (0, 0))). constructor; simpl.
  - reflexivity.
  - intros o d [= <- <-]. rewrite length_insert. now apply lookup_lt_Some in Ht.
  - intros j tj Hj.
    destruct (lookup_insert_cases _ _ _ _ _ Hj) as [[-> ->]|[Hne Hj']].
    + destruct (Hth _ _ Ht) as [Hc Hb]. rewrite Hcode in Hc. simpl in Hc.
      destruct (decide (tid = tid)); [|contradiction]. simpl. tauto.
    + destruct (decide (j = tid)); [contradiction|]. exact (Hth _ _ Hj').
  - exact Hdef.
  - exact Hrange.
Qed.

(** [Unlock]: the section ends, its deficits settled. *)
Lemma StatInv_unlock (s : Sys) (tid : nat) (t : Thread) (k : Prog) :
  StatInv s ->
  threads s !! tid = Some t ->
  code t = Unlock k ->
  StatInv (setThread tid (goto k t)
             (setClient (withStatLock false (client s)) s)).
Proof.
  intros [own [Hlock Hex Hth Hdef Hrange]] Ht Hcode.
  destruct (Hth _ _ Ht) as [Hc Hb]. rewrite Hcode in Hc. simpl in Hc.
  destruct Hc as [(d & Hsec & Hd1 & Hd2) Hk].
  apply sectionOf_Some in Hsec. subst own. simpl in Hdef.
  exists None. constructor; simpl.
  - reflexivity.
  - discriminate.
  - intros j tj Hj.
    destruct (lookup_insert_cases _ _ _ _ _ Hj) as [[-> ->]|[Hne Hj']].
    + simpl. auto.
    + destruct (Hth _ _ Hj') as [Hcj Hbj].
      now rewrite sectionOf_other in Hcj.
  - destruct Hdef as [Hm Hr].
    unfold settled in *. rewrite uint64_zero_divide in Hm, Hr, Hd1, Hd2.
    rewrite !Z.sub_0_r. split; apply uint64_zero_divide.
    + replace (msgDeficit (stats (client s)))
        with (msgDeficit (stats (client s)) - fst d + fst d) by lia.
      now apply Z.divide_add_r.
    + replace (reqDeficit (stats (client s)))
        with (reqDeficit (stats (client s)) - snd d + snd d) by lia.
      now apply Z.divide_add_r.
  - exact Hrange.
Qed.

(** [m.fld += n] inside the section. *)
Lemma StatInv_add (s : Sys) (tid : nat) (t : Thread) (fld : Counter) (n : Z)
    (k : Prog) :
  StatInv s ->
  threads s !! tid = Some t ->
  code t = AddUint64 fld n k ->
  StatInv (setThread tid (goto k t)
             (setClient (withStats (addCounter fld n (stats (client s)))
                           (client s)) s)).
Proof.
  intros [own [Hlock Hex Hth Hdef Hrange]] Ht Hcode.
  destruct (Hth _ _ Ht) as [Hc Hb]. rewrite Hcode in Hc. simpl in Hc.
  destruct Hc as (d & Hsec & Hk).
  apply sectionOf_Some in Hsec. subst own. simpl in Hdef.
  exists (Some (tid, bump fld n d)). constructor; simpl.
  - exact Hlock.
  - intros o d' [= <- <-]. rewrite length_insert.
    now apply lookup_lt_Some in Ht.
  - intros j tj Hj.
    destruct (lookup_insert_cases _ _ _ _ _ Hj) as [[-> ->]|[Hne Hj']].
    + destruct (decide (tid = tid)); [|contradiction]. simpl. auto.
    + destruct (decide (j = tid)); [contradiction|].
      destruct (Hth _ _ Hj') as [Hcj Hbj].
      now rewrite sectionOf_other in Hcj.
  - destruct Hdef as [Hm Hr]. now apply deficit_addCounter.
  - now apply range_addCounter.
Qed.

Ltac stat_simple own s0 Inv Ht :=
  exists own;
  match goal with
  | |- StatInvAt _ (setThread ?tid (goto ?k ?t) ?s1) =>
      apply (StatInvAt_thread own s1 tid t k (holds t));
      [ apply (StatInvAt_ext own s0 s1 eq_refl eq_refl);
        [ first [ reflexivity | intros ?; apply getCounter_addConcurrency ]
        | exact Inv ]
      | exact Ht
      | try match goal with H : code t = _ |- _ => rewrite H end;
        simpl; intros Hok; first [exact Hok | apply Hok | tauto] ]
  end.

Lemma StatInv_runThread (s s' : Sys) (tid : nat) (t : Thread) (a : Answer) :
  StatInv s ->
  threads s !! tid = Some t ->
  runThread s tid t a = Some s' ->
  StatInv s'.
Proof.
  intros HInv Ht Hrun. pose proof HInv as [own Inv].
  unfold runThread in Hrun.
  destruct (code t) as
    [ r | | why | delta k | k | msg k | b k | k | kRecv kDefault
    | kSent kFinalize | kClosed kDefault | kTick kFinalize | z k | k | k
    | r p k | k | k | fld z k | k | k | k | k ] eqn:Hcode.
  - discriminate.
  - destruct (loop t) as [body|] eqn:Hloop; [|discriminate].
    injection Hrun as <-. exists own.
    destruct (stat_threads _ _ Inv _ _ Ht) as [_ Hb].
    apply (StatInvAt_thread own s tid t body (holds t) Inv Ht).
    rewrite Hcode. simpl. intros ->. now apply Hb.
  - injection Hrun as <-. now apply StatInv_crash.
  - injection Hrun as <-. stat_simple own s Inv Ht.
  - destruct a; try discriminate. destruct (is_uint64 _); [|discriminate].
    injection Hrun as <-. stat_simple own s Inv Ht.
  - destruct a; try discriminate.
    injection Hrun as <-. stat_simple own s Inv Ht.
  - destruct a; try discriminate.
    injection Hrun as <-. stat_simple own s Inv Ht.
  - injection Hrun as <-. stat_simple own s Inv Ht.
  - destruct (bucket (client s)) as [|sender rest] eqn:Hb.
    + injection Hrun as <-. stat_simple own s Inv Ht.
    + destruct (threads s !! sender) as [ts|] eqn:Hts; [|discriminate].
      destruct (code ts) eqn:Hcs; try discriminate.
      injection Hrun as <-. exists own.
      assert (Hne : tid <> sender).
      { intros ->. rewrite Ht in Hts. injection Hts as ->. congruence. }
      apply (StatInvAt_thread own _ tid t kRecv true).
      * apply (StatInvAt_thread own _ sender ts _ false).
        -- now apply (StatInvAt_ext own s).
        -- exact Hts.
        -- rewrite Hcs. simpl. tauto.
      * simpl. now rewrite list_lookup_insert_ne by auto.
      * rewrite Hcode. simpl. tauto.
  - destruct (finalize (client s)).
    + injection Hrun as <-. exists own.
      apply (StatInvAt_thread own s tid t kFinalize false Inv Ht).
      rewrite Hcode. simpl. tauto.
    + destruct (bool_decide _); [discriminate|]. injection Hrun as <-.
      exists own. apply (StatInvAt_thread own _ tid t (code t) true).
      * now apply (StatInvAt_ext own s).
      * exact Ht.
      * exact id.
  - injection Hrun as <-.
    destruct (finalize (client s)); stat_simple own s Inv Ht.
  - assert (Htick : forall tk,
              StatInv (setThread tid (goto kTick t)
                         (setClient (withTicker tk (client s)) s))).
    { intros tk. stat_simple own s Inv Ht. }
    assert (Hfinal : StatInv (setThread tid (goto kFinalize t) s)).
    { stat_simple own s Inv Ht. }
    destruct (ticker (client s)) as [tk|];
      [destruct (tickPending tk)|]; destruct (finalize (client s));
      try discriminate;
      try (destruct a as [| | | |[|]]; try discriminate);
      injection Hrun as <-; first [apply Htick | apply Hfinal].
  - destruct (_ <? 0); injection Hrun as <-;
      [now apply StatInv_crash | stat_simple own s Inv Ht].
  - destruct (_ <? 0); injection Hrun as <-;
      [now apply StatInv_crash | stat_simple own s Inv Ht].
  - destruct (_ =? 0); [|discriminate]. injection Hrun as <-.
    stat_simple own s Inv Ht.
  - injection Hrun as <-. exists own.
    destruct (stat_threads _ _ Inv _ _ Ht) as [Hc _].
    rewrite Hcode in Hc. simpl in Hc. destruct Hc as [Hp Hk].
    apply StatInvAt_spawn; [|exact Hp|discriminate].
    apply (StatInvAt_thread own s tid t k false Inv Ht).
    intros _. exact Hk.
  - destruct (statLock (client s)) eqn:Hl; [discriminate|].
    injection Hrun as <-. now apply StatInv_lock.
  - destruct (statLock (client s)); injection Hrun as <-;
      [now apply StatInv_unlock | now apply StatInv_crash].
  - injection Hrun as <-. now apply StatInv_add.
  - injection Hrun as <-. stat_simple own s Inv Ht.
  - injection Hrun as <-. stat_simple own s Inv Ht.
  - destruct (ticker (client s)) as [tk|]; injection Hrun as <-;
      [stat_simple own s Inv Ht | now apply StatInv_crash].
  - destruct (finalize (client s)); injection Hrun as <-;
      [now apply StatInv_crash | stat_simple own s Inv Ht].
Qed.

Lemma StatInv_step (s s' : Sys) (l : Label) :
  StatInv s -> step s l = Some s' -> StatInv s'.
Proof.
  intros Inv Hstep. unfold step in Hstep.
  destruct (crashed s); [discriminate|].
  destruct l as [call| |tid a].
  - injection Hstep as <-. destruct Inv as [own Inv]. exists own.
    apply StatInvAt_spawn; [exact Inv | apply lockOk_callProg | discriminate].
  - destruct (ticker (client s)) as [tk|]; [|discriminate].
    destruct (tickStopped tk); [discriminate|]. injection Hstep as <-.
    destruct Inv as [own Inv]. exists own.
    now apply (StatInvAt_ext own s).
  - destruct (threads s !! tid) as [t|] eqn:Ht; [|discriminate].
    eapply StatInv_runThread; eassumption.
Qed.

Lemma StatInv_run (ls : list Label) (s s' : Sys) :
  StatInv s -> run s ls = Some s' -> StatInv s'.
Proof.
  revert s. induction ls as [|l ls IH]; intros s Inv Hrun; simpl in Hrun.
  - now injection Hrun as <-.
  - destruct (step s l) as [s1|] eqn:Hstep; [|discriminate].
    apply (IH s1); [|assumption]. eapply StatInv_step; eassumption.
Qed.

(** With the lock free the identities hold; and they hold whenever a
    goroutine is about to copy the block. *)
Lemma StatInv_balanced (s : Sys) :
  StatInv s ->
  (statLock (client s) = false -> balanced (stats (client s))) /\
  (forall tid t k, threads s !! tid = Some t -> code t = ReadStats k ->
                   balanced (stats (client s))) /\
  (forall fld, in_uint64 (getCounter fld (stats (client s)))).
Proof.
  intros [own [Hlock Hex Hth [Hm Hr] Hrange]]. split; [|split].
  - intros Hfree. rewrite Hfree in Hlock. apply owned_false in Hlock.
    subst own. simpl in Hm, Hr. rewrite Z.sub_0_r in Hm, Hr.
    now apply settled_balanced.
  - intros tid t k Ht Hcode. destruct (Hth _ _ Ht) as [Hc _].
    rewrite Hcode in Hc. simpl in Hc.
    destruct Hc as [(d & Hsec & Hd1 & Hd2) _].
    apply sectionOf_Some in Hsec. subst own. simpl in Hm, Hr.
    rewrite uint64_zero_divide in Hm, Hr, Hd1, Hd2.
    apply settled_balanced; [| |exact Hrange]; apply uint64_zero_divide.
    + replace (msgDeficit (stats (client s)))
        with (msgDeficit (stats (client s)) - fst d + fst d) by lia.
      now apply Z.divide_add_r.
    + replace (reqDeficit (stats (client s)))
        with (reqDeficit (stats (client s)) - snd d + snd d) by lia.
      now apply Z.divide_add_r.
  - exact Hrange.
Qed.

Section Statistics.

Variable NewMiniClient : MiniConfig -> MiniClient + string.

Lemma StatInv_boot (cfg : Config) (s0 : Sys) :
  boot NewMiniClient cfg = Some s0 -> StatInv s0.
Proof.
  intros Hboot.
  destruct (boot_shape _ _ _ Hboot)
    as (m & rest & -> & Hst & Hl & _ & _ & _ & Hrest).
  exists None. constructor; simpl.
  - exact Hl.
  - discriminate.
  - intros j tj Hj. destruct j as [|j]; simpl in Hj.
    + injection Hj as <-. simpl. split; [|discriminate].
      apply lockOk_supplyFrom.
    + destruct Hrest as [(-> & _)|(-> & _)]; [discriminate|].
      destruct j; [|discriminate]. injection Hj as <-. simpl.
      split; [apply lockOk_tickerLoop|].
      intros body [= <-]. apply lockOk_tickerLoop.
  - rewrite Hst. split; reflexivity.
  - rewrite Hst. intros fld. destruct fld; simpl; unfold in_uint64; lia.
Qed.

Lemma StatInv_reachable (cfg : Config) (s : Sys) :
  reachable NewMiniClient cfg s -> StatInv s.
Proof.
  intros (s0 & ls & Hboot & Hrun).
  eapply StatInv_run; [|eassumption]. eapply StatInv_boot; eassumption.
Qed.

(** C2.  In every reachable state in which no statistics update is in
    progress (the lock is free), and whenever [Statistics] copies the
    block, [successful + rejected + cancelled + dropped == total] holds for
    the message counters and for the request counters, as Go evaluates it on
    [uint64], and as plain sums as long as those do not overflow.  Each of
    the four update functions is one critical section that adds the record
    count and one request to the totals and to exactly one category, and
    keeps the identities. *)
Theorem stats_balanced (cfg : Config) (s : Sys) :
  reachable NewMiniClient cfg s ->
  (statLock (client s) = false -> balanced (stats (client s))) /\
  (forall tid t k, threads s !! tid = Some t -> code t = ReadStats k ->
                   balanced (stats (client s))) /\
  (forall fld, in_uint64 (getCounter fld (stats (client s)))) /\
  (statLock (client s) = false ->
   let m := stats (client s) in
   (Successful m + Rejected m + Cancelled m + Dropped m < 2 ^ 64 ->
    Successful m + Rejected m + Cancelled m + Dropped m = Total m) /\
   (SuccessRequests m + RejectRequests m + CancelRequests m
    + DroppedRequests m < 2 ^ 64 ->
    SuccessRequests m + RejectRequests m + CancelRequests m
    + DroppedRequests m = TotalRequests m)) /\
  (forall o ms tid t k,
     crashed s = false ->
     threads s !! tid = Some t ->
     code t = statReq o ms k ->
     statLock (client s) = false ->
     exists s',
       run s (map (Run tid) [ANone; ANone; ANone; ANone; ANone; ANone])
         = Some s' /\
       trace s tid [ANone; ANone; ANone; ANone; ANone; ANone] =
         [PLock; PAddUint64 CTotal (NumberFramed ms);
          PAddUint64 CTotalRequests 1;
          PAddUint64 (msgCounter o) (NumberFramed ms);
          PAddUint64 (reqCounter o) 1; PUnlock] /\
       (forall fld, getCounter fld (stats (client s'))
                    = accounted o (NumberFramed ms) (stats (client s)) fld) /\
       (forall o', o' <> o ->
          getCounter (msgCounter o') (stats (client s'))
          = getCounter (msgCounter o') (stats (client s)) /\
          getCounter (reqCounter o') (stats (client s'))
          = getCounter (reqCounter o') (stats (client s))) /\
       statLock (client s') = false /\
       balanced (stats (client s'))).
Proof.
  intros Hreach. pose proof (StatInv_reachable _ _ Hreach) as Inv.
  destruct (StatInv_balanced _ Inv) as (Hfree & Hread & Hrange).
  split; [exact Hfree|]. split; [exact Hread|]. split; [exact Hrange|].
  split.
  - intros Hl m. apply balanced_exact; [now apply Hfree | exact Hrange].
  - intros o ms tid t k Hc Ht Hcode Hl.
    assert (Hlt := lookup_lt_Some _ _ _ Ht).
    pose proof (run_statReq s tid t (client s) o ms k Hc Hlt Hl) as Hrun.
    pose proof (trace_statReq s tid t (client s) o ms k Hc Hlt Hl) as Htr.
    rewrite <- Hcode, <- (focus_here s tid t Ht) in Hrun, Htr.
    eexists. split; [exact Hrun|]. split; [exact Htr|].
    rewrite client_focus. simpl stats.
    split; [intros fld; apply account_counters|].
    split; [intros o' Ho'; now apply account_other|].
    split; [exact Hl|].
    assert (Hreach' : reachable NewMiniClient cfg
              (focus s tid t
                 (withStats (account o (NumberFramed ms) (stats (client s)))
                    (client s)) k)).
    { destruct Hreach as (s0 & ls & Hboot & Hrun0).
      exists s0, (ls ++ map (Run tid) [ANone; ANone; ANone; ANone; ANone; ANone]).
      split; [exact Hboot|]. now rewrite run_app, Hrun0. }
    destruct (StatInv_balanced _ (StatInv_reachable _ _ Hreach'))
      as (Hfree' & _).
    apply Hfree'. exact Hl.
Qed.

End Statistics.

(** ** The gauge counts the flush attempts in progress *)

Lemma int32_add_idemp (a d : Z) : int32 (int32 a + d) = int32 (a + d).
Proof.
  unfold int32. f_equal.
  replace ((a + 2 ^ 31) mod 2 ^ 32 - 2 ^ 31 + d + 2 ^ 31)
    with ((a + 2 ^ 31) mod 2 ^ 32 + d) by lia.
  rewrite Zplus_mod_idemp_l. f_equal. lia.
Qed.


Lemma attempts_app (gs1 gs2 : list bool) :
  attempts (gs1 ++ gs2) = attempts gs1 + attempts gs2.
Proof. induction gs1 as [|g gs1 IH]; simpl; lia. Qed.

Lemma attempts_insert (gs : list bool) (i : nat) (g g' : bool) :
  gs !! i = Some g ->
  attempts (<[i := g']> gs) = attempts gs - b2z g + b2z g'.
Proof.
  revert i. induction gs as [|x gs IH]; intros i Hi; [discriminate|].
  destruct i as [|i]; simpl in *.
  - injection Hi as ->. lia.
  - rewrite (IH i Hi). lia.
Qed.

Lemma Concurrency_addCounter (fld : Counter) (n : Z) (m : Stats) :
  Concurrency (addCounter fld n m) = Concurrency m.
Proof. now destruct fld. Qed.

Lemma gaugeOk_statReq (g : bool) (o : Outcome) (ms : MiniStats) (k : Prog) :
  gaugeOk g k -> gaugeOk g (statReq o ms k).
Proof. intros H. now destruct o. Qed.

Lemma gaugeOk_syncWorker (b : Bundle) : gaugeOk false (syncWorker b).
Proof.
  unfold syncWorker. simpl. intros [err|code].
  - simpl. auto.
  - destruct (negb (code =? StatusNoContent)); simpl; auto.
Qed.

Lemma gaugeOk_maybeWork (k : Prog) :
  gaugeOk false k -> gaugeOk false (maybeWork k).
Proof.
  intros Hk. unfold maybeWork. simpl. left.
  split; [reflexivity|]. split; [reflexivity|]. intros b.
  destruct (NumberFramed (bMiniStats b) <=? 0); simpl.
  - right. auto.
  - split.
    + split; [apply gaugeOk_syncWorker|]. right. auto.
    + right. auto.
Qed.

Lemma gaugeOk_callProg (m : Client) (call : ApiCall) :
  gaugeOk false (callProg m call).
Proof.
  destruct call as [msg| |]; simpl; [|auto|reflexivity].
  split; [reflexivity|]. intros ms.
  destruct ((Buffered ms >=? RequestSizeTrigger m)
            || (timeTrigger m =? TimeTriggerImmediate)); [|reflexivity].
  now apply gaugeOk_maybeWork.
Qed.

Lemma gaugeOk_tickerLoop : gaugeOk false tickerLoop.
Proof.
  unfold tickerLoop. simpl. split; [|reflexivity].
  change (gaugeOk false (maybeWork Continue)). now apply gaugeOk_maybeWork.
Qed.

Lemma gaugeOk_supplyFrom (fuel : nat) (n i : Z) :
  gaugeOk false (supplyFrom fuel n i).
Proof.
  revert i. induction fuel as [|fuel IH]; intros i; simpl; [reflexivity|].
  destruct (i <? n); simpl; [|reflexivity].
  split; [apply IH | reflexivity].
Qed.

Lemma GaugeInv_crash (s : Sys) : GaugeInv s -> GaugeInv (crash s).
Proof. intros [gs []]. exists gs. now constructor. Qed.

Lemma GaugeInvAt_ext (gs : list bool) (s s' : Sys) :
  threads s' = threads s ->
  Concurrency (stats (client s')) = Concurrency (stats (client s)) ->
  GaugeInvAt gs s -> GaugeInvAt gs s'.
Proof.
  intros Ht Hg [Hlen Hth Hval].
  constructor; rewrite ?Ht, ?Hg; assumption.
Qed.

Lemma GaugeInvAt_thread (gs : list bool) (s : Sys) (tid : nat) (t : Thread)
    (p : Prog) (h : bool) :
  GaugeInvAt gs s ->
  threads s !! tid = Some t ->
  (forall g, gs !! tid = Some g -> gaugeOk g (code t) -> gaugeOk g p) ->
  GaugeInvAt gs (setThread tid (mkThread (role t) p (loop t) h) s).
Proof.
  intros [Hlen Hth Hval] Ht Hcode.
  constructor; simpl; try assumption.
  - now rewrite length_insert.
  - intros j tj g Hj Hg.
    destruct (lookup_insert_cases _ _ _ _ _ Hj) as [[-> ->]|[Hne Hj']].
    + destruct (Hth _ _ _ Ht Hg) as [Hc Hb]. split; [now apply Hcode|].
      exact Hb.
    + exact (Hth _ _ _ Hj' Hg).
Qed.

Lemma GaugeInvAt_spawn (gs : list bool) (s : Sys) (t : Thread) :
  GaugeInvAt gs s ->
  gaugeOk false (code t) ->
  (forall body, loop t = Some body -> gaugeOk false body) ->
  GaugeInvAt (gs ++ [false]) (spawn t s).
Proof.
  intros [Hlen Hth Hval] Hcode Hloop.
  constructor; simpl.
  - rewrite !length_app. simpl. lia.
  - intros j tj g Hj Hg.
    apply lookup_app_Some in Hj. destruct Hj as [Hj|[Hge Hj]].
    + rewrite lookup_app_l in Hg
        by (rewrite Hlen; now apply lookup_lt_Some in Hj).
      exact (Hth _ _ _ Hj Hg).
    + rewrite lookup_app_r in Hg by lia. rewrite Hlen in Hg.
      destruct (j - _)%nat; [|discriminate].
      injection Hj as <-. injection Hg as <-. auto.
  - rewrite attempts_app. simpl. now rewrite Z.add_0_r.
Qed.

(** The atomic add: the goroutine enters or leaves a flush attempt. *)
Lemma GaugeInv_atomic (s : Sys) (tid : nat) (t : Thread) (delta : Z)
    (k : Prog) :
  GaugeInv s ->
  threads s !! tid = Some t ->
  code t = AtomicAddInt32 delta k ->
  GaugeInv (setThread tid (goto k t)
              (setClient (withStats (addConcurrency delta (stats (client s)))
                            (client s)) s)).
Proof.
  intros [gs [Hlen Hth Hval]] Ht Hcode.
  assert (Hlt := lookup_lt_Some _ _ _ Ht).
  destruct (lookup_lt_is_Some_2 gs tid) as [g Hg]; [now rewrite Hlen|].
  destruct (Hth _ _ _ Ht Hg) as [Hc Hb]. rewrite Hcode in Hc. simpl in Hc.
  exists (<[tid := negb g]> gs). constructor; simpl.
  - now rewrite !length_insert.
  - intros j tj gj Hj Hgj.
    destruct (lookup_insert_cases _ _ _ _ _ Hj) as [[-> ->]|[Hne Hj']].
    + rewrite list_lookup_insert_eq in Hgj by now rewrite Hlen.
      injection Hgj as <-. simpl. split; [|exact Hb].
      destruct Hc as [(-> & _ & Hk)|(-> & _ & Hk)]; exact Hk.
    + rewrite list_lookup_insert_ne in Hgj by auto.
      exact (Hth _ _ _ Hj' Hgj).
  - rewrite Hval, int32_add_idemp, (attempts_insert _ _ _ _ Hg).
    f_equal. destruct Hc as [(-> & -> & _)|(-> & -> & _)]; simpl; lia.
Qed.

Ltac gauge_simple gs s0 Inv Ht :=
  exists gs;
  match goal with
  | |- GaugeInvAt _ (setThread ?tid (goto ?k ?t) ?s1) =>
      apply (GaugeInvAt_thread gs s1 tid t k (holds t));
      [ apply (GaugeInvAt_ext gs s0 s1 eq_refl);
        [ first [ reflexivity | apply Concurrency_addCounter ]
        | exact Inv ]
      | exact Ht
      | intros ? _;
        try match goal with H : code t = _ |- _ => rewrite H end;
        simpl; intros Hok; first [exact Hok | apply Hok | tauto] ]
  end.

Lemma GaugeInv_runThread (s s' : Sys) (tid : nat) (t : Thread) (a : Answer) :
  GaugeInv s ->
  threads s !! tid = Some t ->
  runThread s tid t a = Some s' ->
  GaugeInv s'.
Proof.
  intros HInv Ht Hrun. pose proof HInv as [gs Inv].
  unfold runThread in Hrun.
  destruct (code t) as
    [ r | | why | delta k | k | msg k | b k | k | kRecv kDefault
    | kSent kFinalize | kClosed kDefault | kTick kFinalize | z k | k | k
    | r p k | k | k | fld z k | k | k | k | k ] eqn:Hcode.
  - discriminate.
  - destruct (loop t) as [body|] eqn:Hloop; [|discriminate].
    injection Hrun as <-. exists gs.
    apply (GaugeInvAt_thread gs s tid t body (holds t) Inv Ht).
    intros g Hg. rewrite Hcode. simpl. intros ->.
    now apply (gauge_threads _ _ Inv _ _ _ Ht Hg).
  - injection Hrun as <-. now apply GaugeInv_crash.
  - injection Hrun as <-. now apply GaugeInv_atomic.
  - destruct a; try discriminate. destruct (is_uint64 _); [|discriminate].
    injection Hrun as <-. gauge_simple gs s Inv Ht.
  - destruct a; try discriminate.
    injection Hrun as <-. gauge_simple gs s Inv Ht.
  - destruct a; try discriminate.
    injection Hrun as <-. gauge_simple gs s Inv Ht.
  - injection Hrun as <-. gauge_simple gs s Inv Ht.
  - destruct (bucket (client s)) as [|sender rest] eqn:Hb.
    + injection Hrun as <-. gauge_simple gs s Inv Ht.
    + destruct (threads s !! sender) as [ts|] eqn:Hts; [|discriminate].
      destruct (code ts) eqn:Hcs; try discriminate.
      injection Hrun as <-. exists gs.
      assert (Hne : tid <> sender).
      { intros ->. rewrite Ht in Hts. injection Hts as ->. congruence. }
      apply (GaugeInvAt_thread gs _ tid t kRecv true).
      * apply (GaugeInvAt_thread gs _ sender ts _ false).
        -- now apply (GaugeInvAt_ext gs s).
        -- exact Hts.
        -- intros g _. rewrite Hcs. simpl. tauto.
      * simpl. now rewrite list_lookup_insert_ne by auto.
      * intros g _. rewrite Hcode. simpl. tauto.
  - destruct (finalize (client s)).
    + injection Hrun as <-. exists gs.
      apply (GaugeInvAt_thread gs s tid t kFinalize false Inv Ht).
      intros g _. rewrite Hcode. simpl. tauto.
    + destruct (bool_decide _); [discriminate|]. injection Hrun as <-.
      exists gs. apply (GaugeInvAt_thread gs _ tid t (code t) true).
      * now apply (GaugeInvAt_ext gs s).
      * exact Ht.
      * intros g _. exact id.
  - injection Hrun as <-.
    destruct (finalize (client s)); gauge_simple gs s Inv Ht.
  - assert (Htick : forall tk,
              GaugeInv (setThread tid (goto kTick t)
                          (setClient (withTicker tk (client s)) s))).
    { intros tk. gauge_simple gs s Inv Ht. }
    assert (Hfinal : GaugeInv (setThread tid (goto kFinalize t) s)).
    { gauge_simple gs s Inv Ht. }
    destruct (ticker (client s)) as [tk|];
      [destruct (tickPending tk)|]; destruct (finalize (client s));
      try discriminate;
      try (destruct a as [| | | |[|]]; try discriminate);
      injection Hrun as <-; first [apply Htick | apply Hfinal].
  - destruct (_ <? 0); injection Hrun as <-;
      [now apply GaugeInv_crash | gauge_simple gs s Inv Ht].
  - destruct (_ <? 0); injection Hrun as <-;
      [now apply GaugeInv_crash | gauge_simple gs s Inv Ht].
  - destruct (_ =? 0); [|discriminate]. injection Hrun as <-.
    gauge_simple gs s Inv Ht.
  - injection Hrun as <-. exists (gs ++ [false]).
    assert (Hlt := lookup_lt_Some _ _ _ Ht).
    destruct (lookup_lt_is_Some_2 gs tid) as [g Hg];
      [now rewrite (gauge_length _ _ Inv)|].
    destruct (gauge_threads _ _ Inv _ _ _ Ht Hg) as [Hc _].
    rewrite Hcode in Hc. simpl in Hc. destruct Hc as [Hp Hk].
    apply GaugeInvAt_spawn; [|exact Hp|discriminate].
    apply (GaugeInvAt_thread gs s tid t k false Inv Ht).
    intros g' Hg' _. rewrite Hg in Hg'. now injection Hg' as <-.
  - destruct (statLock (client s)) eqn:Hl; [discriminate|].
    injection Hrun as <-. gauge_simple gs s Inv Ht.
  - destruct (statLock (client s)); injection Hrun as <-;
      [gauge_simple gs s Inv Ht | now apply GaugeInv_crash].
  - injection Hrun as <-. gauge_simple gs s Inv Ht.
  - injection Hrun as <-. gauge_simple gs s Inv Ht.
  - injection Hrun as <-. gauge_simple gs s Inv Ht.
  - destruct (ticker (client s)) as [tk|]; injection Hrun as <-;
      [gauge_simple gs s Inv Ht | now apply GaugeInv_crash].
  - destruct (finalize (client s)); injection Hrun as <-;
      [now apply GaugeInv_crash | gauge_simple gs s Inv Ht].
Qed.

Lemma GaugeInv_step (s s' : Sys) (l : Label) :
  GaugeInv s -> step s l = Some s' -> GaugeInv s'.
Proof.
  intros Inv Hstep. unfold step in Hstep.
  destruct (crashed s); [discriminate|].
  destruct l as [call| |tid a].
  - injection Hstep as <-. destruct Inv as [gs Inv]. exists (gs ++ [false]).
    apply GaugeInvAt_spawn; [exact Inv | apply gaugeOk_callProg | discriminate].
  - destruct (ticker (client s)) as [tk|]; [|discriminate].
    destruct (tickStopped tk); [discriminate|]. injection Hstep as <-.
    destruct Inv as [gs Inv]. exists gs.
    now apply (GaugeInvAt_ext gs s).
  - destruct (threads s !! tid) as [t|] eqn:Ht; [|discriminate].
    eapply GaugeInv_runThread; eassumption.
Qed.

Lemma GaugeInv_run (ls : list Label) (s s' : Sys) :
  GaugeInv s -> run s ls = Some s' -> GaugeInv s'.
Proof.
  revert s. induction ls as [|l ls IH]; intros s Inv Hrun; simpl in Hrun.
  - now injection Hrun as <-.
  - destruct (step s l) as [s1|] eqn:Hstep; [|discriminate].
    apply (IH s1); [|assumption]. eapply GaugeInv_step; eassumption.
Qed.

Section Gauge.

Variable NewMiniClient : MiniConfig -> MiniClient + string.

Lemma GaugeInv_boot (cfg : Config) (s0 : Sys) :
  boot NewMiniClient cfg = Some s0 -> GaugeInv s0.
Proof.
  intros Hboot.
  destruct (boot_shape _ _ _ Hboot)
    as (m & rest & -> & Hst & _ & _ & _ & _ & Hrest).
  exists (false :: map (fun _ => false) rest). constructor; simpl.
  - now rewrite length_map.
  - intros j tj g Hj Hg. destruct j as [|j]; simpl in Hj, Hg.
    + injection Hj as <-. injection Hg as <-. simpl.
      split; [apply gaugeOk_supplyFrom | discriminate].
    + destruct Hrest as [(-> & _)|(-> & _)]; [discriminate|].
      destruct j; [|discriminate]. injection Hj as <-.
      injection Hg as <-. simpl.
      split; [apply gaugeOk_tickerLoop|].
      intros body [= <-]. apply gaugeOk_tickerLoop.
  - rewrite Hst. destruct Hrest as [(-> & _)|(-> & _)]; reflexivity.
Qed.

Lemma GaugeInv_reachable (cfg : Config) (s : Sys) :
  reachable NewMiniClient cfg s -> GaugeInv s.
Proof.
  intros (s0 & ls & Hboot & Hrun).
  eapply GaugeInv_run; [|eassumption]. eapply GaugeInv_boot; eassumption.
Qed.


End Gauge.

(** ** C3: Close and the ticker *)

Ltac run_cases H :=
  repeat match type of H with
         | Some _ = Some _ => injection H as <-
         | None = Some _ => discriminate H
         | context [match ?x with _ => _ end] => destruct x eqn:?
         end.

(** What construction has fixed stays fixed: no primitive writes the size
    threshold, the policy or the mini client, and none creates or drops the
    ticker. *)
Lemma runThread_frame (s s' : Sys) (tid : nat) (t : Thread) (a : Answer) :
  runThread s tid t a = Some s' ->
  RequestSizeTrigger (client s') = RequestSizeTrigger (client s) /\
  timeTrigger (client s') = timeTrigger (client s) /\
  c (client s') = c (client s) /\
  (ticker (client s') = None <-> ticker (client s) = None).
Proof.
  unfold runThread. intros Hrun. run_cases Hrun; simpl;
    repeat split; try congruence; try tauto.
Qed.

Lemma step_frame (s s' : Sys) (l : Label) :
  step s l = Some s' ->
  RequestSizeTrigger (client s') = RequestSizeTrigger (client s) /\
  timeTrigger (client s') = timeTrigger (client s) /\
  c (client s') = c (client s) /\
  (ticker (client s') = None <-> ticker (client s) = None).
Proof.
  unfold step. intros Hstep.
  destruct (crashed s); [discriminate|].
  destruct l as [call| |tid a].
  - injection Hstep as <-. simpl. tauto.
  - destruct (ticker (client s)) as [tk|] eqn:Htk; [|discriminate].
    destruct (tickStopped tk); [discriminate|]. injection Hstep as <-.
    simpl. repeat split; congruence.
  - destruct (threads s !! tid) as [t|]; [|discriminate].
    now apply (runThread_frame _ _ _ _ _ Hstep).
Qed.

Lemma run_frame (ls : list Label) (s s' : Sys) :
  run s ls = Some s' ->
  RequestSizeTrigger (client s') = RequestSizeTrigger (client s) /\
  timeTrigger (client s') = timeTrigger (client s) /\
  c (client s') = c (client s) /\
  (ticker (client s') = None <-> ticker (client s) = None).
Proof.
  revert s. induction ls as [|l ls IH]; intros s Hrun; simpl in Hrun.
  - injection Hrun as <-. tauto.
  - destruct (step s l) as [s1|] eqn:Hstep; [|discriminate].
    destruct (step_frame _ _ _ Hstep) as (H1 & H2 & H3 & H4).
    destruct (IH _ Hrun) as (G1 & G2 & G3 & G4).
    repeat split; try congruence; tauto.
Qed.

Section Shutdown.

Variable NewMiniClient : MiniConfig -> MiniClient + string.

(** A client has a ticker exactly when its policy is periodic, that is,
    when it was configured periodic with a positive period. *)
Lemma ticker_iff_periodic (cfg : Config) (s : Sys) :
  reachable NewMiniClient cfg s ->
  (ticker (client s) = None <-> timeTrigger (client s) <> TimeTriggerPeriodic)
  /\
  (timeTrigger (client s) = TimeTriggerPeriodic <->
   Config.TimeTrigger cfg = TimeTriggerPeriodic /\ 0 < Config.Period cfg).
Proof.
  intros (s0 & ls & Hboot & Hrun).
  destruct (run_frame _ _ _ Hrun) as (_ & Htt & _ & Htk).
  destruct (boot_shape _ _ _ Hboot)
    as (m & rest & -> & _ & _ & _ & _ & _ & Hrest).
  simpl in Htt, Htk. rewrite Htt.
  destruct Hrest as [(_ & Hnone & _ & Hnp & Hcfg)|(_ & Hsome & _ & Hp & Hc & Hpos)].
  - split; [tauto|]. split; [contradiction|].
    intros [Hc Hpos]. destruct Hcfg as [(_ & Hz & _)|(Hne & _)]; [lia|].
    contradiction.
  - split; [|tauto]. rewrite Htk, Hsome. split; [discriminate|].
    intros Hne. contradiction.
Qed.

(** C3.  On a client whose policy is not periodic (configured immediate or
    never, or periodic with a zero period) no ticker exists in any reachable
    state, and a call of [Close] panics at its first statement,
    [m.ticker.Stop()], on the nil ticker: the process is gone, the shutdown
    signal has not been closed and nothing has been waited for. *)
Theorem Close_panics_without_ticker (cfg : Config) (s : Sys) (tid : nat)
    (t : Thread) (k : Prog) :
  reachable NewMiniClient cfg s ->
  Config.TimeTrigger cfg <> TimeTriggerPeriodic \/ Config.Period cfg = 0 ->
  crashed s = false ->
  threads s !! tid = Some t ->
  code t = Close k ->
  ticker (client s) = None /\
  step s (Run tid ANone) = Some (crash s) /\
  crashed (crash s) = true /\
  finalize (client (crash s)) = finalize (client s) /\
  finalizeDone (client (crash s)) = finalizeDone (client s).
Proof.
  intros Hreach Hcfg Hc Ht Hcode.
  destruct (ticker_iff_periodic _ _ Hreach) as [Htk Hper].
  assert (Hnone : ticker (client s) = None).
  { apply Htk. intros Hp. apply Hper in Hp. destruct Hp as [Hp Hpos].
    destruct Hcfg as [Hne|Hz]; [contradiction | lia]. }
  split; [exact Hnone|]. split; [|repeat split].
  rewrite (step_run _ _ _ _ Hc Ht). unfold runThread.
  rewrite Hcode. unfold Close. now rewrite Hnone.
Qed.

End Shutdown.

(** ** The auxiliary variables do not steer the scheduler *)

Lemma erase_setThread (tid : nat) (t : Thread) (s : Sys) :
  erase (setThread tid t s) = setThread tid (eraseThread t) (erase s).
Proof. unfold erase, setThread. simpl. now rewrite list_fmap_insert. Qed.

Lemma erase_spawn (t : Thread) (s : Sys) :
  erase (spawn t s) = spawn (eraseThread t) (erase s).
Proof. unfold erase, spawn. simpl. now rewrite map_app. Qed.

Lemma erase_erase (s : Sys) : erase (erase s) = erase s.
Proof.
  unfold erase. simpl. f_equal. rewrite map_map. now apply map_ext.
Qed.

Lemma erase_lookup (s : Sys) (tid : nat) :
  threads (erase s) !! tid = eraseThread <$> threads s !! tid.
Proof. unfold erase. simpl. apply list_lookup_fmap. Qed.

Lemma erase_setClient (m : Client) (s : Sys) :
  erase (setClient m s) = setClient m (erase s).
Proof. reflexivity. Qed.

Lemma erase_crash (s : Sys) : erase (crash s) = crash (erase s).
Proof. reflexivity. Qed.

Lemma erase_countInsertion (fresh : bool) (s : Sys) :
  erase (countInsertion fresh s) = erase s.
Proof. reflexivity. Qed.

Ltac erase_norm :=
  repeat first
    [ rewrite erase_setThread | rewrite erase_spawn | rewrite erase_setClient
    | rewrite erase_crash | rewrite erase_countInsertion
    | rewrite erase_erase ].

(** One primitive run on the erased state is the erasure of the primitive
    run on the state. *)
Lemma runThread_erase (s : Sys) (tid : nat) (t : Thread) (a : Answer) :
  erase <$> runThread (erase s) tid (eraseThread t) a =
  erase <$> runThread s tid t a.
Proof.
  unfold runThread.
  change (code (eraseThread t)) with (code t).
  change (loop (eraseThread t)) with (loop t).
  change (client (erase s)) with (client s).
  destruct (code t) as
    [ r | | why | delta k | k | msg k | b k | k | kRecv kDefault
    | kSent kFinalize | kClosed kDefault | kTick kFinalize | z k | k | k
    | r p k | k | k | fld z k | k | k | k | k ] eqn:Hcode.
  - reflexivity.
  - destruct (loop t); simpl; [erase_norm|]; reflexivity.
  - simpl. erase_norm. reflexivity.
  - simpl. erase_norm. reflexivity.
  - destruct a; try reflexivity. destruct (is_uint64 _); [|reflexivity].
    simpl. erase_norm. reflexivity.
  - destruct a; try reflexivity. simpl. erase_norm. reflexivity.
  - destruct a; try reflexivity. simpl. erase_norm. reflexivity.
  - simpl. erase_norm. reflexivity.
  - destruct (bucket (client s)) as [|sender rest].
    + simpl. erase_norm. reflexivity.
    + rewrite erase_lookup.
      destruct (threads s !! sender) as [ts|]; [|reflexivity].
      simpl. destruct (code ts); try reflexivity.
      simpl. erase_norm. reflexivity.
  - destruct (finalize (client s)).
    + simpl. erase_norm. reflexivity.
    + destruct (bool_decide _); [reflexivity|].
      simpl. erase_norm. reflexivity.
  - simpl. erase_norm. reflexivity.
  - destruct (ticker (client s)) as [tk|];
      [destruct (tickPending tk)|]; destruct (finalize (client s));
      try reflexivity;
      try (destruct a as [| | | |[|]]; try reflexivity);
      simpl; erase_norm; reflexivity.
  - destruct (_ <? 0); simpl; erase_norm; reflexivity.
  - destruct (_ <? 0); simpl; erase_norm; reflexivity.
  - destruct (_ =? 0); [|reflexivity]. simpl. erase_norm. reflexivity.
  - simpl. erase_norm. reflexivity.
  - destruct (statLock (client s)); [reflexivity|].
    simpl. erase_norm. reflexivity.
  - destruct (statLock (client s)); simpl; erase_norm; reflexivity.
  - simpl. erase_norm. reflexivity.
  - simpl. erase_norm. reflexivity.
  - simpl. erase_norm. reflexivity.
  - destruct (ticker (client s)); simpl; erase_norm; reflexivity.
  - destruct (finalize (client s)); simpl; erase_norm; reflexivity.
Qed.

(** Two states that differ in their auxiliary variables only take the same
    steps, to states that again differ in them only. *)
Lemma step_erase (s1 s2 : Sys) (l : Label) :
  erase s1 = erase s2 ->
  erase <$> step s1 l = erase <$> step s2 l.
Proof.
  assert (H : forall s, erase <$> step s l = erase <$> step (erase s) l).
  { intros s. unfold step. change (crashed (erase s)) with (crashed s).
    destruct (crashed s); [reflexivity|].
    destruct l as [call| |tid a].
    - simpl. erase_norm. reflexivity.
    - change (client (erase s)) with (client s).
      destruct (ticker (client s)) as [tk|]; [|reflexivity].
      destruct (tickStopped tk); [reflexivity|].
      simpl. erase_norm. reflexivity.
    - rewrite erase_lookup.
      destruct (threads s !! tid) as [t|]; [|reflexivity].
      simpl. symmetry. apply runThread_erase. }
  intros Heq. now rewrite (H s1), (H s2), Heq.
Qed.

(** ** The wait group counts the goroutines of the client *)

Lemma wgOk_nonneg (r : Role) (w : Z) (p : Prog) : wgOk r w p -> 0 <= w.
Proof.
  assert (0 <= selfRegistered r) by (destruct r; simpl; lia).
  destruct p; simpl; intros Hok; try lia; destruct Hok; lia.
Qed.

Lemma sumZ_app (ws1 ws2 : list Z) : sumZ (ws1 ++ ws2) = sumZ ws1 + sumZ ws2.
Proof. induction ws1 as [|w ws1 IH]; simpl; lia. Qed.

Lemma sumZ_insert (ws : list Z) (i : nat) (w w' : Z) :
  ws !! i = Some w -> sumZ (<[i := w']> ws) = sumZ ws - w + w'.
Proof.
  revert i. induction ws as [|x ws IH]; intros i Hi; [discriminate|].
  destruct i as [|i]; simpl in *.
  - injection Hi as ->. lia.
  - rewrite (IH i Hi). lia.
Qed.

Lemma wgOk_statReq (r : Role) (w : Z) (o : Outcome) (ms : MiniStats)
    (k : Prog) :
  selfRegistered r <= w -> wgOk r w k -> wgOk r w (statReq o ms k).
Proof. intros Hw H. destruct o; simpl; tauto. Qed.

Lemma wgOk_syncWorker (b : Bundle) : wgOk Worker 1 (syncWorker b).
Proof.
  unfold syncWorker. simpl. split; [lia|]. intros [err|code].
  - simpl. repeat split; lia.
  - destruct (negb (code =? StatusNoContent)); simpl; repeat split; lia.
Qed.

Lemma wgOk_maybeWork (r : Role) (w : Z) (k : Prog) :
  selfRegistered r <= w -> wgOk r w k -> wgOk r w (maybeWork k).
Proof.
  intros Hw Hk. unfold maybeWork. simpl. split; [exact Hw|].
  split; [exact Hw|]. intros b.
  destruct (NumberFramed (bMiniStats b) <=? 0); simpl; [tauto|].
  split; [exact Hw|]. split.
  - split; [exact Hw|]. split; [lia|]. split; [discriminate|].
    split; [lia|]. split; [apply wgOk_syncWorker|].
    replace (w + 1 - 1) with w by lia. tauto.
  - tauto.
Qed.

Lemma wgOk_callProg (m : Client) (call : ApiCall) :
  wgOk Caller 0 (callProg m call).
Proof.
  destruct call as [msg| |]; simpl.
  - split; [lia|]. split; [reflexivity|]. split; [lia|]. intros ms.
    destruct ((Buffered ms >=? RequestSizeTrigger m)
              || (timeTrigger m =? TimeTriggerImmediate)); [|reflexivity].
    apply wgOk_maybeWork; simpl; [lia | reflexivity].
  - repeat split; lia.
  - repeat split; lia.
Qed.

Lemma wgOk_tickerLoop : wgOk TickerTask 1 tickerLoop.
Proof.
  unfold tickerLoop. simpl. split; [lia|]. split; [|tauto].
  change (wgOk TickerTask 1 (maybeWork Continue)).
  apply wgOk_maybeWork; simpl; [lia | reflexivity].
Qed.

Lemma wgOk_supplyFrom (fuel : nat) (n i : Z) :
  wgOk Supplier 1 (supplyFrom fuel n i).
Proof.
  revert i. induction fuel as [|fuel IH]; intros i; simpl; [tauto|].
  destruct (i <? n); simpl; [|tauto].
  split; [lia|]. split; [apply IH | tauto].
Qed.

Lemma WgInv_crash (s : Sys) : WgInv s -> WgInv (crash s).
Proof. intros [ws []]. exists ws. now constructor. Qed.

Lemma WgInvAt_ext (ws : list Z) (s s' : Sys) :
  threads s' = threads s ->
  finalizeDone (client s') = finalizeDone (client s) ->
  WgInvAt ws s -> WgInvAt ws s'.
Proof.
  intros Ht Hg [Hlen Hth Hval].
  constructor; rewrite ?Ht, ?Hg; assumption.
Qed.

Lemma WgInvAt_thread (ws : list Z) (s : Sys) (tid : nat) (t : Thread)
    (p : Prog) (h : bool) :
  WgInvAt ws s ->
  threads s !! tid = Some t ->
  (forall w, ws !! tid = Some w ->
             wgOk (role t) w (code t) -> wgOk (role t) w p) ->
  WgInvAt ws (setThread tid (mkThread (role t) p (loop t) h) s).
Proof.
  intros [Hlen Hth Hval] Ht Hcode.
  constructor; simpl; try assumption.
  - now rewrite length_insert.
  - intros j tj w Hj Hw.
    destruct (lookup_insert_cases _ _ _ _ _ Hj) as [[-> ->]|[Hne Hj']].
    + destruct (Hth _ _ _ Ht Hw) as [Hc Hb]. split; [now apply Hcode|].
      exact Hb.
    + exact (Hth _ _ _ Hj' Hw).
Qed.

(** The goroutine changes the registrations it answers for from [w] to
    [w'], and the counter by as much. *)
Lemma WgInvAt_move (ws : list Z) (s : Sys) (tid : nat) (t : Thread)
    (p : Prog) (w w' : Z) :
  WgInvAt ws s ->
  threads s !! tid = Some t ->
  ws !! tid = Some w ->
  wgOk (role t) w' p ->
  WgInvAt (<[tid := w']> ws)
    (setThread tid (goto p t)
       (setClient (withFinalizeDone (finalizeDone (client s) - w + w')
                     (client s)) s)).
Proof.
  intros [Hlen Hth Hval] Ht Hw Hp.
  assert (Hlt := lookup_lt_Some _ _ _ Ht).
  constructor; simpl.
  - now rewrite !length_insert.
  - intros j tj wj Hj Hwj.
    destruct (lookup_insert_cases _ _ _ _ _ Hj) as [[-> ->]|[Hne Hj']].
    + rewrite list_lookup_insert_eq in Hwj by now rewrite Hlen.
      injection Hwj as <-. simpl. split; [exact Hp|].
      exact (proj2 (Hth _ _ _ Ht Hw)).
    + rewrite list_lookup_insert_ne in Hwj by auto.
      exact (Hth _ _ _ Hj' Hwj).
  - rewrite (sumZ_insert _ _ _ _ Hw), Hval. reflexivity.
Qed.

Lemma WgInvAt_spawn (ws : list Z) (s : Sys) (t : Thread) :
  WgInvAt ws s ->
  wgOk (role t) 0 (code t) ->
  (forall body, loop t = Some body -> wgOk (role t) 1 body) ->
  WgInvAt (ws ++ [0]) (spawn t s).
Proof.
  intros [Hlen Hth Hval] Hcode Hloop.
  constructor; simpl.
  - rewrite !length_app. simpl. lia.
  - intros j tj g Hj Hg.
    apply lookup_app_Some in Hj. destruct Hj as [Hj|[Hge Hj]].
    + rewrite lookup_app_l in Hg
        by (rewrite Hlen; now apply lookup_lt_Some in Hj).
      exact (Hth _ _ _ Hj Hg).
    + rewrite lookup_app_r in Hg by lia. rewrite Hlen in Hg.
      destruct (j - _)%nat; [|discriminate].
      injection Hj as <-. injection Hg as <-. auto.
  - rewrite sumZ_app. simpl. lia.
Qed.

(** [go]: the registration made for the new goroutine goes with it. *)
Lemma WgInvAt_go (ws : list Z) (s : Sys) (tid : nat) (t : Thread) (r : Role)
    (p k : Prog) (w : Z) :
  WgInvAt ws s ->
  threads s !! tid = Some t ->
  ws !! tid = Some w ->
  wgOk r 1 p ->
  wgOk (role t) (w - 1) k ->
  WgInvAt (<[tid := w - 1]> ws ++ [1])
    (spawn (mkThread r p None (holds t))
       (setThread tid (withHolds false (goto k t)) s)).
Proof.
  intros [Hlen Hth Hval] Ht Hw Hp Hk.
  assert (Hlt := lookup_lt_Some _ _ _ Ht).
  constructor; simpl.
  - rewrite !length_app, !length_insert. simpl. lia.
  - intros j tj wj Hj Hwj.
    apply lookup_app_Some in Hj. destruct Hj as [Hj|[Hge Hj]].
    + rewrite lookup_app_l in Hwj
        by (rewrite length_insert, Hlen; apply lookup_lt_Some in Hj;
            now rewrite length_insert in Hj).
      destruct (lookup_insert_cases _ _ _ _ _ Hj) as [[-> ->]|[Hne Hj']].
      * rewrite list_lookup_insert_eq in Hwj by now rewrite Hlen.
        injection Hwj as <-. simpl. split; [exact Hk|].
        exact (proj2 (Hth _ _ _ Ht Hw)).
      * rewrite list_lookup_insert_ne in Hwj by auto.
        exact (Hth _ _ _ Hj' Hwj).
    + rewrite length_insert in Hge, Hj.
      rewrite lookup_app_r in Hwj by (rewrite length_insert; lia).
      rewrite length_insert, Hlen in Hwj.
      destruct (j - _)%nat; [|discriminate].
      injection Hj as <-. injection Hwj as <-. simpl.
      split; [exact Hp | discriminate].
  - rewrite sumZ_app, (sumZ_insert _ _ _ _ Hw), Hval. simpl. lia.
Qed.

Lemma sumZ_lookup (ws : list Z) (i : nat) (w : Z) :
  (forall j x, ws !! j = Some x -> 0 <= x) ->
  ws !! i = Some w -> w <= sumZ ws.
Proof.
  revert i. induction ws as [|x ws IH]; intros i Hpos Hi; [discriminate|].
  assert (0 <= sumZ ws).
  { clear IH Hi. induction ws as [|y ws IH]; simpl; [lia|].
    assert (0 <= y) by exact (Hpos 1%nat y eq_refl).
    assert (0 <= x) by exact (Hpos 0%nat x eq_refl).
    enough (0 <= sumZ ws) by lia. apply IH.
    intros [|j] z Hz; [injection Hz as <-; assumption|].
    exact (Hpos (S (S j)) z Hz). }
  assert (0 <= x) by exact (Hpos 0%nat x eq_refl).
  destruct i as [|i]; simpl in *.
  - injection Hi as ->. lia.
  - enough (w <= sumZ ws) by lia. apply (IH i); [|exact Hi].
    intros j z Hz. exact (Hpos (S j) z Hz).
Qed.

Lemma WgInvAt_weights (ws : list Z) (s : Sys) :
  WgInvAt ws s -> forall j x, ws !! j = Some x -> 0 <= x.
Proof.
  intros [Hlen Hth Hval] j x Hx.
  destruct (lookup_lt_is_Some_2 (threads s) j) as [t Ht].
  { rewrite <- Hlen. now apply lookup_lt_Some in Hx. }
  exact (wgOk_nonneg _ _ _ (proj1 (Hth _ _ _ Ht Hx))).
Qed.

Lemma WgInvAt_weight (ws : list Z) (s : Sys) (tid : nat) (t : Thread) :
  WgInvAt ws s ->
  threads s !! tid = Some t ->
  exists w, ws !! tid = Some w /\ wgOk (role t) w (code t) /\
            w <= finalizeDone (client s).
Proof.
  intros Inv Ht.
  destruct (lookup_lt_is_Some_2 ws tid) as [w Hw].
  { rewrite (wg_length _ _ Inv). now apply lookup_lt_Some in Ht. }
  exists w. split; [exact Hw|].
  split; [exact (proj1 (wg_threads _ _ Inv _ _ _ Ht Hw))|].
  rewrite (wg_value _ _ Inv).
  exact (sumZ_lookup _ _ _ (WgInvAt_weights _ _ Inv) Hw).
Qed.

Ltac wg_simple ws s0 Inv Ht :=
  exists ws;
  match goal with
  | |- WgInvAt _ (setThread ?tid (goto ?k ?t) ?s1) =>
      apply (WgInvAt_thread ws s1 tid t k (holds t));
      [ apply (WgInvAt_ext ws s0 s1 eq_refl eq_refl); exact Inv
      | exact Ht
      | intros ? _;
        try match goal with H : code t = _ |- _ => rewrite H end;
        simpl;
        let H := fresh in
        intros H; first [exact H | apply H | tauto] ]
  end.

Lemma WgInv_runThread (s s' : Sys) (tid : nat) (t : Thread) (a : Answer) :
  WgInv s ->
  threads s !! tid = Some t ->
  runThread s tid t a = Some s' ->
  WgInv s'.
Proof.
  intros HInv Ht Hrun. pose proof HInv as [ws Inv].
  destruct (WgInvAt_weight _ _ _ _ Inv Ht) as (w & Hw & Hok & Hle).
  unfold runThread in Hrun.
  destruct (code t) as
    [ r | | why | delta k | k | msg k | b k | k | kRecv kDefault
    | kSent kFinalize | kClosed kDefault | kTick kFinalize | z k | k | k
    | r p k | k | k | fld z k | k | k | k | k ] eqn:Hcode.
  - discriminate.
  - destruct (loop t) as [body|] eqn:Hloop; [|discriminate].
    injection Hrun as <-. exists ws.
    apply (WgInvAt_thread ws s tid t body (holds t) Inv Ht).
    intros g Hg. rewrite Hcode. simpl. intros ->.
    now apply (wg_threads _ _ Inv _ _ _ Ht Hg).
  - injection Hrun as <-. now apply WgInv_crash.
  - injection Hrun as <-. wg_simple ws s Inv Ht.
  - destruct a; try discriminate. destruct (is_uint64 _); [|discriminate].
    injection Hrun as <-. wg_simple ws s Inv Ht.
  - destruct a; try discriminate.
    injection Hrun as <-. wg_simple ws s Inv Ht.
  - destruct a; try discriminate.
    injection Hrun as <-. wg_simple ws s Inv Ht.
  - injection Hrun as <-. wg_simple ws s Inv Ht.
  - destruct (bucket (client s)) as [|sender rest] eqn:Hb.
    + injection Hrun as <-. wg_simple ws s Inv Ht.
    + destruct (threads s !! sender) as [ts|] eqn:Hts; [|discriminate].
      destruct (code ts) eqn:Hcs; try discriminate.
      injection Hrun as <-. exists ws.
      assert (Hne : tid <> sender).
      { intros ->. rewrite Ht in Hts. injection Hts as ->. congruence. }
      apply (WgInvAt_thread ws _ tid t kRecv true).
      * apply (WgInvAt_thread ws _ sender ts _ false).
        -- now apply (WgInvAt_ext ws s).
        -- exact Hts.
        -- intros g _. rewrite Hcs. simpl. tauto.
      * simpl. now rewrite list_lookup_insert_ne by auto.
      * intros g _. rewrite Hcode. simpl. tauto.
  - destruct (finalize (client s)).
    + injection Hrun as <-. exists ws.
      apply (WgInvAt_thread ws s tid t kFinalize false Inv Ht).
      intros g _. rewrite Hcode. simpl. tauto.
    + destruct (bool_decide _); [discriminate|]. injection Hrun as <-.
      exists ws. apply (WgInvAt_thread ws _ tid t (code t) true).
      * now apply (WgInvAt_ext ws s).
      * exact Ht.
      * intros g _. exact id.
  - injection Hrun as <-.
    destruct (finalize (client s)); wg_simple ws s Inv Ht.
  - assert (Htick : forall tk,
              WgInv (setThread tid (goto kTick t)
                       (setClient (withTicker tk (client s)) s))).
    { intros tk. wg_simple ws s Inv Ht. }
    assert (Hfinal : WgInv (setThread tid (goto kFinalize t) s)).
    { wg_simple ws s Inv Ht. }
    destruct (ticker (client s)) as [tk|];
      [destruct (tickPending tk)|]; destruct (finalize (client s));
      try discriminate;
      try (destruct a as [| | | |[|]]; try discriminate);
      injection Hrun as <-; first [apply Htick | apply Hfinal].
  - destruct (_ <? 0); injection Hrun as <-; [now apply WgInv_crash|].
    simpl in Hok. exists (<[tid := w + z]> ws).
    replace (finalizeDone (client s) + z)
      with (finalizeDone (client s) - w + (w + z)) by lia.
    apply (WgInvAt_move ws s tid t k w (w + z) Inv Ht Hw). tauto.
  - destruct (_ <? 0); injection Hrun as <-; [now apply WgInv_crash|].
    simpl in Hok. destruct Hok as [-> ->]. exists (<[tid := 0]> ws).
    replace (finalizeDone (client s) - 1)
      with (finalizeDone (client s) - 1 + 0) by lia.
    now apply (WgInvAt_move ws s tid t (Return RVoid) 1 0 Inv Ht Hw).
  - destruct (_ =? 0); [|discriminate]. injection Hrun as <-.
    wg_simple ws s Inv Ht.
  - injection Hrun as <-. simpl in Hok.
    destruct Hok as (Hr & Hge & Hp & Hk).
    exists (<[tid := w - 1]> ws ++ [1]).
    now apply (WgInvAt_go ws s tid t r p k w).
  - destruct (statLock (client s)) eqn:Hl; [discriminate|].
    injection Hrun as <-. wg_simple ws s Inv Ht.
  - destruct (statLock (client s)); injection Hrun as <-;
      [wg_simple ws s Inv Ht | now apply WgInv_crash].
  - injection Hrun as <-. wg_simple ws s Inv Ht.
  - injection Hrun as <-. wg_simple ws s Inv Ht.
  - injection Hrun as <-. wg_simple ws s Inv Ht.
  - destruct (ticker (client s)) as [tk|]; injection Hrun as <-;
      [wg_simple ws s Inv Ht | now apply WgInv_crash].
  - destruct (finalize (client s)); injection Hrun as <-;
      [now apply WgInv_crash | wg_simple ws s Inv Ht].
Qed.

Lemma WgInv_step (s s' : Sys) (l : Label) :
  WgInv s -> step s l = Some s' -> WgInv s'.
Proof.
  intros Inv Hstep. unfold step in Hstep.
  destruct (crashed s); [discriminate|].
  destruct l as [call| |tid a].
  - injection Hstep as <-. destruct Inv as [ws Inv]. exists (ws ++ [0]).
    apply WgInvAt_spawn; [exact Inv | apply wgOk_callProg | discriminate].
  - destruct (ticker (client s)) as [tk|]; [|discriminate].
    destruct (tickStopped tk); [discriminate|]. injection Hstep as <-.
    destruct Inv as [ws Inv]. exists ws.
    now apply (WgInvAt_ext ws s).
  - destruct (threads s !! tid) as [t|] eqn:Ht; [|discriminate].
    eapply WgInv_runThread; eassumption.
Qed.

Lemma WgInv_run (ls : list Label) (s s' : Sys) :
  WgInv s -> run s ls = Some s' -> WgInv s'.
Proof.
  revert s. induction ls as [|l ls IH]; intros s Inv Hrun; simpl in Hrun.
  - now injection Hrun as <-.
  - destruct (step s l) as [s1|] eqn:Hstep; [|discriminate].
    apply (IH s1); [|assumption]. eapply WgInv_step; eassumption.
Qed.

Lemma wgOk_running (r : Role) (w : Z) (p : Prog) :
  wgOk r w p -> b2z (negb (isCaller r) && negb (finished p)) <= w.
Proof.
  intros Hok. pose proof (wgOk_nonneg _ _ _ Hok) as Hw.
  destruct r; simpl; try exact Hw;
    destruct p; simpl in *; try lia; try (destruct Hok; lia).
Qed.

Lemma tasksRunning_le (ts : list Thread) (ws : list Z) :
  length ws = length ts ->
  (forall tid t w, ts !! tid = Some t -> ws !! tid = Some w ->
                   wgOk (role t) w (code t)) ->
  0 <= tasksRunning ts <= sumZ ws.
Proof.
  revert ws. induction ts as [|t ts IH]; intros ws Hlen Hok.
  - destruct ws; [simpl; lia | discriminate].
  - destruct ws as [|w ws]; [discriminate|]. simpl.
    pose proof (wgOk_running _ _ _ (Hok 0%nat t w eq_refl eq_refl)) as H0.
    assert (H1 : 0 <= tasksRunning ts <= sumZ ws).
    { apply IH; [simpl in Hlen; lia|].
      intros tid t' w' Ht' Hw'. exact (Hok (S tid) t' w' Ht' Hw'). }
    destruct (negb (isCaller (role t)) && negb (finished (code t)));
      simpl in *; lia.
Qed.

Section WaitGroup.

Variable NewMiniClient : MiniConfig -> MiniClient + string.

Lemma WgInv_boot (cfg : Config) (s0 : Sys) :
  boot NewMiniClient cfg = Some s0 -> WgInv s0.
Proof.
  intros Hboot.
  destruct (boot_shape _ _ _ Hboot)
    as (m & rest & -> & _ & _ & _ & _ & _ & Hrest).
  exists (1 :: map (fun _ => 1) rest). constructor; simpl.
  - now rewrite length_map.
  - intros j tj g Hj Hg. destruct j as [|j]; simpl in Hj, Hg.
    + injection Hj as <-. injection Hg as <-. simpl.
      split; [apply wgOk_supplyFrom | discriminate].
    + destruct Hrest as [(-> & _)|(-> & _)]; [discriminate|].
      destruct j; [|discriminate]. injection Hj as <-.
      injection Hg as <-. simpl.
      split; [apply wgOk_tickerLoop|].
      intros body [= <-]. apply wgOk_tickerLoop.
  - destruct Hrest as [(-> & _ & -> & _)|(-> & _ & -> & _)]; reflexivity.
Qed.

Lemma WgInv_reachable (cfg : Config) (s : Sys) :
  reachable NewMiniClient cfg s -> WgInv s.
Proof.
  intros (s0 & ls & Hboot & Hrun).
  eapply WgInv_run; [|eassumption]. eapply WgInv_boot; eassumption.
Qed.

(** The wait group never undercounts: every goroutine the client has started
    and that has not returned is registered, so the counter is at least
    their number; when it reads zero, the moment [Wait] returns, the supply
    goroutine, the ticker goroutine and every delivery task started so far
    have returned.  [Wait] goes on exactly then. *)
Theorem waitgroup_counts_tasks (cfg : Config) (s : Sys) :
  reachable NewMiniClient cfg s ->
  (0 <= tasksRunning (threads s) <= finalizeDone (client s)) /\
  (finalizeDone (client s) = 0 ->
   forall tid t, threads s !! tid = Some t -> role t <> Caller ->
                 exists r, code t = Return r) /\
  (forall tid t k a,
     crashed s = false ->
     threads s !! tid = Some t ->
     code t = WgWait k ->
     (finalizeDone (client s) = 0 ->
      step s (Run tid a) = Some (setThread tid (goto k t) s)) /\
     (finalizeDone (client s) <> 0 -> step s (Run tid a) = None)).
Proof.
  intros Hreach. destruct (WgInv_reachable _ _ Hreach) as [ws Inv].
  split; [|split].
  - rewrite (wg_value _ _ Inv).
    apply tasksRunning_le; [exact (wg_length _ _ Inv)|].
    intros tid t w Ht Hw. exact (proj1 (wg_threads _ _ Inv _ _ _ Ht Hw)).
  - intros Hz tid t Ht Hr.
    destruct (WgInvAt_weight _ _ _ _ Inv Ht) as (w & _ & Hok & Hle).
    pose proof (wgOk_running _ _ _ Hok) as Hrun.
    pose proof (wgOk_nonneg _ _ _ Hok).
    destruct (code t); try (destruct (role t); simpl in Hrun; try lia; congruence).
    now eexists.
  - intros tid t k a Hc Ht Hcode.
    rewrite (step_run _ _ _ _ Hc Ht). unfold runThread. rewrite Hcode.
    split; intros Hz.
    + now rewrite Hz.
    + destruct (Z.eqb_spec (finalizeDone (client s)) 0); [contradiction|].
      reflexivity.
Qed.

End WaitGroup.

(** ** The statistics lock excludes *)

Lemma runThread_counters (s s' : Sys) (tid : nat) (t : Thread) (a : Answer) :
  runThread s tid t a = Some s' ->
  inSection (code t) = true \/
  forall fld, getCounter fld (stats (client s'))
              = getCounter fld (stats (client s)).
Proof.
  unfold runThread. intros Hrun.
  destruct (code t) eqn:Hcode; simpl; try (now left);
    right; run_cases Hrun; simpl; reflexivity.
Qed.

Section Lock.

Variable NewMiniClient : MiniConfig -> MiniClient + string.

(** At most one goroutine at a time is inside a critical section of
    [statLock], and the lock is held while it is; only that goroutine
    changes a counter; and [Unlock] always finds the lock held. *)
Theorem statLock_excludes (cfg : Config) (s : Sys) :
  reachable NewMiniClient cfg s ->
  (forall i j ti tj,
     threads s !! i = Some ti -> threads s !! j = Some tj ->
     inSection (code ti) = true -> inSection (code tj) = true ->
     i = j /\ statLock (client s) = true) /\
  (forall l s' fld,
     step s l = Some s' ->
     getCounter fld (stats (client s')) <> getCounter fld (stats (client s)) ->
     exists tid a t,
       l = Run tid a /\ threads s !! tid = Some t /\
       inSection (code t) = true) /\
  (forall tid t k a,
     crashed s = false ->
     threads s !! tid = Some t ->
     code t = Unlock k ->
     step s (Run tid a) =
       Some (setThread tid (goto k t)
               (setClient (withStatLock false (client s)) s))).
Proof.
  intros Hreach. destruct (StatInv_reachable _ _ _ Hreach) as [own Inv].
  assert (Hin : forall i ti, threads s !! i = Some ti ->
                  inSection (code ti) = true ->
                  exists d, own = Some (i, d)).
  { intros i ti Hi Hsec.
    destruct (stat_threads _ _ Inv _ _ Hi) as [Hok _].
    destruct (code ti); try discriminate; simpl in Hok.
    - destruct Hok as [(d & Hd & _) _]. apply sectionOf_Some in Hd. eauto.
    - destruct Hok as (d & Hd & _). apply sectionOf_Some in Hd. eauto.
    - destruct Hok as [(d & Hd & _) _]. apply sectionOf_Some in Hd. eauto. }
  split; [|split].
  - intros i j ti tj Hi Hj Hsi Hsj.
    destruct (Hin _ _ Hi Hsi) as [d Hd].
    destruct (Hin _ _ Hj Hsj) as [d' Hd'].
    split; [congruence|]. rewrite (stat_lock _ _ Inv), Hd. reflexivity.
  - intros l s' fld Hstep Hne. unfold step in Hstep.
    destruct (crashed s); [discriminate|].
    destruct l as [call| |tid a].
    + injection Hstep as <-. now contradiction Hne.
    + destruct (ticker (client s)) as [tk|]; [|discriminate].
      destruct (tickStopped tk); [discriminate|].
      injection Hstep as <-. now contradiction Hne.
    + destruct (threads s !! tid) as [t|] eqn:Ht; [|discriminate].
      destruct (runThread_counters _ _ _ _ _ Hstep) as [Hsec|Hsame].
      * now exists tid, a, t.
      * now contradiction Hne.
  - intros tid t k a Hc Ht Hcode.
    destruct (Hin tid t Ht) as [d Hd]; [now rewrite Hcode|].
    rewrite (step_run _ _ _ _ Hc Ht). unfold runThread. rewrite Hcode.
    now rewrite (stat_lock _ _ Inv), Hd.
Qed.

End Lock.

(** ** Panics come from Close alone *)

Lemma closeFree_closing (p : Prog) : closeFree p -> closing p = false.
Proof. destruct p; simpl; tauto. Qed.


Lemma closers_insert (ts : list Thread) (i : nat) (t t' : Thread) :
  ts !! i = Some t ->
  closers (<[i := t']> ts)
  = closers ts - b2z (closing (code t)) + b2z (closing (code t')).
Proof.
  revert i. induction ts as [|x ts IH]; intros i Hi; [discriminate|].
  destruct i as [|i]; simpl in *.
  - injection Hi as ->. lia.
  - rewrite (IH i Hi). lia.
Qed.


Lemma closeFree_statReq (o : Outcome) (ms : MiniStats) (k : Prog) :
  closeFree k -> closeFree (statReq o ms k).
Proof. intros H. now destruct o. Qed.







Lemma CloseInv_ext (K : Z) (s s' : Sys) :
  threads s' = threads s ->
  finalize (client s') = finalize (client s) ->
  CloseInv K s -> CloseInv K s'.
Proof.
  intros Ht Hf [Hth Hcnt]. constructor; rewrite ?Ht, ?Hf; assumption.
Qed.

(** Goroutine [tid], away from [Close], moves on. *)
Lemma CloseInv_thread (K : Z) (s : Sys) (tid : nat) (t : Thread) (p : Prog)
    (h : bool) :
  CloseInv K s ->
  threads s !! tid = Some t ->
  closeFree (code t) ->
  closeFree p ->
  CloseInv K (setThread tid (mkThread (role t) p (loop t) h) s).
Proof.
  intros [Hth Hcnt] Ht Hfree Hp. constructor; simpl.
  - intros j tj Hj.
    destruct (lookup_insert_cases _ _ _ _ _ Hj) as [[-> ->]|[Hne Hj']].
    + simpl. split; [now left|]. exact (proj2 (Hth _ _ Ht)).
    + exact (Hth _ _ Hj').
  - rewrite (closers_insert _ _ _ _ Ht). simpl.
    rewrite (closeFree_closing _ Hfree), (closeFree_closing _ Hp). simpl.
    lia.
Qed.


Ltac close_simple s0 Inv Ht Hfree :=
  match goal with
  | |- CloseInv _ (setThread ?tid (goto ?k ?t) ?s1) =>
      apply (CloseInv_thread _ s1 tid t k (holds t));
      [ apply (CloseInv_ext _ s0 s1 eq_refl eq_refl); exact Inv
      | exact Ht
      | exact Hfree
      | first [exact Hfree | apply Hfree | tauto] ]
  end.










Section Panics.

Variable NewMiniClient : MiniConfig -> MiniClient + string.





End Panics.

(** ** Statistics, run alone *)

Section Snapshot.

Variable NewMiniClient : MiniConfig -> MiniClient + string.

(** [Statistics] waits while a statistics update is in progress; with the
    lock free it locks, copies the block and unlocks, hands back the block
    as it stood, gauge included, and leaves the client as it found it.  The
    copy satisfies the two identities of the counters. *)
Theorem Statistics_snapshot (cfg : Config) (s : Sys) (tid : nat) (t : Thread) :
  reachable NewMiniClient cfg s ->
  crashed s = false ->
  threads s !! tid = Some t ->
  code t = callProg (client s) CallStatistics ->
  (statLock (client s) = true -> forall a, step s (Run tid a) = None) /\
  (statLock (client s) = false ->
   run s [Run tid ANone; Run tid ANone; Run tid ANone] =
     Some (setThread tid (goto (Return (RStats (stats (client s)))) t) s) /\
   trace s tid [ANone; ANone; ANone] = [PLock; PReadStats; PUnlock] /\
   balanced (stats (client s))).
Proof.
  intros Hreach Hc Ht Hcode.
  assert (Hlt := lookup_lt_Some _ _ _ Ht).
  split.
  - intros Hl a. rewrite (step_run _ _ _ _ Hc Ht). unfold runThread.
    rewrite Hcode. simpl. now rewrite Hl.
  - intros Hl. split; [|split].
    + rewrite (focus_here s tid t Ht) at 1. rewrite Hcode. simpl callProg.
      unfold Statistics.
      solo Hc Hlt. rewrite Hl. rewrite ?client_focus, ?focus_next.
      solo Hc Hlt. solo Hc Hlt.
      replace (withStatLock false (withStatLock true (client s)))
        with (client s) by (destruct (client s); simpl in *; now subst).
      now rewrite focus_client_id.
    + rewrite (focus_here s tid t Ht) at 1. rewrite Hcode. simpl callProg.
      unfold Statistics.
      solo_trace Hc Hlt. rewrite Hl. rewrite ?client_focus, ?focus_next.
      solo_trace Hc Hlt. solo_trace Hc Hlt. reflexivity.
    + destruct (StatInv_balanced _ (StatInv_reachable _ _ _ Hreach))
        as (Hfree & _).
      now apply Hfree.
Qed.

End Snapshot.

(** ** Close on a client that has a ticker *)

Lemma run_finalize (ls : list Label) (s s' : Sys) :
  run s ls = Some s' ->
  finalize (client s) = true ->
  finalize (client s') = true.
Proof.
  revert s. induction ls as [|l ls IH]; intros s Hrun Hfin; simpl in Hrun.
  - now injection Hrun as <-.
  - destruct (step s l) as [s1|] eqn:Hstep; [|discriminate].
    apply (IH s1 Hrun). unfold step in Hstep.
    destruct (crashed s); [discriminate|].
    destruct l as [call| |tid a].
    + now injection Hstep as <-.
    + destruct (ticker (client s)) as [tk|]; [|discriminate].
      destruct (tickStopped tk); [discriminate|]. now injection Hstep as <-.
    + destruct (threads s !! tid) as [t|]; [|discriminate].
      unfold runThread in Hstep. run_cases Hstep; simpl; auto;
        discriminate.
Qed.

Section Closing.

Variable NewMiniClient : MiniConfig -> MiniClient + string.

(** On a client that has a ticker (configured periodic with a positive
    period) and whose shutdown signal is still open, the first two
    statements of [Close] stop the ticker, so that no further tick is
    delivered, and close the signal, which empties the bucket.  From then on
    every goroutine waiting in a [select] on the signal can leave by that
    case, and [Close] itself waits in [Wait] until the wait group reads
    zero. *)
Theorem Close_signals_shutdown (cfg : Config) (s : Sys) (tid : nat)
    (t : Thread) (k : Prog) :
  reachable NewMiniClient cfg s ->
  Config.TimeTrigger cfg = TimeTriggerPeriodic ->
  0 < Config.Period cfg ->
  crashed s = false ->
  threads s !! tid = Some t ->
  code t = Close k ->
  finalize (client s) = false ->
  exists tk s2,
    ticker (client s) = Some tk /\
    run s [Run tid ANone; Run tid ANone] = Some s2 /\
    trace s tid [ANone; ANone] = [PTickerStop; PCloseFinalize] /\
    client s2 =
      withBucket []
        (withFinalize true
           (withTicker (Some (mkTicker (tickPeriod tk) (tickPending tk) true))
              (client s))) /\
    threads s2 = <[tid := goto (WgWait k) t]> (threads s) /\
    crashed s2 = false /\
    step s2 TimerFires = None /\
    (forall j tj kSent kFinalize a,
       threads s2 !! j = Some tj ->
       code tj = SendBucketOrFinalize kSent kFinalize ->
       step s2 (Run j a)
       = Some (setThread j (withHolds false (goto kFinalize tj)) s2)) /\
    (forall j tj kTick kFinalize,
       threads s2 !! j = Some tj ->
       code tj = RecvTickOrFinalize kTick kFinalize ->
       step s2 (Run j (APick false))
       = Some (setThread j (goto kFinalize tj) s2)) /\
    (forall a,
       step s2 (Run tid a) =
       if finalizeDone (client s) =? 0
       then Some (setThread tid (goto k t) s2)
       else None).
Proof.
  intros Hreach Hp Hpos Hc Ht Hcode Hfin.
  assert (Hlt := lookup_lt_Some _ _ _ Ht).
  destruct (ticker_iff_periodic _ _ _ Hreach) as [Hnone Hper].
  destruct (ticker (client s)) as [tk|] eqn:Htk.
  2:{ exfalso. apply (proj1 Hnone eq_refl). apply Hper. auto. }
  set (m2 := withBucket []
               (withFinalize true
                  (withTicker
                     (Some (mkTicker (tickPeriod tk) (tickPending tk) true))
                     (client s)))).
  exists tk, (focus s tid t m2 (WgWait k)).
  split; [reflexivity|]. split; [|split].
  - rewrite (focus_here s tid t Ht) at 1. rewrite Hcode. unfold Close.
    solo Hc Hlt. rewrite Htk. rewrite ?client_focus, ?focus_next.
    solo Hc Hlt. cbn [finalize withTicker]. rewrite Hfin.
    rewrite ?client_focus, ?focus_next. reflexivity.
  - rewrite (focus_here s tid t Ht) at 1. rewrite Hcode. unfold Close.
    solo_trace Hc Hlt. rewrite Htk. rewrite ?client_focus, ?focus_next.
    solo_trace Hc Hlt. cbn [finalize withTicker]. rewrite Hfin.
    rewrite ?client_focus, ?focus_next. reflexivity.
  - split; [reflexivity|]. split; [reflexivity|]. split; [exact Hc|].
    split; [|split; [|split]].
    + unfold step. cbn. now rewrite Hc.
    + intros j tj kS kF a Hj Hcj.
      rewrite (step_run (focus s tid t m2 (WgWait k)) _ _ _ Hc Hj).
      unfold runThread. rewrite Hcj. reflexivity.
    + intros j tj kT kF Hj Hcj.
      rewrite (step_run (focus s tid t m2 (WgWait k)) _ _ _ Hc Hj).
      unfold runThread. rewrite Hcj.
      cbn. now destruct (tickPending tk).
    + intros a. rewrite (step_focus _ _ _ _ _ _ Hc Hlt). unfold runThread.
      cbn. now destruct (finalizeDone (client s) =? 0).
Qed.

(** A call of [Close] on a client whose shutdown signal is closed already,
    by an earlier or a concurrent [Close], panics at its second statement:
    [close(m.finalize)] closes a closed channel. *)
Theorem second_Close_panics (cfg : Config) (s : Sys) (tid : nat) (t : Thread)
    (k : Prog) :
  reachable NewMiniClient cfg s ->
  Config.TimeTrigger cfg = TimeTriggerPeriodic ->
  0 < Config.Period cfg ->
  crashed s = false ->
  threads s !! tid = Some t ->
  code t = Close k ->
  finalize (client s) = true ->
  exists s1,
    step s (Run tid ANone) = Some s1 /\
    crashed s1 = false /\
    threads s1 = <[tid := goto (CloseFinalize (WgWait k)) t]> (threads s) /\
    step s1 (Run tid ANone) = Some (crash s1) /\
    trace s tid [ANone; ANone] = [PTickerStop; PCloseFinalize].
Proof.
  intros Hreach Hp Hpos Hc Ht Hcode Hfin.
  assert (Hlt := lookup_lt_Some _ _ _ Ht).
  destruct (ticker_iff_periodic _ _ _ Hreach) as [Hnone Hper].
  destruct (ticker (client s)) as [tk|] eqn:Htk.
  2:{ exfalso. apply (proj1 Hnone eq_refl). apply Hper. auto. }
  set (m1 := withTicker (Some (mkTicker (tickPeriod tk) (tickPending tk) true))
               (client s)).
  exists (focus s tid t m1 (CloseFinalize (WgWait k))).
  assert (H1 : step s (Run tid ANone)
               = Some (focus s tid t m1 (CloseFinalize (WgWait k)))).
  { rewrite (step_run _ _ _ _ Hc Ht). unfold runThread. rewrite Hcode.
    unfold Close. now rewrite Htk. }
  assert (H2 : step (focus s tid t m1 (CloseFinalize (WgWait k)))
                 (Run tid ANone)
               = Some (crash (focus s tid t m1 (CloseFinalize (WgWait k))))).
  { rewrite (step_focus _ _ _ _ _ _ Hc Hlt). unfold runThread. cbn.
    now rewrite Hfin. }
  split; [exact H1|]. split; [exact Hc|]. split; [reflexivity|].
  split; [exact H2|].
  simpl trace. rewrite Ht, H1, H2. cbn.
  rewrite list_lookup_insert_eq by assumption. rewrite Hcode. reflexivity.
Qed.

(** Once the shutdown signal is closed it stays closed, whatever runs
    afterwards, and every later call of [BufferMessage] returns the
    "client already Closed" error at its first statement. *)
Theorem shutdown_is_permanent (s s' : Sys) (ls : list Label)
    (msg : LogMessage) :
  finalize (client s) = true ->
  run s ls = Some s' ->
  crashed s' = false ->
  finalize (client s') = true /\
  run s' [Invoke (CallBufferMessage msg); Run (length (threads s')) ANone] =
    Some (mkSys (client s')
            (threads s'
             ++ [mkThread Caller (Return (RError (Some errClosed))) None
                   false])
            false (inserted s')).
Proof.
  intros Hfin Hrun Hc.
  pose proof (run_finalize _ _ _ Hrun Hfin) as Hfin'.
  split; [exact Hfin'|].
  rewrite run_cons. unfold step at 1. rewrite Hc.
  rewrite run_cons.
  set (s1 := spawn _ s').
  assert (H1 : threads s1 !! length (threads s')
               = Some (mkThread Caller
                         (callProg (client s') (CallBufferMessage msg))
                         None false)).
  { unfold s1. simpl. rewrite lookup_app_r by lia.
    now rewrite Nat.sub_diag. }
  rewrite (step_run s1 _ _ _ Hc H1). unfold runThread.
  cbn [code callProg]. unfold BufferMessage.
  change (client s1) with (client s'). rewrite Hfin'.
  unfold run, setThread, goto, s1. simpl. f_equal. f_equal; [|exact Hc].
  rewrite insert_app_r_alt by lia. now rewrite Nat.sub_diag.
Qed.

End Closing.

(** ** Flush attempts that find a token *)

Lemma run_step (s s' : Sys) (l : Label) (ls : list Label) :
  step s l = Some s' -> run s (l :: ls) = run s' ls.
Proof. intros H. simpl. now rewrite H. Qed.

Lemma trace_step (s s' : Sys) (tid : nat) (t : Thread) (a : Answer)
    (answers : list Answer) :
  threads s !! tid = Some t ->
  step s (Run tid a) = Some s' ->
  trace s tid (a :: answers) = prim (code t) :: trace s' tid answers.
Proof. intros Ht H. simpl. now rewrite Ht, H. Qed.

Section Admission.

Variable NewMiniClient : MiniConfig -> MiniClient + string.

(** A flush attempt on a batch of [n > 0] records that finds a token on
    offer takes it from the goroutine parked longest, which goes on after
    its send; registers one more goroutine with the wait group; starts a
    delivery task for the batch, which owns the token from then on; and
    returns.  No statistics change, and the caller has not waited. *)
Theorem maybeWork_admits (cfg : Config) (s : Sys) (tid : nat) (t : Thread)
    (k : Prog) (b : Bundle) (sender : nat) (rest : list nat) :
  reachable NewMiniClient cfg s ->
  crashed s = false ->
  threads s !! tid = Some t ->
  code t = maybeWork k ->
  is_uint64 (NumberFramed (bMiniStats b)) = true ->
  0 < NumberFramed (bMiniStats b) ->
  bucket (client s) = sender :: rest ->
  exists ts kSent kFinalize s',
    threads s !! sender = Some ts /\
    code ts = SendBucketOrFinalize kSent kFinalize /\
    run s (map (Run tid) (admitAnswers b)) = Some s' /\
    trace s tid (admitAnswers b) = admitTrace /\
    threads s' =
      <[tid := mkThread (role t) k (loop t) false]>
        (<[sender := withHolds false (goto kSent ts)]> (threads s))
      ++ [mkThread Worker (syncWorker b) None true] /\
    bucket (client s') = rest /\
    finalizeDone (client s') = finalizeDone (client s) + 1 /\
    (forall fld, getCounter fld (stats (client s'))
                 = getCounter fld (stats (client s))) /\
    (in_int32 (Concurrency (stats (client s))) ->
     Concurrency (stats (client s')) = Concurrency (stats (client s))) /\
    statLock (client s') = statLock (client s) /\
    finalize (client s') = finalize (client s) /\
    inserted s' = inserted s /\ crashed s' = false.
Proof.
  intros Hreach Hc Ht Hp Hu Hn Hb.
  pose proof (TokInv_reachable _ _ _ Hreach) as TInv.
  destruct (WgInv_reachable _ _ _ Hreach) as [ws WInv].
  destruct (WgInvAt_weight _ _ _ _ WInv Ht) as (w & _ & Hok & Hle).
  pose proof (wgOk_nonneg _ _ _ Hok) as Hw.
  assert (Hlt := lookup_lt_Some _ _ _ Ht).
  assert (Hle0 : (NumberFramed (bMiniStats b) <=? 0) = false)
    by now apply Z.leb_gt.
  destruct (tok_parked _ _ TInv sender) as (ts & kS & kF & Hts & _ & Hcs).
  { rewrite Hb. now left. }
  assert (Hne : tid <> sender).
  { intros ->. rewrite Ht in Hts. injection Hts as ->.
    rewrite Hp in Hcs. discriminate. }
  exists ts, kS, kF.
  set (ret := AtomicAddInt32 (-1) k).
  set (kRecv := WgAdd 1 (Go Worker (syncWorker b) ret)).
  set (kDefault := statReqDrop (bMiniStats b) (Gosched ret)).
  set (m1 := withStats (addConcurrency 1 (stats (client s))) (client s)).
  set (s2 := focus s tid t m1 (RecvBucketOrDefault kRecv kDefault)).
  assert (H2 : run s (map (Run tid) [ANone; ABundle b]) = Some s2).
  { rewrite (focus_here s tid t Ht) at 1. rewrite Hp. unfold maybeWork.
    simpl map. solo Hc Hlt. solo Hc Hlt. rewrite Hu, Hle0.
    rewrite ?focus_goto. reflexivity. }
  assert (T2 : trace s tid [ANone; ABundle b]
               = [PAtomicAddInt32 1; PSwapBundle]).
  { rewrite (focus_here s tid t Ht) at 1. rewrite Hp. unfold maybeWork.
    solo_trace Hc Hlt. solo_trace Hc Hlt. rewrite Hu, Hle0.
    rewrite ?focus_goto. reflexivity. }
  set (t3 := mkThread (role t) kRecv (loop t) true).
  set (s3 := setThread tid t3
               (setThread sender (withHolds false (goto kS ts))
                  (setClient (withBucket rest m1) s2))).
  assert (H3 : step s2 (Run tid ANone) = Some s3).
  { unfold s2. rewrite (step_focus _ _ _ _ _ _ Hc Hlt). unfold runThread.
    cbn [code goto client focus setThread setClient bucket m1 withStats].
    rewrite Hb.
    assert (Hs : threads (focus s tid t m1
                            (RecvBucketOrDefault kRecv kDefault)) !! sender
                 = Some ts).
    { unfold focus. simpl. now rewrite list_lookup_insert_ne by auto. }
    rewrite Hs, Hcs. reflexivity. }
  assert (Ht3 : threads s3 !! tid = Some t3).
  { unfold s3. simpl. rewrite list_lookup_insert_eq; [reflexivity|].
    now rewrite !length_insert. }
  set (t4 := mkThread (role t) (Go Worker (syncWorker b) ret) (loop t) true).
  set (s4 := setThread tid t4
               (setClient (withFinalizeDone (finalizeDone (client s) + 1)
                             (client s3)) s3)).
  assert (H4 : step s3 (Run tid ANone) = Some s4).
  { rewrite (step_run s3 _ _ _ Hc Ht3). unfold runThread.
    cbn [code t3 kRecv].
    change (finalizeDone (client s3)) with (finalizeDone (client s)).
    destruct (Z.ltb_spec (finalizeDone (client s) + 1) 0); [lia|].
    reflexivity. }
  assert (Ht4 : threads s4 !! tid = Some t4).
  { unfold s4. simpl. rewrite list_lookup_insert_eq; [reflexivity|].
    now rewrite !length_insert. }
  set (t5 := mkThread (role t) ret (loop t) false).
  set (s5 := spawn (mkThread Worker (syncWorker b) None true)
               (setThread tid t5 s4)).
  assert (H5 : step s4 (Run tid ANone) = Some s5).
  { rewrite (step_run s4 _ _ _ Hc Ht4). reflexivity. }
  assert (Ht5 : threads s5 !! tid = Some t5).
  { unfold s5. simpl. rewrite lookup_app_l by now rewrite !length_insert.
    rewrite list_lookup_insert_eq; [reflexivity|].
    now rewrite !length_insert. }
  set (t6 := mkThread (role t) k (loop t) false).
  set (s6 := setThread tid t6
               (setClient (withStats (addConcurrency (-1) (stats (client s5)))
                             (client s5)) s5)).
  assert (H6 : step s5 (Run tid ANone) = Some s6).
  { rewrite (step_run s5 _ _ _ Hc Ht5). reflexivity. }
  exists s6. split; [exact Hts|]. split; [exact Hcs|]. split; [|split].
  - unfold admitAnswers.
    change (map (Run tid) [ANone; ABundle b; ANone; ANone; ANone; ANone])
      with (map (Run tid) [ANone; ABundle b]
            ++ [Run tid ANone; Run tid ANone; Run tid ANone; Run tid ANone]).
    rewrite run_app, H2.
    rewrite (run_step _ _ _ _ H3), (run_step _ _ _ _ H4),
      (run_step _ _ _ _ H5), (run_step _ _ _ _ H6). reflexivity.
  - unfold admitAnswers.
    change [ANone; ABundle b; ANone; ANone; ANone; ANone]
      with ([ANone; ABundle b] ++ [ANone; ANone; ANone; ANone]).
    rewrite (trace_app _ _ _ _ _ H2) by now rewrite T2.
    rewrite T2.
    assert (Ht2 : threads s2 !! tid
                  = Some (goto (RecvBucketOrDefault kRecv kDefault) t)).
    { unfold s2, focus. simpl. now rewrite list_lookup_insert_eq. }
    rewrite (trace_step _ _ _ _ _ _ Ht2 H3), (trace_step _ _ _ _ _ _ Ht3 H4),
      (trace_step _ _ _ _ _ _ Ht4 H5), (trace_step _ _ _ _ _ _ Ht5 H6).
    reflexivity.
  - split; [|split; [|split; [|split; [|split]]]].
    + unfold s6, s5, s4, s3, s2, focus. simpl.
      rewrite insert_app_l by now rewrite !length_insert.
      f_equal.
      rewrite !list_insert_insert_eq.
      rewrite (list_insert_insert_ne _ sender tid) by auto.
      now rewrite !list_insert_insert_eq.
    + reflexivity.
    + reflexivity.
    + intros fld. unfold s6. simpl.
      rewrite getCounter_addConcurrency. simpl.
      now rewrite getCounter_addConcurrency.
    + intros Hin. unfold s6. simpl. now apply int32_add_sub.
    + repeat split. exact Hc.
Qed.

End Admission.

(** ** The end of a delivery task *)

Section Return_path.

Variable NewMiniClient : MiniConfig -> MiniClient + string.

(** A delivery task that has accounted its batch still owns its token.
    While the client is open it offers the token on the bucket, once, and
    waits there: it goes on only when a flush attempt takes the token or
    the shutdown signal is closed; the offer inserts no new token.  When
    the signal is closed it gives the token up, calls [Done] and returns. *)
Theorem syncWorker_returns_token (cfg : Config) (s : Sys) (tid : nat)
    (t : Thread) :
  reachable NewMiniClient cfg s ->
  crashed s = false ->
  threads s !! tid = Some t ->
  role t = Worker ->
  code t = syncWorkerExit ->
  holds t = true /\
  (finalize (client s) = false ->
   (tid ∈ bucket (client s) -> forall a, step s (Run tid a) = None) /\
   (tid ∉ bucket (client s) ->
    forall a,
      step s (Run tid a)
      = Some (setClient (withBucket (bucket (client s) ++ [tid]) (client s))
                s))) /\
  (finalize (client s) = true ->
   run s [Run tid ANone; Run tid ANone] =
     Some (setThread tid (mkThread Worker (Return RVoid) (loop t) false)
             (setClient (withFinalizeDone (finalizeDone (client s) - 1)
                           (client s)) s)) /\
   trace s tid [ANone; ANone] = [PSendBucketOrFinalize; PWgDone] /\
   bucket (client s) = []).
Proof.
  intros Hreach Hc Ht Hr Hcode.
  pose proof (TokInv_reachable _ _ _ Hreach) as TInv.
  destruct (WgInv_reachable _ _ _ Hreach) as [ws WInv].
  destruct (WgInvAt_weight _ _ _ _ WInv Ht) as (w & _ & Hok & Hle).
  assert (Hlt := lookup_lt_Some _ _ _ Ht).
  assert (H0 : tid <> 0%nat).
  { intros ->. destruct (tok_supplier _ _ TInv) as (t0 & Ht0 & Hr0 & _).
    rewrite Ht in Ht0. injection Ht0 as <-. congruence. }
  destruct (tok_others _ _ TInv _ _ Ht H0) as (_ & Htok & _).
  rewrite Hcode in Htok. simpl in Htok. destruct Htok as (_ & Hh & _).
  rewrite Hcode, Hr in Hok. simpl in Hok.
  split; [exact Hh|]. split.
  - intros Hfin. split.
    + intros Hin a. rewrite (step_run _ _ _ _ Hc Ht). unfold runThread.
      rewrite Hcode. unfold syncWorkerExit. rewrite Hfin.
      now rewrite bool_decide_eq_true_2.
    + intros Hin a. rewrite (step_run _ _ _ _ Hc Ht). unfold runThread.
      rewrite Hcode. unfold syncWorkerExit. rewrite Hfin.
      rewrite bool_decide_eq_false_2 by assumption.
      f_equal. unfold setThread, countInsertion, setClient, withHolds.
      simpl. rewrite Hh. simpl. f_equal.
      rewrite <- Hh. destruct t; simpl. now apply list_insert_id.
  - intros Hfin.
    set (t1 := mkThread (role t) (WgDone (Return RVoid)) (loop t) false).
    set (s1 := setThread tid t1 s).
    assert (H1 : step s (Run tid ANone) = Some s1).
    { rewrite (step_run _ _ _ _ Hc Ht). unfold runThread.
      rewrite Hcode. unfold syncWorkerExit. now rewrite Hfin. }
    assert (Ht1 : threads s1 !! tid = Some t1).
    { unfold s1. simpl. now rewrite list_lookup_insert_eq. }
    set (s2 := setThread tid (goto (Return RVoid) t1)
                 (setClient (withFinalizeDone (finalizeDone (client s) - 1)
                               (client s1)) s1)).
    assert (H2 : step s1 (Run tid ANone) = Some s2).
    { rewrite (step_run s1 _ _ _ Hc Ht1). unfold runThread. cbn [code t1].
      change (finalizeDone (client s1)) with (finalizeDone (client s)).
      destruct (Z.ltb_spec (finalizeDone (client s) - 1) 0); [lia|].
      reflexivity. }
    split; [|split].
    + rewrite (run_step _ _ _ _ H1), (run_step _ _ _ _ H2).
      unfold s2, s1, run, setThread, setClient, goto. simpl. rewrite Hr.
      f_equal. f_equal. now rewrite list_insert_insert_eq.
    + rewrite (trace_step _ _ _ _ _ _ Ht H1), (trace_step _ _ _ _ _ _ Ht1 H2).
      rewrite Hcode. reflexivity.
    + exact (tok_closed _ _ TInv Hfin).
Qed.

(** [Close] does not wait for a delivery task whose admission is under
    way.  A flush attempt that has taken a token but not yet registered the
    task is invisible to the wait group: when the counter reads zero [Wait]
    returns, and the task is registered and started after that. *)
Theorem Close_misses_late_admission (cfg : Config) (s : Sys)
    (closer d : nat) (tc td : Thread) (k ret : Prog) (b : Bundle) :
  reachable NewMiniClient cfg s ->
  crashed s = false ->
  threads s !! closer = Some tc ->
  code tc = WgWait k ->
  threads s !! d = Some td ->
  code td = WgAdd 1 (Go Worker (syncWorker b) ret) ->
  finalizeDone (client s) = 0 ->
  exists s',
    run s [Run closer ANone; Run d ANone; Run d ANone] = Some s' /\
    threads s' =
      <[d := mkThread (role td) ret (loop td) false]>
        (<[closer := goto k tc]> (threads s))
      ++ [mkThread Worker (syncWorker b) None (holds td)] /\
    finalizeDone (client s') = 1 /\
    finalize (client s') = finalize (client s) /\
    crashed s' = false.
Proof.
  intros Hreach Hc Htc Hcc Htd Hcd Hz.
  assert (Hne : closer <> d).
  { intros ->. rewrite Htc in Htd. injection Htd as ->.
    rewrite Hcc in Hcd. discriminate. }
  assert (Hltc := lookup_lt_Some _ _ _ Htc).
  assert (Hltd := lookup_lt_Some _ _ _ Htd).
  set (s1 := setThread closer (goto k tc) s).
  assert (H1 : step s (Run closer ANone) = Some s1).
  { rewrite (step_run _ _ _ _ Hc Htc). unfold runThread.
    now rewrite Hcc, Hz. }
  assert (Htd1 : threads s1 !! d = Some td).
  { unfold s1. simpl. now rewrite list_lookup_insert_ne by auto. }
  set (t2 := goto (Go Worker (syncWorker b) ret) td).
  set (s2 := setThread d t2
               (setClient (withFinalizeDone 1 (client s1)) s1)).
  assert (H2 : step s1 (Run d ANone) = Some s2).
  { rewrite (step_run s1 _ _ _ Hc Htd1). unfold runThread. rewrite Hcd.
    change (finalizeDone (client s1)) with (finalizeDone (client s)).
    now rewrite Hz. }
  assert (Ht2 : threads s2 !! d = Some t2).
  { unfold s2, s1. simpl. rewrite list_lookup_insert_eq; [reflexivity|].
    now rewrite length_insert. }
  eexists. split.
  - rewrite (run_step _ _ _ _ H1), (run_step _ _ _ _ H2), run_cons.
    rewrite (step_run s2 _ _ _ Hc Ht2). unfold runThread.
    cbn [code t2 goto]. reflexivity.
  - unfold s2, s1. simpl. split; [|auto].
    f_equal. now rewrite list_insert_insert_eq.
Qed.

End Return_path.

(** ** No token is lost before the shutdown *)

Lemma step_finalize_back (s s' : Sys) (l : Label) :
  step s l = Some s' ->
  finalize (client s') = false -> finalize (client s) = false.
Proof.
  intros Hstep Hf. destruct (finalize (client s)) eqn:Hfin; [|reflexivity].
  rewrite <- Hf. symmetry.
  apply (run_finalize [l] s s'); [|exact Hfin].
  simpl. now rewrite Hstep.
Qed.



Section Conservation.

Variable NewMiniClient : MiniConfig -> MiniClient + string.


End Conservation.

(** ** The periodic goroutine *)

Lemma loopsOk_insert (ts : list Thread) (i : nat) (t' : Thread) :
  loopsOk ts ->
  loop t' = (if isTicker (role t') then Some tickerLoop else None) ->
  loopsOk (<[i := t']> ts).
Proof.
  intros Hok Ht' j tj Hj.
  destruct (lookup_insert_cases _ _ _ _ _ Hj) as [[-> ->]|[Hne Hj']].
  - exact Ht'.
  - exact (Hok _ _ Hj').
Qed.

Lemma loopsOk_app (ts : list Thread) (t' : Thread) :
  loopsOk ts ->
  loop t' = (if isTicker (role t') then Some tickerLoop else None) ->
  loopsOk (ts ++ [t']).
Proof.
  intros Hok Ht' j tj Hj.
  apply lookup_app_Some in Hj. destruct Hj as [Hj|[Hge Hj]].
  - exact (Hok _ _ Hj).
  - destruct (j - _)%nat; [|discriminate]. now injection Hj as <-.
Qed.

Lemma loopsOk_runThread (n : Z) (s s' : Sys) (tid : nat) (t : Thread)
    (a : Answer) :
  TokInv n s ->
  loopsOk (threads s) ->
  threads s !! tid = Some t ->
  runThread s tid t a = Some s' ->
  loopsOk (threads s').
Proof.
  intros Inv Hok Ht Hrun. pose proof (Hok _ _ Ht) as Hl.
  assert (Hset : forall p h,
            loopsOk (<[tid := mkThread (role t) p (loop t) h]> (threads s))).
  { intros p h. now apply loopsOk_insert. }
  unfold runThread in Hrun.
  destruct (code t) as
    [ r | | why | delta k | k | msg k | b k | k | kRecv kDefault
    | kSent kFinalize | kClosed kDefault | kTick kFinalize | z k | k | k
    | r p k | k | k | fld z k | k | k | k | k ] eqn:Hcode;
    try (run_cases Hrun; simpl; first [exact Hok | apply Hset]).
  - destruct (loop t) as [body|] eqn:Hlp; [|discriminate].
    injection Hrun as <-. simpl. apply loopsOk_insert; [exact Hok|].
    simpl. rewrite Hlp. exact Hl.
  - destruct (bucket (client s)) as [|sender rest] eqn:Hb.
    + injection Hrun as <-. apply Hset.
    + destruct (threads s !! sender) as [ts|] eqn:Hts; [|discriminate].
      destruct (code ts) eqn:Hcs; try discriminate.
      injection Hrun as <-. simpl.
      apply loopsOk_insert; [|exact Hl].
      apply loopsOk_insert; [exact Hok|]. exact (Hok _ _ Hts).
  - injection Hrun as <-. simpl.
    apply loopsOk_app; [apply loopsOk_insert; [exact Hok | exact Hl]|].
    simpl.
    assert (Hr : r = Worker).
    { destruct (decide (tid = 0%nat)) as [->|H0].
      - destruct (tok_supplier _ _ Inv) as (t0 & Ht0 & _ & _ & Hs).
        rewrite Ht in Ht0. injection Ht0 as <-.
        destruct (supplier_code _ _ _ Hs) as [[k' Hk]|[Hk|Hk]];
          rewrite Hk in Hcode; discriminate.
      - destruct (tok_others _ _ Inv _ _ Ht H0) as (_ & Htok & _).
        rewrite Hcode in Htok. simpl in Htok. tauto. }
    now rewrite Hr.
Qed.

Lemma loopsOk_run (n : Z) (ls : list Label) (s s' : Sys) :
  TokInv n s -> loopsOk (threads s) -> run s ls = Some s' ->
  loopsOk (threads s').
Proof.
  revert s. induction ls as [|l ls IH]; intros s Inv Hok Hrun;
    simpl in Hrun.
  - now injection Hrun as <-.
  - destruct (step s l) as [s1|] eqn:Hstep; [|discriminate].
    apply (IH s1 (TokInv_step _ _ _ _ Inv Hstep)); [|exact Hrun].
    unfold step in Hstep. destruct (crashed s); [discriminate|].
    destruct l as [call| |tid a].
    + injection Hstep as <-. simpl. now apply loopsOk_app.
    + destruct (ticker (client s)) as [tk|]; [|discriminate].
      destruct (tickStopped tk); [discriminate|]. now injection Hstep as <-.
    + destruct (threads s !! tid) as [t|] eqn:Ht; [|discriminate].
      eapply loopsOk_runThread; eassumption.
Qed.

Lemma int32_range (z : Z) : in_int32 (int32 z).
Proof.
  unfold in_int32, int32.
  pose proof (Z.mod_pos_bound (z + 2 ^ 31) (2 ^ 32) ltac:(lia)). lia.
Qed.

Section Periodic.

Variable NewMiniClient : MiniConfig -> MiniClient + string.

Lemma loopsOk_reachable (cfg : Config) (s : Sys) :
  reachable NewMiniClient cfg s -> loopsOk (threads s).
Proof.
  intros (s0 & ls & Hboot & Hrun).
  apply (loopsOk_run _ ls s0 s (TokInv_boot _ _ _ Hboot)); [|exact Hrun].
  destruct (boot_shape _ _ _ Hboot)
    as (m & rest & -> & _ & _ & _ & _ & _ & Hrest).
  intros j tj Hj. destruct j as [|j]; simpl in Hj.
  - now injection Hj as <-.
  - destruct Hrest as [(-> & _)|(-> & _)]; [discriminate|].
    destruct j; [|discriminate]. now injection Hj as <-.
Qed.

(** The periodic goroutine, at the [select] of its loop: it waits while no
    tick is pending and the shutdown signal is open; a pending tick is
    consumed and starts one flush attempt, after which the goroutine is back
    at the [select] (on a turn that finds nothing buffered the client is as
    before, the tick apart); the closed signal makes it call [Done] and
    return; with both ready either may be taken. *)
Theorem ticker_flushes_on_tick (cfg : Config) (s : Sys) (tid : nat)
    (t : Thread) :
  reachable NewMiniClient cfg s ->
  Config.TimeTrigger cfg = TimeTriggerPeriodic ->
  0 < Config.Period cfg ->
  crashed s = false ->
  threads s !! tid = Some t ->
  role t = TickerTask ->
  code t = tickerLoop ->
  exists tk,
    ticker (client s) = Some tk /\
    let consumed :=
      withTicker (Some (mkTicker (tickPeriod tk) false (tickStopped tk)))
        (client s) in
    (tickPending tk = false -> finalize (client s) = false ->
     forall a, step s (Run tid a) = None) /\
    (tickPending tk = true ->
     step s (Run tid (APick true))
     = Some (setThread tid (goto (maybeWork Continue) t)
               (setClient consumed s)) /\
     run s (map (Run tid) idleTurn) = Some (setClient consumed s) /\
     trace s tid idleTurn = idleTrace) /\
    (tickPending tk = true -> finalize (client s) = false ->
     forall a, step s (Run tid a) = step s (Run tid (APick true))) /\
    (finalize (client s) = true ->
     run s [Run tid (APick false); Run tid ANone]
     = Some (setThread tid (goto (Return RVoid) t)
               (setClient (withFinalizeDone (finalizeDone (client s) - 1)
                             (client s)) s)) /\
     trace s tid [APick false; ANone] = [PRecvTickOrFinalize; PWgDone]) /\
    (tickPending tk = false -> finalize (client s) = true ->
     forall a, step s (Run tid a) = step s (Run tid (APick false))).
Proof.
  intros Hreach Hp Hpos Hc Ht Hr Hcode.
  assert (Hlt := lookup_lt_Some _ _ _ Ht).
  destruct (ticker_iff_periodic _ _ _ Hreach) as [Hnone Hper].
  destruct (ticker (client s)) as [tk|] eqn:Htk.
  2:{ exfalso. apply (proj1 Hnone eq_refl). apply Hper. auto. }
  pose proof (loopsOk_reachable _ _ Hreach _ _ Ht) as Hloop.
  rewrite Hr in Hloop. simpl in Hloop.
  destruct (WgInv_reachable _ _ _ Hreach) as [ws WInv].
  destruct (WgInvAt_weight _ _ _ _ WInv Ht) as (w & _ & Hok & Hle).
  rewrite Hcode, Hr in Hok. simpl in Hok.
  destruct (GaugeInv_reachable _ _ _ Hreach) as [gs GInv].
  assert (Hg : in_int32 (Concurrency (stats (client s)))).
  { rewrite (gauge_value _ _ GInv). apply int32_range. }
  exists tk. split; [reflexivity|]. intros consumed.
  assert (Hstep : forall a,
            step s (Run tid a) =
            match tickPending tk, finalize (client s) with
            | false, false => None
            | true, false =>
                Some (setThread tid (goto (maybeWork Continue) t)
                        (setClient consumed s))
            | false, true =>
                Some (setThread tid (goto (WgDone (Return RVoid)) t) s)
            | true, true =>
                match a with
                | APick true =>
                    Some (setThread tid (goto (maybeWork Continue) t)
                            (setClient consumed s))
                | APick false =>
                    Some (setThread tid (goto (WgDone (Return RVoid)) t) s)
                | _ => None
                end
            end).
  { intros a. rewrite (step_run _ _ _ _ Hc Ht). unfold runThread.
    rewrite Hcode. unfold tickerLoop. rewrite Htk. reflexivity. }
  split; [|split; [|split; [|split]]].
  - intros Hpend Hfin a. now rewrite Hstep, Hpend, Hfin.
  - intros Hpend.
    assert (H1 : step s (Run tid (APick true))
                 = Some (setThread tid (goto (maybeWork Continue) t)
                           (setClient consumed s))).
    { rewrite Hstep, Hpend. now destruct (finalize (client s)). }
    split; [exact H1|].
    change (setThread tid (goto (maybeWork Continue) t) (setClient consumed s))
      with (focus s tid t consumed (maybeWork Continue)) in H1.
    assert (Hend : focus s tid t
                     (withStats
                        (addConcurrency (-1)
                           (addConcurrency 1 (stats consumed))) consumed)
                     tickerLoop
                   = setClient consumed s).
    { unfold focus, setThread, setClient, goto. simpl.
      rewrite <- Hcode.
      replace (mkThread (role t) (code t) (loop t) (holds t)) with t
        by now destruct t.
      rewrite list_insert_id by assumption. f_equal.
      unfold withStats, consumed, withTicker. simpl. f_equal.
      unfold addConcurrency. simpl.
      pose proof (int32_add_sub _ 1 Hg) as E. change (- (1)) with (-1) in E.
      rewrite E. now destruct (stats (client s)). }
    split.
    + unfold idleTurn. cbn [map]. rewrite (run_step _ _ _ _ H1).
      unfold maybeWork.
      solo Hc Hlt. solo Hc Hlt.
      change (is_uint64 0) with true. cbv iota. rewrite ?focus_goto.
      solo Hc Hlt.
      rewrite run_cons, (step_focus _ _ _ _ _ _ Hc Hlt). unfold runThread.
      cbn [code goto loop]. rewrite Hloop.
      rewrite ?focus_goto. simpl run. f_equal. exact Hend.
    + unfold idleTurn, idleTrace.
      rewrite (trace_step _ _ _ _ _ _ Ht H1). rewrite Hcode. cbn [prim tickerLoop].
      f_equal. unfold maybeWork.
      solo_trace Hc Hlt. solo_trace Hc Hlt.
      change (is_uint64 0) with true. cbv iota. rewrite ?focus_goto.
      solo_trace Hc Hlt.
      rewrite (trace_focus _ _ _ _ _ _ _ Hc Hlt). unfold runThread.
      cbn [code goto loop]. rewrite Hloop. reflexivity.
  - intros Hpend Hfin a. now rewrite !Hstep, Hpend, Hfin.
  - intros Hfin.
    set (s1 := setThread tid (goto (WgDone (Return RVoid)) t) s).
    assert (H1 : step s (Run tid (APick false)) = Some s1).
    { rewrite Hstep, Hfin. now destruct (tickPending tk). }
    assert (Ht1 : threads s1 !! tid
                  = Some (goto (WgDone (Return RVoid)) t)).
    { unfold s1. simpl. now rewrite list_lookup_insert_eq. }
    assert (H2 : step s1 (Run tid ANone)
                 = Some (setThread tid (goto (Return RVoid) t)
                           (setClient
                              (withFinalizeDone (finalizeDone (client s) - 1)
                                 (client s)) s))).
    { rewrite (step_run s1 _ _ _ Hc Ht1). unfold runThread. cbn [code goto].
      change (finalizeDone (client s1)) with (finalizeDone (client s)).
      destruct (Z.ltb_spec (finalizeDone (client s) - 1) 0); [lia|].
      unfold s1, setThread, setClient, goto. simpl. f_equal. f_equal.
      now rewrite list_insert_insert_eq. }
    split.
    + now rewrite (run_step _ _ _ _ H1), (run_step _ _ _ _ H2).
    + rewrite (trace_step _ _ _ _ _ _ Ht H1), (trace_step _ _ _ _ _ _ Ht1 H2).
      rewrite Hcode. reflexivity.
  - intros Hpend Hfin a. now rewrite !Hstep, Hpend, Hfin.
Qed.

End Periodic.

(** ** The capacity bounds the requests in flight *)

Lemma postOk_statReq (r : Role) (h : bool) (o : Outcome) (ms : MiniStats)
    (k : Prog) :
  postOk r h k -> postOk r h (statReq o ms k).
Proof. intros H. now destruct o. Qed.

Lemma postOk_syncWorker (b : Bundle) : postOk Worker true (syncWorker b).
Proof.
  unfold syncWorker. simpl. split; [reflexivity|]. split; [reflexivity|].
  intros [err|code].
  - simpl. auto.
  - destruct (negb (code =? StatusNoContent)); simpl; auto.
Qed.

Lemma postOk_maybeWork (r : Role) (k : Prog) :
  postOk r false k -> postOk r false (maybeWork k).
Proof.
  intros Hk. unfold maybeWork. simpl. intros b.
  destruct (NumberFramed (bMiniStats b) <=? 0); simpl; [exact Hk|].
  split; [split; [apply postOk_syncWorker | exact Hk] | exact Hk].
Qed.

Lemma postOk_callProg (m : Client) (call : ApiCall) :
  postOk Caller false (callProg m call).
Proof.
  destruct call as [msg| |]; simpl; auto.
  split; [exact I|]. intros ms.
  destruct ((Buffered ms >=? RequestSizeTrigger m)
            || (timeTrigger m =? TimeTriggerImmediate)); [|exact I].
  now apply postOk_maybeWork.
Qed.

Lemma postOk_tickerLoop : postOk TickerTask false tickerLoop.
Proof.
  unfold tickerLoop. simpl. split; [|exact I].
  change (postOk TickerTask false (maybeWork Continue)).
  now apply postOk_maybeWork.
Qed.

Lemma postOk_supplyFrom (fuel : nat) (n i : Z) (h : bool) :
  postOk Supplier h (supplyFrom fuel n i).
Proof.
  revert i h. induction fuel as [|fuel IH]; intros i h; simpl; [exact I|].
  destruct (i <? n); simpl; [|exact I].
  split; [apply IH | exact I].
Qed.

Lemma postsOk_insert (ts : list Thread) (i : nat) (t t' : Thread) :
  postsOk ts ->
  ts !! i = Some t ->
  role t' = role t ->
  loop t' = loop t ->
  postOk (role t) (holds t') (code t') ->
  postsOk (<[i := t']> ts).
Proof.
  intros Hok Ht Hr Hl Hc j tj Hj.
  destruct (lookup_insert_cases _ _ _ _ _ Hj) as [[-> ->]|[Hne Hj']].
  - rewrite Hr, Hl. split; [exact Hc|]. exact (proj2 (Hok _ _ Ht)).
  - exact (Hok _ _ Hj').
Qed.

Lemma postsOk_app (ts : list Thread) (t' : Thread) :
  postsOk ts ->
  postOk (role t') (holds t') (code t') ->
  (forall body, loop t' = Some body -> postOk (role t') false body) ->
  postsOk (ts ++ [t']).
Proof.
  intros Hok Hc Hl j tj Hj.
  apply lookup_app_Some in Hj. destruct Hj as [Hj|[Hge Hj]].
  - exact (Hok _ _ Hj).
  - destruct (j - _)%nat; [|discriminate]. injection Hj as <-. auto.
Qed.

Lemma postsOk_runThread (s s' : Sys) (tid : nat) (t : Thread) (a : Answer) :
  postsOk (threads s) ->
  threads s !! tid = Some t ->
  runThread s tid t a = Some s' ->
  postsOk (threads s').
Proof.
  intros Hok Ht Hrun. destruct (Hok _ _ Ht) as [Hc Hl].
  assert (Hset : forall p,
            postOk (role t) (holds t) p ->
            postsOk (<[tid := goto p t]> (threads s))).
  { intros p Hp. now apply (postsOk_insert _ _ t). }
  unfold runThread in Hrun.
  destruct (code t) as
    [ r | | why | delta k | k | msg k | b k | k | kRecv kDefault
    | kSent kFinalize | kClosed kDefault | kTick kFinalize | z k | k | k
    | r p k | k | k | fld z k | k | k | k | k ] eqn:Hcode;
    simpl in Hc;
    try (run_cases Hrun; simpl;
         first [exact Hok | apply Hset; first [exact Hc | apply Hc]]).
  - destruct (loop t) as [body|] eqn:Hlp; [|discriminate].
    injection Hrun as <-. simpl. apply (postsOk_insert _ _ t); auto.
    simpl. rewrite Hc. now apply Hl.
  - destruct (bucket (client s)) as [|sender rest] eqn:Hb.
    + injection Hrun as <-. apply Hset. apply Hc.
    + destruct (threads s !! sender) as [ts|] eqn:Hts; [|discriminate].
      destruct (code ts) eqn:Hcs; try discriminate.
      injection Hrun as <-. simpl.
      assert (Hne : tid <> sender).
      { intros ->. rewrite Ht in Hts. injection Hts as ->. congruence. }
      apply (postsOk_insert _ _ t); try reflexivity.
      * apply (postsOk_insert _ _ ts); auto.
        simpl. destruct (Hok _ _ Hts) as [Hs _]. rewrite Hcs in Hs.
        apply Hs.
      * now rewrite list_lookup_insert_ne by auto.
      * simpl. apply Hc.
  - destruct (finalize (client s)).
    + injection Hrun as <-. simpl.
      apply (postsOk_insert _ _ t); auto. simpl. apply Hc.
    + destruct (bool_decide _); [discriminate|]. injection Hrun as <-.
      simpl. apply (postsOk_insert _ _ t); auto.
      simpl. now rewrite Hcode.
  - injection Hrun as <-. apply Hset.
    destruct (finalize (client s)); apply Hc.
  - injection Hrun as <-. simpl. destruct Hc as [Hp Hk].
    apply postsOk_app; [|exact Hp|discriminate].
    apply (postsOk_insert _ _ t); auto.
Qed.

Lemma postsOk_run (ls : list Label) (s s' : Sys) :
  postsOk (threads s) -> run s ls = Some s' -> postsOk (threads s').
Proof.
  revert s. induction ls as [|l ls IH]; intros s Hok Hrun; simpl in Hrun.
  - now injection Hrun as <-.
  - destruct (step s l) as [s1|] eqn:Hstep; [|discriminate].
    apply (IH s1); [|exact Hrun].
    unfold step in Hstep. destruct (crashed s); [discriminate|].
    destruct l as [call| |tid a].
    + injection Hstep as <-. simpl.
      apply postsOk_app; [exact Hok | apply postOk_callProg | discriminate].
    + destruct (ticker (client s)) as [tk|]; [|discriminate].
      destruct (tickStopped tk); [discriminate|]. now injection Hstep as <-.
    + destruct (threads s !! tid) as [t|] eqn:Ht; [|discriminate].
      eapply postsOk_runThread; eassumption.
Qed.

Lemma inFlight_le (ts : list Thread) :
  postsOk ts -> 0 <= inFlight ts <= tokensHeld ts.
Proof.
  induction ts as [|t ts IH]; intros Hok; simpl; [lia|].
  assert (H0 : b2z (posting (code t)) <= b2z (holds t)).
  { destruct (Hok 0%nat t eq_refl) as [Hc _].
    destruct (code t); simpl in *; destruct (holds t); simpl; lia. }
  assert (H1 : 0 <= inFlight ts <= tokensHeld ts).
  { apply IH. intros j tj Hj. exact (Hok (S j) tj Hj). }
  destruct (posting (code t)); simpl in *; lia.
Qed.

Section In_flight.

Variable NewMiniClient : MiniConfig -> MiniClient + string.

Lemma postsOk_reachable (cfg : Config) (s : Sys) :
  reachable NewMiniClient cfg s -> postsOk (threads s).
Proof.
  intros (s0 & ls & Hboot & Hrun).
  apply (postsOk_run ls s0 s); [|exact Hrun].
  destruct (boot_shape _ _ _ Hboot)
    as (m & rest & -> & _ & _ & _ & _ & _ & Hrest).
  intros j tj Hj. destruct j as [|j]; simpl in Hj.
  - injection Hj as <-. simpl.
    split; [apply postOk_supplyFrom | discriminate].
  - destruct Hrest as [(-> & _)|(-> & _)]; [discriminate|].
    destruct j; [|discriminate]. injection Hj as <-. simpl.
    split; [apply postOk_tickerLoop|].
    intros body [= <-]. apply postOk_tickerLoop.
Qed.

(** The capacity bounds the requests in flight: in every reachable state
    the goroutines inside [m.c.Post] are delivery tasks, each owns an
    admission token, and they are at most [cfg.Concurrency] (none if that
    is negative). *)
Theorem posts_bounded (cfg : Config) (s : Sys) :
  reachable NewMiniClient cfg s ->
  (0 <= inFlight (threads s) <= Z.max 0 (Config.Concurrency cfg)) /\
  inFlight (threads s) <= inCirculation s /\
  (forall tid t, threads s !! tid = Some t -> posting (code t) = true ->
                 role t = Worker /\ holds t = true).
Proof.
  intros Hreach.
  pose proof (postsOk_reachable _ _ Hreach) as Hok.
  pose proof (TokInv_reachable _ _ _ Hreach) as Inv.
  pose proof (inFlight_le _ Hok) as Hle.
  pose proof (tok_held _ _ Inv). pose proof (tok_bound _ _ Inv).
  split; [lia|]. split; [unfold inCirculation; lia|].
  intros tid t Ht Hpost.
  destruct (Hok _ _ Ht) as [Hc _].
  destruct (code t); try discriminate. simpl in Hc. tauto.
Qed.

End In_flight.

(** ** After the shutdown the goroutines of the client can run down *)

Lemma waitFree_statReq (r : Role) (o : Outcome) (ms : MiniStats) (k : Prog) :
  waitFree r k -> waitFree r (statReq o ms k).
Proof. intros H. now destruct o. Qed.

Lemma waitFree_syncWorker (b : Bundle) : waitFree Worker (syncWorker b).
Proof.
  unfold syncWorker. simpl. intros [err|code].
  - simpl. auto.
  - destruct (negb (code =? StatusNoContent)); simpl; auto.
Qed.

Lemma waitFree_maybeWork (r : Role) (k : Prog) :
  waitFree r k -> waitFree r (maybeWork k).
Proof.
  intros Hk. unfold maybeWork. simpl. intros b.
  destruct (NumberFramed (bMiniStats b) <=? 0); simpl; [exact Hk|].
  split; [split; [apply waitFree_syncWorker | exact Hk] | exact Hk].
Qed.

Lemma drain_callProg (m : Client) (call : ApiCall) :
  inClose (callProg m call) \/ waitFree Caller (callProg m call).
Proof.
  destruct call as [msg| |]; simpl.
  - right. split; [exact I|]. intros ms.
    destruct ((Buffered ms >=? RequestSizeTrigger m)
              || (timeTrigger m =? TimeTriggerImmediate)); [|exact I].
    now apply waitFree_maybeWork.
  - right. simpl. auto.
  - left. now left.
Qed.

Lemma waitFree_tickerLoop : waitFree TickerTask tickerLoop.
Proof.
  unfold tickerLoop. simpl. split; [|exact I].
  change (waitFree TickerTask (maybeWork Continue)).
  now apply waitFree_maybeWork.
Qed.

Lemma waitFree_supplyFrom (fuel : nat) (n i : Z) :
  waitFree Supplier (supplyFrom fuel n i).
Proof.
  revert i. induction fuel as [|fuel IH]; intros i; simpl; [exact I|].
  destruct (i <? n); simpl; [|exact I].
  split; [apply IH | exact I].
Qed.

Lemma drainOk_insert (ts : list Thread) (i : nat) (t t' : Thread) :
  drainOk ts ->
  ts !! i = Some t ->
  role t' = role t ->
  loop t' = loop t ->
  inClose (code t') \/ waitFree (role t) (code t') ->
  drainOk (<[i := t']> ts).
Proof.
  intros Hok Ht Hr Hl Hc j tj Hj.
  destruct (lookup_insert_cases _ _ _ _ _ Hj) as [[-> ->]|[Hne Hj']].
  - rewrite Hr, Hl. split; [exact Hc|]. exact (proj2 (Hok _ _ Ht)).
  - exact (Hok _ _ Hj').
Qed.

Lemma drainOk_app (ts : list Thread) (t' : Thread) :
  drainOk ts ->
  inClose (code t') \/ waitFree (role t') (code t') ->
  (forall body, loop t' = Some body -> waitFree (role t') body) ->
  drainOk (ts ++ [t']).
Proof.
  intros Hok Hc Hl j tj Hj.
  apply lookup_app_Some in Hj. destruct Hj as [Hj|[Hge Hj]].
  - exact (Hok _ _ Hj).
  - destruct (j - _)%nat; [|discriminate]. injection Hj as <-. auto.
Qed.

Lemma drainOk_runThread (s s' : Sys) (tid : nat) (t : Thread) (a : Answer) :
  drainOk (threads s) ->
  threads s !! tid = Some t ->
  runThread s tid t a = Some s' ->
  drainOk (threads s').
Proof.
  intros Hok Ht Hrun. destruct (Hok _ _ Ht) as [Hc Hl].
  assert (Hset : forall p,
            waitFree (role t) p ->
            drainOk (<[tid := goto p t]> (threads s))).
  { intros p Hp. apply (drainOk_insert _ _ t); auto. }
  destruct Hc as [[Hcode|[Hcode|Hcode]]|Hc].
  - unfold runThread in Hrun. rewrite Hcode in Hrun. unfold Close in Hrun.
    destruct (ticker (client s)); injection Hrun as <-; [|exact Hok].
    simpl. apply (drainOk_insert _ _ t); auto. left. right. now left.
  - unfold runThread in Hrun. rewrite Hcode in Hrun.
    destruct (finalize (client s)); injection Hrun as <-; [exact Hok|].
    simpl. apply (drainOk_insert _ _ t); auto. left. right. now right.
  - unfold runThread in Hrun. rewrite Hcode in Hrun.
    destruct (_ =? 0); [|discriminate]. injection Hrun as <-.
    simpl. apply Hset. exact I.
  - unfold runThread in Hrun.
    destruct (code t) as
      [ r | | why | delta k | k | msg k | b k | k | kRecv kDefault
      | kSent kFinalize | kClosed kDefault | kTick kFinalize | z k | k | k
      | r p k | k | k | fld z k | k | k | k | k ] eqn:Hcode;
      simpl in Hc;
      try contradiction;
      try (run_cases Hrun; simpl;
           first [exact Hok | apply Hset; first [exact Hc | apply Hc]]).
    + destruct (loop t) as [body|] eqn:Hlp; [|discriminate].
      injection Hrun as <-. simpl. apply (drainOk_insert _ _ t); auto.
    + destruct (bucket (client s)) as [|sender rest] eqn:Hb.
      * injection Hrun as <-. apply Hset. apply Hc.
      * destruct (threads s !! sender) as [ts|] eqn:Hts; [|discriminate].
        destruct (code ts) eqn:Hcs; try discriminate.
        injection Hrun as <-. simpl.
        assert (Hne : tid <> sender).
        { intros ->. rewrite Ht in Hts. injection Hts as ->. congruence. }
        apply (drainOk_insert _ _ t); try reflexivity.
        -- apply (drainOk_insert _ _ ts); auto.
           simpl. right. destruct (Hok _ _ Hts) as [[Hs|Hs] _].
           ++ rewrite Hcs in Hs. destruct Hs as [Hs|[Hs|Hs]]; discriminate.
           ++ rewrite Hcs in Hs. apply Hs.
        -- now rewrite list_lookup_insert_ne by auto.
        -- simpl. right. apply Hc.
    + destruct (finalize (client s)).
      * injection Hrun as <-. simpl.
        apply (drainOk_insert _ _ t); auto. simpl. right. apply Hc.
      * destruct (bool_decide _); [discriminate|]. injection Hrun as <-.
        simpl. apply (drainOk_insert _ _ t); auto.
        simpl. right. now rewrite Hcode.
    + injection Hrun as <-. apply Hset.
      destruct (finalize (client s)); apply Hc.
    + injection Hrun as <-. simpl. destruct Hc as [Hp Hk].
      apply drainOk_app; [|now right|discriminate].
      apply (drainOk_insert _ _ t); auto.
Qed.

Lemma drainOk_run (ls : list Label) (s s' : Sys) :
  drainOk (threads s) -> run s ls = Some s' -> drainOk (threads s').
Proof.
  revert s. induction ls as [|l ls IH]; intros s Hok Hrun; simpl in Hrun.
  - now injection Hrun as <-.
  - destruct (step s l) as [s1|] eqn:Hstep; [|discriminate].
    apply (IH s1); [|exact Hrun].
    unfold step in Hstep. destruct (crashed s); [discriminate|].
    destruct l as [call| |tid a].
    + injection Hstep as <-. simpl.
      apply drainOk_app; [exact Hok | apply drain_callProg | discriminate].
    + destruct (ticker (client s)) as [tk|]; [|discriminate].
      destruct (tickStopped tk); [discriminate|]. now injection Hstep as <-.
    + destruct (threads s !! tid) as [t|] eqn:Ht; [|discriminate].
      eapply drainOk_runThread; eassumption.
Qed.

Lemma workLeft_insert (ts : list Thread) (i : nat) (t t' : Thread) :
  ts !! i = Some t ->
  (workLeft (<[i := t']> ts) + toGo (code t)
   = workLeft ts + toGo (code t'))%nat.
Proof.
  revert i. induction ts as [|x ts IH]; intros i Hi; [discriminate|].
  destruct i as [|i]; simpl in *.
  - injection Hi as ->. lia.
  - specialize (IH i Hi). lia.
Qed.

Lemma workLeft_app (ts1 ts2 : list Thread) :
  workLeft (ts1 ++ ts2) = (workLeft ts1 + workLeft ts2)%nat.
Proof. induction ts1 as [|t ts1 IH]; simpl; lia. Qed.

Lemma workLeft_pos (ts : list Thread) :
  (0 < workLeft ts)%nat ->
  exists tid t, ts !! tid = Some t /\ (0 < toGo (code t))%nat.
Proof.
  induction ts as [|x ts IH]; simpl; intros H; [lia|].
  destruct (toGo (code x)) as [|n] eqn:Hx.
  - destruct (IH ltac:(lia)) as (tid & t & Ht & Hpos).
    now exists (S tid), t.
  - exists 0%nat, x. split; [reflexivity | lia].
Qed.

Lemma workLeft_zero (ts : list Thread) (i : nat) (t : Thread) :
  workLeft ts = 0%nat -> ts !! i = Some t -> toGo (code t) = 0%nat.
Proof.
  revert i. induction ts as [|x ts IH]; intros i Hz Hi; [discriminate|].
  simpl in Hz. destruct i as [|i]; simpl in Hi.
  - injection Hi as ->. lia.
  - apply (IH i); [lia | exact Hi].
Qed.

Lemma sumZ_zero (ws : list Z) :
  (forall i w, ws !! i = Some w -> w = 0) -> sumZ ws = 0.
Proof.
  induction ws as [|w ws IH]; intros H; simpl; [reflexivity|].
  rewrite (H 0%nat w eq_refl), IH; [reflexivity|].
  intros i x Hx. exact (H (S i) x Hx).
Qed.

(** Code that is neither finished nor in [Close] has something left. *)
Lemma waitFree_toGo (r : Role) (p : Prog) :
  waitFree r p -> finished p = false -> (0 < toGo p)%nat.
Proof.
  destruct p; simpl; intros H Hf; try lia; first [contradiction | discriminate].
Qed.

Section Run_down.

Variable NewMiniClient : MiniConfig -> MiniClient + string.

Lemma drainOk_reachable (cfg : Config) (s : Sys) :
  reachable NewMiniClient cfg s -> drainOk (threads s).
Proof.
  intros (s0 & ls & Hboot & Hrun).
  apply (drainOk_run ls s0 s); [|exact Hrun].
  destruct (boot_shape _ _ _ Hboot)
    as (m & rest & -> & _ & _ & _ & _ & _ & Hrest).
  intros j tj Hj. destruct j as [|j]; simpl in Hj.
  - injection Hj as <-. simpl.
    split; [right; apply waitFree_supplyFrom | discriminate].
  - destruct Hrest as [(-> & _)|(-> & _)]; [discriminate|].
    destruct j; [|discriminate]. injection Hj as <-. simpl.
    split; [right; apply waitFree_tickerLoop|].
    intros body [= <-]. apply waitFree_tickerLoop.
Qed.

(** After the shutdown a goroutine that has something left to run and
    does not have to wait for the statistics lock can take its next step,
    and the work left goes down by one. *)
Lemma runDown_step (cfg : Config) (s : Sys) (tid : nat) (t : Thread) :
  reachable NewMiniClient cfg s ->
  crashed s = false ->
  finalize (client s) = true ->
  threads s !! tid = Some t ->
  (0 < toGo (code t))%nat ->
  (prim (code t) = PLock -> statLock (client s) = false) ->
  exists s',
    step s (Run tid (answerFor (code t))) = Some s' /\
    crashed s' = false /\ finalize (client s') = true /\
    S (workLeft (threads s')) = workLeft (threads s).
Proof.
  intros Hreach Hc Hfin Ht Hpos Hlock.
  pose proof (TokInv_reachable _ _ _ Hreach) as TInv.
  destruct (WgInv_reachable _ _ _ Hreach) as [ws WInv].
  destruct (StatInv_reachable _ _ _ Hreach) as [own SInv].
  pose proof (loopsOk_reachable _ _ _ Hreach _ _ Ht) as Hloop.
  destruct (WgInvAt_weight _ _ _ _ WInv Ht) as (w & _ & Hw & Hle).
  pose proof (wgOk_nonneg _ _ _ Hw) as Hw0.
  destruct (drainOk_reachable _ _ Hreach _ _ Ht) as [[Hin|Hfree] _].
  { destruct Hin as [H|[H|H]]; rewrite H in Hpos; simpl in Hpos; lia. }
  assert (Hgo : forall (p : Prog) (m : Client) (h : bool),
            finalize m = true ->
            S (toGo p) = toGo (code t) ->
            exists s',
              Some (setThread tid (mkThread (role t) p (loop t) h)
                      (setClient m s)) = Some s' /\
              crashed s' = false /\ finalize (client s') = true /\
              S (workLeft (threads s')) = workLeft (threads s)).
  { intros p m h Hm Hp. eexists. split; [reflexivity|].
    split; [exact Hc|]. split; [exact Hm|]. simpl.
    pose proof (workLeft_insert _ _ _ (mkThread (role t) p (loop t) h) Ht)
      as Hwl.
    simpl in Hwl. lia. }
  rewrite (step_run _ _ _ _ Hc Ht). unfold runThread.
  destruct (code t) as
    [ r | | why | delta k | k | msg k | b k | k | kRecv kDefault
    | kSent kFinalize | kClosed kDefault | kTick kFinalize | z k | k | k
    | r p k | k | k | fld z k | k | k | k | k ] eqn:Hcode;
    simpl in Hpos, Hfree, Hw; try lia; try contradiction; simpl answerFor.
  - rewrite Hfree in Hloop. simpl in Hloop. rewrite Hloop.
    apply (Hgo tickerLoop (client s) (holds t)); [exact Hfin | reflexivity].
  - now apply (Hgo k _ (holds t)).
  - change (is_uint64 (NumberFramed (bMiniStats idleBundle))) with true.
    cbv iota. now apply (Hgo (k idleBundle) (client s) (holds t)).
  - now apply (Hgo (k (mkMiniStats 0 0)) (client s) (holds t)).
  - now apply (Hgo (k (PostErr "shutdown")) (client s) (holds t)).
  - now apply (Hgo k (client s) (holds t)).
  - rewrite (tok_closed _ _ TInv Hfin).
    now apply (Hgo kDefault (client s) (holds t)).
  - rewrite Hfin. now apply (Hgo kFinalize (client s) false).
  - rewrite Hfin. now apply (Hgo kClosed (client s) (holds t)).
  - rewrite Hfin.
    destruct (ticker (client s)) as [tk|]; [destruct (tickPending tk)|];
      now apply (Hgo kFinalize (client s) (holds t)).
  - destruct (Z.ltb_spec (finalizeDone (client s) + z) 0); [lia|].
    now apply (Hgo k _ (holds t)).
  - destruct (Z.ltb_spec (finalizeDone (client s) - 1) 0); [lia|].
    now apply (Hgo k _ (holds t)).
  - eexists. split; [reflexivity|]. split; [exact Hc|].
    split; [exact Hfin|]. simpl. rewrite workLeft_app. simpl.
    pose proof (workLeft_insert _ _ _
                  (withHolds false (goto k t)) Ht) as Hwl.
    simpl in Hwl. rewrite Hcode in Hwl. simpl in Hwl. lia.
  - rewrite (Hlock eq_refl). now apply (Hgo k _ (holds t)).
  - destruct (stat_threads _ _ SInv _ _ Ht) as [Hl _].
    rewrite Hcode in Hl. simpl in Hl. destruct Hl as [(d & Hd & _) _].
    apply sectionOf_Some in Hd. rewrite (stat_lock _ _ SInv), Hd. simpl.
    now apply (Hgo k _ (holds t)).
  - now apply (Hgo k _ (holds t)).
  - apply (Hgo (k (stats (client s))) (client s) (holds t)); [exact Hfin|].
    now rewrite (proj2 (Hfree (stats (client s)))).
  - now apply (Hgo k (client s) (holds t)).
Qed.

(** Some goroutine that has something left can take its step: the owner of
    the statistics lock if it is held, any one otherwise. *)
Lemma runDown_choice (cfg : Config) (s : Sys) :
  reachable NewMiniClient cfg s ->
  (0 < workLeft (threads s))%nat ->
  exists tid t,
    threads s !! tid = Some t /\ (0 < toGo (code t))%nat /\
    (prim (code t) = PLock -> statLock (client s) = false).
Proof.
  intros Hreach Hpos.
  destruct (StatInv_reachable _ _ _ Hreach) as [own SInv].
  destruct own as [[o d]|] eqn:Hown.
  - pose proof (stat_exists _ _ SInv o d eq_refl) as Hlt.
    destruct (lookup_lt_is_Some_2 _ _ Hlt) as [t Ht].
    destruct (stat_threads _ _ SInv _ _ Ht) as [Hl _].
    rewrite sectionOf_self in Hl.
    exists o, t. split; [exact Ht|].
    destruct (drainOk_reachable _ _ Hreach _ _ Ht) as [[Hin|Hfree] _].
    + destruct Hin as [H|[H|H]]; rewrite H in Hl; simpl in Hl;
        discriminate.
    + split.
      * apply (waitFree_toGo _ _ Hfree).
        destruct (code t); try reflexivity. simpl in Hl. discriminate.
      * intros Hp. destruct (code t); try discriminate.
        simpl in Hl. destruct Hl as [Hl _]. discriminate.
  - destruct (workLeft_pos _ Hpos) as (tid & t & Ht & Htg).
    exists tid, t. split; [exact Ht|]. split; [exact Htg|].
    intros _. now rewrite (stat_lock _ _ SInv).
Qed.

(** Once the shutdown signal is closed the goroutines of the client can
    always run to their ends: from every reachable state with the signal
    closed, steps of goroutines alone (no new call, no tick; nothing more
    buffered, the transport giving up) lead to a state in which the wait
    group reads zero, so that [Wait] returns. *)
Theorem shutdown_can_complete (cfg : Config) (s : Sys) :
  reachable NewMiniClient cfg s ->
  crashed s = false ->
  finalize (client s) = true ->
  exists ls s',
    run s ls = Some s' /\ Forall isRun ls /\
    length ls = workLeft (threads s) /\
    crashed s' = false /\ finalizeDone (client s') = 0.
Proof.
  remember (workLeft (threads s)) as n eqn:Hn.
  revert s Hn. induction n as [|n IH]; intros s Hn Hreach Hc Hfin.
  - exists [], s. split; [reflexivity|]. split; [constructor|].
    split; [reflexivity|]. split; [exact Hc|].
    destruct (WgInv_reachable _ _ _ Hreach) as [ws WInv].
    rewrite (wg_value _ _ WInv). apply sumZ_zero. intros i w Hw.
    destruct (lookup_lt_is_Some_2 (threads s) i) as [t Ht].
    { rewrite <- (wg_length _ _ WInv). now apply lookup_lt_Some in Hw. }
    pose proof (workLeft_zero _ _ _ (eq_sym Hn) Ht) as Hz.
    destruct (wg_threads _ _ WInv _ _ _ Ht Hw) as [Hok _].
    destruct (drainOk_reachable _ _ Hreach _ _ Ht) as [[Hin|Hfree] _].
    + destruct Hin as [H|[H|H]]; rewrite H in Hok; simpl in Hok; tauto.
    + destruct (code t); simpl in Hz, Hfree, Hok;
        try discriminate; try contradiction; try lia.
  - destruct (runDown_choice cfg s Hreach ltac:(lia))
      as (tid & t & Ht & Hpos & Hlock).
    destruct (runDown_step cfg s tid t Hreach Hc Hfin Ht Hpos Hlock)
      as (s1 & Hstep & Hc1 & Hfin1 & Hwl).
    assert (Hreach1 : reachable NewMiniClient cfg s1).
    { destruct Hreach as (s0 & ls0 & Hboot & Hrun0).
      exists s0, (ls0 ++ [Run tid (answerFor (code t))]).
      split; [exact Hboot|]. rewrite run_app, Hrun0. simpl.
      now rewrite Hstep. }
    destruct (IH s1 ltac:(lia) Hreach1 Hc1 Hfin1)
      as (ls & s' & Hrun & Hall & Hlen & Hc' & Hz).
    exists (Run tid (answerFor (code t)) :: ls), s'.
    split; [now rewrite (run_step _ _ _ _ Hstep)|].
    split; [constructor; [exact I | exact Hall]|].
    split; [simpl; lia|]. split; [exact Hc' | exact Hz].
Qed.

End Run_down.

(** ** Every record taken is accounted once *)

Lemma owed_statReq (req : bool) (o : Outcome) (ms : MiniStats) (k : Prog) :
  owed req (statReq o ms k)
  = (if req then 1 else NumberFramed ms) + owed req k.
Proof. destruct o, req; simpl; lia. Qed.

Lemma owedOk_statReq (req : bool) (o : Outcome) (ms : MiniStats) (k : Prog) :
  owedOk req k -> owedOk req (statReq o ms k).
Proof. intros H. now destruct o. Qed.

Lemma owed_syncWorkerExit (req : bool) : owed req syncWorkerExit = 0.
Proof. reflexivity. Qed.

Lemma owed_after_Post (req : bool) (b : Bundle) (res : PostResult) :
  owed req
    match res with
    | PostErr _ => statReqErr (bMiniStats b) syncWorkerExit
    | PostResp StatusCode =>
        if negb (StatusCode =? StatusNoContent)
        then statReqRej (bMiniStats b) (BodyClose syncWorkerExit)
        else statReqSuccess (bMiniStats b) (BodyClose syncWorkerExit)
    end
  = if req then 1 else NumberFramed (bMiniStats b).
Proof.
  destruct res as [err|code].
  - destruct req; simpl; lia.
  - destruct (negb (code =? StatusNoContent)), req; simpl; lia.
Qed.

Lemma owed_syncWorker (req : bool) (b : Bundle) :
  owed req (syncWorker b) = if req then 1 else NumberFramed (bMiniStats b).
Proof. unfold syncWorker. simpl. destruct req; simpl; lia. Qed.

Lemma owedOk_syncWorker (req : bool) (b : Bundle) : owedOk req (syncWorker b).
Proof.
  unfold syncWorker. simpl. intros res. split.
  - destruct res as [err|code]; [simpl; auto|].
    destruct (negb (code =? StatusNoContent)); simpl; auto.
  - rewrite owed_after_Post. destruct req; simpl; lia.
Qed.

Lemma owed_maybeWork (req : bool) (k : Prog) :
  owed req (maybeWork k) = owed req k.
Proof. reflexivity. Qed.

Lemma owedOk_maybeWork (req : bool) (k : Prog) :
  owedOk req k -> owed req k = 0 -> owedOk req (maybeWork k).
Proof.
  intros Hk H0. unfold maybeWork.
  cbn [owedOk]. intros b. unfold due.
  destruct (NumberFramed (bMiniStats b) <=? 0).
  - split; [exact Hk | exact H0].
  - change (statReqDrop (bMiniStats b) (Gosched (AtomicAddInt32 (-1) k)))
      with (statReq OutDropped (bMiniStats b)
              (Gosched (AtomicAddInt32 (-1) k))).
    cbn [owedOk owed]. rewrite owed_syncWorker, owed_statReq.
    cbn [owed]. rewrite H0.
    split; [|destruct req; lia].
    split; [split; [apply owedOk_syncWorker | exact Hk]|].
    split; [apply owedOk_statReq; exact Hk|].
    destruct req; lia.
Qed.

Lemma owed_callProg (req : bool) (m : Client) (call : ApiCall) :
  owedOk req (callProg m call) /\ owed req (callProg m call) = 0.
Proof.
  destruct call as [msg| |]; [|simpl; auto..].
  assert (H : forall ms,
            owedOk req
              (if (Buffered ms >=? RequestSizeTrigger m)
                  || (timeTrigger m =? TimeTriggerImmediate)
               then maybeWork (Return (RError None))
               else Return (RError None)) /\
            owed req
              (if (Buffered ms >=? RequestSizeTrigger m)
                  || (timeTrigger m =? TimeTriggerImmediate)
               then maybeWork (Return (RError None))
               else Return (RError None)) = 0).
  { intros ms.
    destruct ((Buffered ms >=? RequestSizeTrigger m)
              || (timeTrigger m =? TimeTriggerImmediate)).
    - split; [now apply owedOk_maybeWork | reflexivity].
    - split; [exact I | reflexivity]. }
  unfold callProg, BufferMessage. cbn [owedOk owed]. split.
  - split; [exact I|]. split.
    + intros ms. split; [apply H|].
      rewrite (proj2 (H ms)). symmetry. apply H.
    + symmetry. apply H.
  - reflexivity.
Qed.

Lemma owed_tickerLoop (req : bool) :
  owedOk req tickerLoop /\ owed req tickerLoop = 0.
Proof.
  unfold tickerLoop. simpl. split; [|reflexivity].
  split; [|split; [exact I | reflexivity]].
  change (owedOk req (maybeWork Continue)). now apply owedOk_maybeWork.
Qed.

Lemma owed_supplyFrom (req : bool) (fuel : nat) (n i : Z) :
  owedOk req (supplyFrom fuel n i) /\ owed req (supplyFrom fuel n i) = 0.
Proof.
  revert i. induction fuel as [|fuel IH]; intros i; simpl; [auto|].
  destruct (i <? n); simpl; [|auto].
  destruct (IH (i + 1)) as [H1 H2]. auto.
Qed.

Lemma pendingOf_insert (req : bool) (ts : list Thread) (i : nat)
    (t t' : Thread) :
  ts !! i = Some t ->
  pendingOf req (<[i := t']> ts)
  = pendingOf req ts - owed req (code t) + owed req (code t').
Proof.
  revert i. induction ts as [|x ts IH]; intros i Hi; [discriminate|].
  destruct i as [|i]; simpl in *.
  - injection Hi as ->. lia.
  - rewrite (IH i Hi). lia.
Qed.

Lemma pendingOf_app (req : bool) (ts1 ts2 : list Thread) :
  pendingOf req (ts1 ++ ts2) = pendingOf req ts1 + pendingOf req ts2.
Proof. induction ts1 as [|t ts1 IH]; simpl; lia. Qed.

Lemma owedAll_insert (req : bool) (ts : list Thread) (i : nat)
    (t t' : Thread) :
  owedAll req ts ->
  ts !! i = Some t ->
  loop t' = loop t ->
  owedOk req (code t') ->
  owedAll req (<[i := t']> ts).
Proof.
  intros Hok Ht Hl Hc j tj Hj.
  destruct (lookup_insert_cases _ _ _ _ _ Hj) as [[-> ->]|[Hne Hj']].
  - rewrite Hl. split; [exact Hc|]. exact (proj2 (Hok _ _ Ht)).
  - exact (Hok _ _ Hj').
Qed.

Lemma owedAll_app (req : bool) (ts : list Thread) (t' : Thread) :
  owedAll req ts ->
  owedOk req (code t') ->
  loop t' = None ->
  owedAll req (ts ++ [t']).
Proof.
  intros Hok Hc Hl j tj Hj.
  apply lookup_app_Some in Hj. destruct Hj as [Hj|[Hge Hj]].
  - exact (Hok _ _ Hj).
  - destruct (j - _)%nat; [|discriminate]. injection Hj as <-.
    split; [exact Hc|]. rewrite Hl. discriminate.
Qed.

Lemma getCounter_addCounter (fld fld' : Counter) (n : Z) (m : Stats) :
  getCounter fld (addCounter fld' n m)
  = if bool_decide (fld' = fld) then uint64 (getCounter fld m + n)
    else getCounter fld m.
Proof. destruct fld, fld'; reflexivity. Qed.

#[local] Arguments taken : simpl never.

(** What one primitive does to the running total and to the debts. *)
Lemma runThread_owed (req : bool) (s s' : Sys) (tid : nat) (t : Thread)
    (a : Answer) :
  owedAll req (threads s) ->
  threads s !! tid = Some t ->
  runThread s tid t a = Some s' ->
  owedAll req (threads s') /\
  uint64 (getCounter (tally req) (stats (client s'))
          + pendingOf req (threads s'))
  = uint64 (getCounter (tally req) (stats (client s))
            + pendingOf req (threads s) + taken req s (Run tid a)).
Proof.
  intros Hok Ht Hrun. destruct (Hok _ _ Ht) as [Hc Hl].
  assert (Htk : forall v,
            (forall k b, code t = SwapBundle k -> a = ABundle b ->
                         v = due req b) ->
            ((forall k, code t <> SwapBundle k) \/
             (forall b, a <> ABundle b) -> v = 0) ->
            taken req s (Run tid a) = v).
  { intros v H1 H2. unfold taken. rewrite Ht.
    destruct a as [|b| | |]; try (symmetry; apply H2; right; discriminate).
    destruct (code t) eqn:E;
      try (symmetry; apply H2; left; discriminate).
    symmetry. now apply (H1 k b). }
  assert (Hset : forall (p : Prog) (m : Client) (h : bool),
            owedOk req p ->
            getCounter (tally req) (stats m)
            = getCounter (tally req) (stats (client s)) ->
            owed req p = owed req (code t) + taken req s (Run tid a) ->
            let s1 := setThread tid (mkThread (role t) p (loop t) h)
                        (setClient m s) in
            owedAll req (threads s1) /\
            uint64 (getCounter (tally req) (stats (client s1))
                    + pendingOf req (threads s1))
            = uint64 (getCounter (tally req) (stats (client s))
                      + pendingOf req (threads s) + taken req s (Run tid a))).
  { intros p m h Hp Hm Ho s1. split.
    - apply (owedAll_insert _ _ _ t); auto.
    - unfold s1. cbn [threads client setThread setClient].
      rewrite Hm, (pendingOf_insert _ _ _ _ _ Ht). cbn [code]. rewrite Ho.
      f_equal. lia. }
  unfold runThread in Hrun.
  destruct (code t) as
    [ r | | why | delta k | k | msg k | b k | k | kRecv kDefault
    | kSent kFinalize | kClosed kDefault | kTick kFinalize | z k | k | k
    | r p k | k | k | fld z k | k | k | k | k ] eqn:Hcode;
    simpl in Hc.
  - discriminate.
  - assert (Hb : exists body,
              loop t = Some body /\ s' = setThread tid (goto body t) s).
    { destruct (loop t) as [body|]; [|discriminate].
      exists body. split; [reflexivity|]. now injection Hrun as <-. }
    destruct Hb as (body & Hlp & ->). destruct (Hl body Hlp) as [Hb1 Hb2].
    apply (Hset body (client s) (holds t)); auto.
    assert (Htk0 : taken req s (Run tid a) = 0)
      by (apply Htk; [discriminate | auto]).
    rewrite Hb2, Htk0. reflexivity.
  - assert (Htk0 : taken req s (Run tid a) = 0)
      by (apply Htk; [discriminate | auto]).
    injection Hrun as <-. split; [exact Hok|]. simpl.
    rewrite Htk0. f_equal. lia.
  - assert (Htk0 : taken req s (Run tid a) = 0)
      by (apply Htk; [discriminate | auto]).
    injection Hrun as <-.
    apply (Hset k _ (holds t));
      [exact Hc | destruct req; reflexivity | rewrite Htk0; simpl; lia].
  - destruct a as [|b| | |]; try discriminate.
    destruct (is_uint64 _); [|discriminate]. injection Hrun as <-.
    assert (Htk0 : taken req s (Run tid (ABundle b)) = due req b).
    { apply Htk.
      - intros k' b' _ [= ->]. reflexivity.
      - intros [H|H]; [now contradiction (H k) | now contradiction (H b)]. }
    apply (Hset (k b) (client s) (holds t)); [apply Hc | reflexivity|].
    rewrite Htk0, (proj2 (Hc b)). simpl.
    rewrite (proj2 (Hc idleBundle)). unfold due at 2. simpl. lia.
  - destruct a as [| |ms| |]; try discriminate. injection Hrun as <-.
    assert (Htk0 : taken req s (Run tid (AMiniStats ms)) = 0)
      by (apply Htk; [discriminate | auto]).
    apply (Hset (k ms) (client s) (holds t)); [apply Hc | reflexivity|].
    rewrite Htk0. simpl. rewrite (proj2 (Hc ms)). lia.
  - destruct a as [| | |res|]; try discriminate. injection Hrun as <-.
    assert (Htk0 : taken req s (Run tid (APost res)) = 0)
      by (apply Htk; [discriminate | auto]).
    apply (Hset (k res) (client s) (holds t)); [apply Hc | reflexivity|].
    rewrite Htk0. simpl. rewrite (proj2 (Hc res)). lia.
  - assert (Htk0 : taken req s (Run tid a) = 0)
      by (apply Htk; [discriminate | auto]).
    injection Hrun as <-. apply (Hset k (client s) (holds t)); auto.
    rewrite Htk0. simpl. lia.
  - destruct Hc as (Hc1 & Hc2 & Hc3).
    assert (Htk0 : taken req s (Run tid a) = 0)
      by (apply Htk; [discriminate | auto]).
    destruct (bucket (client s)) as [|sender rest] eqn:Hb.
    + injection Hrun as <-. apply (Hset kDefault (client s) (holds t)); auto.
      rewrite Htk0. simpl. lia.
    + destruct (threads s !! sender) as [ts|] eqn:Hts; [|discriminate].
      destruct (code ts) eqn:Hcs; try discriminate.
      injection Hrun as <-.
      assert (Hne : tid <> sender).
      { intros ->. rewrite Ht in Hts. injection Hts as ->. congruence. }
      destruct (Hok _ _ Hts) as [Hs _]. rewrite Hcs in Hs.
      simpl in Hs. destruct Hs as (Hs1 & Hs2 & Hs3).
      split.
      * simpl. apply (owedAll_insert _ _ _ t); auto.
        -- apply (owedAll_insert _ _ _ ts); auto.
        -- now rewrite list_lookup_insert_ne by auto.
      * simpl. rewrite Htk0.
        rewrite (pendingOf_insert _ _ _ t)
          by now rewrite list_lookup_insert_ne by auto.
        rewrite (pendingOf_insert _ _ _ _ _ Hts). simpl.
        rewrite Hcode, Hcs. simpl. f_equal. lia.
  - destruct Hc as (Hc1 & Hc2 & Hc3).
    assert (Htk0 : taken req s (Run tid a) = 0)
      by (apply Htk; [discriminate | auto]).
    destruct (finalize (client s)).
    + injection Hrun as <-. apply (Hset kFinalize (client s) false); auto.
      rewrite Htk0. simpl. lia.
    + destruct (bool_decide _); [discriminate|]. injection Hrun as <-.
      split.
      * simpl. apply (owedAll_insert _ _ _ t); auto. simpl.
        rewrite Hcode. simpl. auto.
      * simpl. rewrite Htk0, (pendingOf_insert _ _ _ _ _ Ht). simpl.
        f_equal. lia.
  - destruct Hc as (Hc1 & Hc2 & Hc3).
    assert (Htk0 : taken req s (Run tid a) = 0)
      by (apply Htk; [discriminate | auto]).
    injection Hrun as <-.
    apply (Hset _ (client s) (holds t)); [now destruct (finalize _) | reflexivity|].
    rewrite Htk0. simpl. destruct (finalize (client s)); lia.
  - destruct Hc as (Hc1 & Hc2 & Hc3).
    assert (Htk0 : taken req s (Run tid a) = 0)
      by (apply Htk; [discriminate | auto]).
    assert (Htick : forall tk,
              owedAll req
                (threads (setThread tid (goto kTick t)
                            (setClient (withTicker tk (client s)) s))) /\
              uint64 (getCounter (tally req) (stats (client s))
                      + pendingOf req (<[tid := goto kTick t]> (threads s)))
              = uint64 (getCounter (tally req) (stats (client s))
                        + pendingOf req (threads s) + taken req s (Run tid a))).
    { intros tk.
      apply (Hset kTick (withTicker tk (client s)) (holds t)); auto.
      rewrite Htk0. simpl. lia. }
    assert (Hfinal : owedAll req
                       (threads (setThread tid (goto kFinalize t) s)) /\
                     uint64 (getCounter (tally req) (stats (client s))
                             + pendingOf req
                                 (<[tid := goto kFinalize t]> (threads s)))
                     = uint64 (getCounter (tally req) (stats (client s))
                               + pendingOf req (threads s)
                               + taken req s (Run tid a))).
    { apply (Hset kFinalize (client s) (holds t)); auto.
      rewrite Htk0. simpl. lia. }
    destruct (ticker (client s)) as [tk|];
      [destruct (tickPending tk)|]; destruct (finalize (client s));
      try discriminate;
      try (destruct a as [| | | |[|]]; try discriminate);
      injection Hrun as <-; first [apply Htick | apply Hfinal].
  - assert (Htk0 : taken req s (Run tid a) = 0)
      by (apply Htk; [discriminate | auto]).
    destruct (_ <? 0); injection Hrun as <-.
    + split; [exact Hok|]. simpl. rewrite Htk0. f_equal. lia.
    + apply (Hset k _ (holds t)); auto. rewrite Htk0. simpl. lia.
  - assert (Htk0 : taken req s (Run tid a) = 0)
      by (apply Htk; [discriminate | auto]).
    destruct (_ <? 0); injection Hrun as <-.
    + split; [exact Hok|]. simpl. rewrite Htk0. f_equal. lia.
    + apply (Hset k _ (holds t)); auto. rewrite Htk0. simpl. lia.
  - assert (Htk0 : taken req s (Run tid a) = 0)
      by (apply Htk; [discriminate | auto]).
    destruct (_ =? 0); [|discriminate]. injection Hrun as <-.
    apply (Hset k (client s) (holds t)); auto. rewrite Htk0. simpl. lia.
  - assert (Htk0 : taken req s (Run tid a) = 0)
      by (apply Htk; [discriminate | auto]).
    injection Hrun as <-. destruct Hc as [Hp Hk]. split.
    + simpl. apply owedAll_app; [|exact Hp|reflexivity].
      apply (owedAll_insert _ _ _ t); auto.
    + simpl. rewrite Htk0, pendingOf_app, (pendingOf_insert _ _ _ _ _ Ht).
      simpl. rewrite Hcode. simpl. f_equal. lia.
  - assert (Htk0 : taken req s (Run tid a) = 0)
      by (apply Htk; [discriminate | auto]).
    destruct (statLock (client s)); [discriminate|]. injection Hrun as <-.
    apply (Hset k _ (holds t)); auto. rewrite Htk0. simpl. lia.
  - assert (Htk0 : taken req s (Run tid a) = 0)
      by (apply Htk; [discriminate | auto]).
    destruct (statLock (client s)); injection Hrun as <-.
    + apply (Hset k _ (holds t)); auto. rewrite Htk0. simpl. lia.
    + split; [exact Hok|]. simpl. rewrite Htk0. f_equal. lia.
  - assert (Htk0 : taken req s (Run tid a) = 0)
      by (apply Htk; [discriminate | auto]).
    injection Hrun as <-. split.
    + simpl. apply (owedAll_insert _ _ _ t); auto.
    + simpl. rewrite Htk0, (pendingOf_insert _ _ _ _ _ Ht). simpl.
      rewrite Hcode. simpl. rewrite getCounter_addCounter.
      destruct (bool_decide (fld = tally req)).
      * rewrite uint64_add_idemp. f_equal. lia.
      * f_equal. lia.
  - assert (Htk0 : taken req s (Run tid a) = 0)
      by (apply Htk; [discriminate | auto]).
    injection Hrun as <-.
    apply (Hset (k (stats (client s))) (client s) (holds t));
      [apply Hc | reflexivity|].
    rewrite Htk0. simpl. rewrite (proj2 (Hc (stats (client s)))). lia.
  - assert (Htk0 : taken req s (Run tid a) = 0)
      by (apply Htk; [discriminate | auto]).
    injection Hrun as <-.
    apply (Hset k (client s) (holds t)); auto. rewrite Htk0. simpl. lia.
  - assert (Htk0 : taken req s (Run tid a) = 0)
      by (apply Htk; [discriminate | auto]).
    destruct (ticker (client s)); injection Hrun as <-.
    + apply (Hset k _ (holds t)); auto. rewrite Htk0. simpl. lia.
    + split; [exact Hok|]. simpl. rewrite Htk0. f_equal. lia.
  - assert (Htk0 : taken req s (Run tid a) = 0)
      by (apply Htk; [discriminate | auto]).
    destruct (finalize (client s)); injection Hrun as <-.
    + split; [exact Hok|]. simpl. rewrite Htk0. f_equal. lia.
    + apply (Hset k _ (holds t)); auto. rewrite Htk0. simpl. lia.
Qed.

Lemma uint64_add_congr (x y z : Z) :
  uint64 x = uint64 y -> uint64 (x + z) = uint64 (y + z).
Proof.
  unfold uint64. intros H.
  rewrite <- (Zplus_mod_idemp_l x), H, Zplus_mod_idemp_l. reflexivity.
Qed.

Lemma step_owed (req : bool) (s s' : Sys) (l : Label) :
  owedAll req (threads s) ->
  step s l = Some s' ->
  owedAll req (threads s') /\
  uint64 (getCounter (tally req) (stats (client s'))
          + pendingOf req (threads s'))
  = uint64 (getCounter (tally req) (stats (client s))
            + pendingOf req (threads s) + taken req s l).
Proof.
  intros Hok Hstep. unfold step in Hstep.
  destruct (crashed s); [discriminate|].
  destruct l as [call| |tid a].
  - injection Hstep as <-. simpl.
    destruct (owed_callProg req (client s) call) as [H1 H2]. split.
    + now apply owedAll_app.
    + rewrite pendingOf_app. simpl. rewrite H2. f_equal.
      unfold taken. lia.
  - destruct (ticker (client s)) as [tk|]; [|discriminate].
    destruct (tickStopped tk); [discriminate|]. injection Hstep as <-.
    split; [exact Hok|]. simpl. f_equal. unfold taken. lia.
  - destruct (threads s !! tid) as [t|] eqn:Ht; [|discriminate].
    now apply (runThread_owed req s s' tid t a).
Qed.

Lemma run_owed (req : bool) (ls : list Label) (s s' : Sys) :
  owedAll req (threads s) ->
  run s ls = Some s' ->
  uint64 (getCounter (tally req) (stats (client s'))
          + pendingOf req (threads s'))
  = uint64 (getCounter (tally req) (stats (client s))
            + pendingOf req (threads s) + takenAlong req s ls).
Proof.
  revert s. induction ls as [|l ls IH]; intros s Hok Hrun; simpl in Hrun.
  - injection Hrun as <-. simpl. f_equal. lia.
  - destruct (step s l) as [s1|] eqn:Hstep; [|discriminate].
    destruct (step_owed req s s1 l Hok Hstep) as [Hok1 Heq].
    rewrite (IH s1 Hok1 Hrun). simpl. rewrite Hstep.
    rewrite Z.add_assoc.
    apply (uint64_add_congr _ _ (takenAlong req s1 ls)) in Heq.
    exact Heq.
Qed.

Section Accounting.

Variable NewMiniClient : MiniConfig -> MiniClient + string.

(** Every record handed to a flush attempt is accounted exactly once.  After
    any schedule, the running total of records (of requests) plus what the
    goroutines under way still owe is the number of records in the batches
    taken from the mini client (the number of those batches that were not
    empty), in [uint64] arithmetic; so when nothing is owed, the total is
    that number. *)
Theorem records_accounted_once (cfg : Config) (s0 s : Sys) (ls : list Label)
    (req : bool) :
  boot NewMiniClient cfg = Some s0 ->
  run s0 ls = Some s ->
  uint64 (getCounter (tally req) (stats (client s))
          + pendingOf req (threads s))
  = uint64 (takenAlong req s0 ls) /\
  (pendingOf req (threads s) = 0 ->
   getCounter (tally req) (stats (client s)) = uint64 (takenAlong req s0 ls)).
Proof.
  intros Hboot Hrun.
  assert (Hreach : reachable NewMiniClient cfg s) by (exists s0, ls; auto).
  destruct (boot_shape _ _ _ Hboot)
    as (m & rest & Hs0 & Hst & _ & _ & _ & _ & Hrest).
  assert (Hok0 : owedAll req (threads s0)).
  { rewrite Hs0. intros j tj Hj. destruct j as [|j]; simpl in Hj.
    - injection Hj as <-. simpl.
      split; [apply owed_supplyFrom | discriminate].
    - destruct Hrest as [(-> & _)|(-> & _)]; [discriminate|].
      destruct j; [|discriminate]. injection Hj as <-. simpl.
      split; [apply owed_tickerLoop|].
      intros body [= <-]. apply owed_tickerLoop. }
  assert (Hp0 : getCounter (tally req) (stats (client s0))
                + pendingOf req (threads s0) = 0).
  { rewrite Hs0. simpl. rewrite Hst.
    unfold tokenSupplier. rewrite (proj2 (owed_supplyFrom req _ _ _)).
    destruct Hrest as [(-> & _)|(-> & _)]; destruct req; reflexivity. }
  pose proof (run_owed req ls s0 s Hok0 Hrun) as Heq.
  rewrite Hp0, Z.add_0_l in Heq.
  split; [exact Heq|].
  intros Hz. rewrite Hz, Z.add_0_r in Heq. rewrite <- Heq.
  symmetry. apply uint64_id.
  destruct (StatInv_reachable _ _ _ Hreach) as [own SInv].
  apply (stat_range _ _ SInv).
Qed.

End Accounting.

(** ** What construction fixes *)

(** No step changes the period of the ticker. *)
Lemma step_tickPeriod (s s' : Sys) (l : Label) (tk' : Ticker) :
  step s l = Some s' ->
  ticker (client s') = Some tk' ->
  exists tk, ticker (client s) = Some tk /\ tickPeriod tk' = tickPeriod tk.
Proof.
  unfold step. intros Hstep Htk.
  destruct (crashed s); [discriminate|].
  destruct l as [call| |tid a].
  - injection Hstep as <-. now exists tk'.
  - destruct (ticker (client s)) as [tk|]; [|discriminate].
    destruct (tickStopped tk); [discriminate|]. injection Hstep as <-.
    simpl in Htk. injection Htk as <-. now exists tk.
  - destruct (threads s !! tid) as [t|]; [|discriminate].
    unfold runThread in Hstep.
    run_cases Hstep; simpl in Htk;
      try (now exists tk');
      try discriminate;
      try (injection Htk as <-; eexists; split; [eassumption | reflexivity]);
      try (injection Htk as <-; eexists; split; reflexivity).
    congruence.
Qed.

Lemma run_tickPeriod (ls : list Label) (s s' : Sys) (tk' : Ticker) :
  run s ls = Some s' ->
  ticker (client s') = Some tk' ->
  exists tk, ticker (client s) = Some tk /\ tickPeriod tk' = tickPeriod tk.
Proof.
  revert s. induction ls as [|l ls IH]; intros s Hrun Htk; simpl in Hrun.
  - injection Hrun as <-. now exists tk'.
  - destruct (step s l) as [s1|] eqn:Hstep; [|discriminate].
    destruct (IH s1 Hrun Htk) as (tk1 & Htk1 & Hp1).
    destruct (step_tickPeriod _ _ _ _ Hstep Htk1) as (tk & Htk0 & Hp).
    exists tk. split; [exact Htk0 | congruence].
Qed.

Section Configuration.

Variable NewMiniClient : MiniConfig -> MiniClient + string.

(** The flush policy is fixed by the configuration for the life of the
    client: the size threshold is the configured one; the policy is
    immediate exactly when it was configured so, or periodic with a zero
    period; a ticker exists exactly when it was configured periodic with a
    positive period, and ticks at that period.  So [BufferMessage] on an
    open client starts a flush attempt exactly when the buffered volume
    reaches [cfg.RequestSizeTrigger] or the configuration asks for immediate
    flushing in one of these two ways. *)
Theorem flush_policy_by_config (cfg : Config) (s : Sys) :
  reachable NewMiniClient cfg s ->
  RequestSizeTrigger (client s) = Config.RequestSizeTrigger cfg /\
  (timeTrigger (client s) = TimeTriggerImmediate <->
   Config.TimeTrigger cfg = TimeTriggerImmediate \/
   (Config.TimeTrigger cfg = TimeTriggerPeriodic /\ Config.Period cfg = 0)) /\
  (forall tk, ticker (client s) = Some tk ->
     Config.TimeTrigger cfg = TimeTriggerPeriodic /\ 0 < Config.Period cfg /\
     tickPeriod tk = Config.Period cfg) /\
  (Config.TimeTrigger cfg = TimeTriggerPeriodic -> 0 < Config.Period cfg ->
   ticker (client s) <> None) /\
  (forall tid t msg ms,
     crashed s = false ->
     threads s !! tid = Some t ->
     code t = callProg (client s) (CallBufferMessage msg) ->
     finalize (client s) = false ->
     let flush :=
       (Buffered ms >=? Config.RequestSizeTrigger cfg)
       || (Config.TimeTrigger cfg =? TimeTriggerImmediate)
       || ((Config.TimeTrigger cfg =? TimeTriggerPeriodic)
           && (Config.Period cfg =? 0)) in
     run s [Run tid ANone; Run tid (AMiniStats ms)] =
       Some (setThread tid
               (goto (if flush then maybeWork (Return (RError None))
                      else Return (RError None)) t) s)).
Proof.
  intros Hreach.
  destruct (ticker_iff_periodic _ _ _ Hreach) as [Hnone Hper].
  pose proof Hreach as (s0 & ls & Hboot & Hrun).
  destruct (run_frame _ _ _ Hrun) as (Hrs & Htt & _ & Htk).
  destruct (boot_shape _ _ _ Hboot)
    as (m & rest & Hs0 & _ & _ & _ & _ & Hsize & Hrest).
  assert (Hperiod : forall tk, ticker (client s) = Some tk ->
                      tickPeriod tk = Config.Period cfg).
  { intros tk Hsome.
    destruct (run_tickPeriod _ _ _ _ Hrun Hsome) as (tk0 & Htk0 & ->).
    rewrite Hs0 in Htk0. simpl in Htk0.
    destruct Hrest as [(_ & Hn & _)|(_ & Hsm & _)]; [congruence|].
    rewrite Hsm in Htk0. now injection Htk0 as <-. }
  rewrite Hs0 in Hrs, Htt, Htk. simpl in Hrs, Htt, Htk.
  assert (Himm : timeTrigger (client s) = TimeTriggerImmediate <->
                 Config.TimeTrigger cfg = TimeTriggerImmediate \/
                 (Config.TimeTrigger cfg = TimeTriggerPeriodic /\
                  Config.Period cfg = 0)).
  { rewrite Htt.
    destruct Hrest as [(_ & _ & _ & Hnp & [(Hc & Hz & Hi)|(Hne & Hi)])
                      |(_ & _ & _ & Hp & Hc & Hpos)].
    - split; [auto|]. intros _. exact Hi.
    - rewrite Hi. split; [auto|]. intros [H|[H _]]; [exact H|contradiction].
    - rewrite Hp. split; [discriminate|].
      intros [H|[_ H]]; [rewrite Hc in H; discriminate | lia]. }
  split; [now rewrite Hrs|]. split; [exact Himm|]. split; [|split].
  - intros tk Hsome.
    assert (Hp : timeTrigger (client s) = TimeTriggerPeriodic).
    { destruct (Z.eq_dec (timeTrigger (client s)) TimeTriggerPeriodic)
        as [H|H]; [exact H|].
      apply Hnone in H. congruence. }
    apply Hper in Hp. destruct Hp as [Hp Hpos].
    split; [exact Hp|]. split; [exact Hpos|]. now apply Hperiod.
  - intros Hp Hpos Hn. apply Hnone in Hn. apply Hn. apply Hper. auto.
  - intros tid t msg ms Hc Ht Hcode Hfin flush.
    assert (Hlt := lookup_lt_Some _ _ _ Ht).
    assert (Hflush : flush
                     = (Buffered ms >=? RequestSizeTrigger (client s))
                       || (timeTrigger (client s) =? TimeTriggerImmediate)).
    { unfold flush. rewrite Hrs, Hsize, <- orb_assoc. f_equal.
      destruct (Z.eqb_spec (timeTrigger (client s)) TimeTriggerImmediate)
        as [Hi|Hi].
      - apply Himm in Hi. destruct Hi as [Hi|[Hi Hz]].
        + now rewrite Hi.
        + rewrite Hi, Hz. reflexivity.
      - destruct (Z.eqb_spec (Config.TimeTrigger cfg) TimeTriggerImmediate)
          as [Hc1|Hc1]; [exfalso; apply Hi, Himm; auto|].
        destruct (Z.eqb_spec (Config.TimeTrigger cfg) TimeTriggerPeriodic)
          as [Hc2|Hc2]; [|reflexivity].
        destruct (Z.eqb_spec (Config.Period cfg) 0) as [Hz|Hz];
          [exfalso; apply Hi, Himm; auto | reflexivity]. }
    rewrite Hflush.
    rewrite (focus_here s tid t Ht) at 1. rewrite Hcode.
    unfold callProg, BufferMessage.
    solo Hc Hlt. rewrite Hfin. rewrite ?focus_goto.
    solo Hc Hlt. now rewrite focus_client_id.
Qed.

End Configuration.

(** ** Example runs *)

Lemma reachable_stateAfter (cfg : Config) (ls : list Label) (s : Sys) :
  stateAfter cfg ls = Some s -> reachable demoNewMiniClient cfg s.
Proof.
  unfold stateAfter. intros H.
  destruct (boot demoNewMiniClient cfg) as [s0|] eqn:Hboot; [|discriminate].
  now exists s0, ls.
Defined.

Lemma tokens_bounded_witness :
  reachable demoNewMiniClient demoConfig demoInFlight /\
  0 <= Config.Concurrency demoConfig /\
  inCirculation demoInFlight = 1 /\
  0 <= inCirculation demoInFlight <= Config.Concurrency demoConfig /\
  0 <= inserted demoInFlight <= Config.Concurrency demoConfig.
Proof.
  assert (Hr : reachable demoNewMiniClient demoConfig demoInFlight)
    by (apply (reachable_stateAfter demoConfig demoDispatch);
        vm_compute; reflexivity).
  assert (Hn : 0 <= Config.Concurrency demoConfig) by (simpl; lia).
  split; [exact Hr|]. split; [exact Hn|]. split; [reflexivity|].
  destruct (tokens_bounded demoNewMiniClient demoConfig demoInFlight Hr Hn)
    as (H1 & H2 & _).
  split; [exact H1 | exact H2].
Defined.

Lemma stats_balanced_witness :
  reachable demoNewMiniClient demoConfig demoDelivered /\
  Successful (stats (client demoDelivered)) = 1 /\
  Total (stats (client demoDelivered)) = 1 /\
  balanced (stats (client demoDelivered)).
Proof.
  assert (Hr : reachable demoNewMiniClient demoConfig demoDelivered)
    by (apply (reachable_stateAfter demoConfig demoDelivery);
        vm_compute; reflexivity).
  split; [exact Hr|]. split; [reflexivity|]. split; [reflexivity|].
  apply (proj1 (stats_balanced demoNewMiniClient demoConfig demoDelivered Hr)).
  reflexivity.
Defined.

Lemma syncWorker_classifies_witness :
  crashed demoInFlight = false /\
  threads demoInFlight !! 2%nat
    = Some (mkThread Worker (syncWorker demoBundle) None true) /\
  statLock (client demoInFlight) = false /\
  exists s',
    run demoInFlight
      (map (Run 2) [APost (PostResp 204); ANone; ANone; ANone; ANone; ANone;
                    ANone]) = Some s' /\
    Successful (stats (client s')) = 1 /\ Total (stats (client s')) = 1 /\
    Rejected (stats (client s')) = 0 /\ Cancelled (stats (client s')) = 0.
Proof.
  split; [reflexivity|]. split; [reflexivity|]. split; [reflexivity|].
  destruct (syncWorker_classifies demoInFlight 2
              (mkThread Worker (syncWorker demoBundle) None true) demoBundle
              (PostResp 204) eq_refl eq_refl eq_refl eq_refl)
    as (s' & Hrun & Hst & _).
  exists s'. split; [exact Hrun|]. rewrite Hst. repeat split.
Defined.

Lemma maybeWork_saturated_witness :
  reachable demoNewMiniClient demoConfig demoSaturated /\
  threads demoSaturated !! 3%nat
    = Some (mkThread Caller (maybeWork (Return (RError None))) None false) /\
  bucket (client demoSaturated) = [] /\
  exists s',
    run demoSaturated (map (Run 3) (dropAnswers demoBundle)) = Some s' /\
    trace demoSaturated 3 (dropAnswers demoBundle) = dropTrace 1 /\
    getCounter CDropped (stats (client s')) = 1 /\
    getCounter CDroppedRequests (stats (client s')) = 1.
Proof.
  assert (Hr : reachable demoNewMiniClient demoConfig demoSaturated)
    by (apply (reachable_stateAfter demoConfig demoSecondCaller);
        vm_compute; reflexivity).
  split; [exact Hr|]. split; [reflexivity|]. split; [reflexivity|].
  destruct (maybeWork_saturated demoNewMiniClient demoConfig demoSaturated 3
              (mkThread Caller (maybeWork (Return (RError None))) None false)
              (Return (RError None)) demoBundle
              Hr eq_refl eq_refl eq_refl eq_refl)
    as ((s' & Hrun & Htr & Hcnt & _) & _);
    [simpl; lia | reflexivity | reflexivity |].
  exists s'. split; [exact Hrun|]. split; [exact Htr|].
  rewrite !Hcnt. split; reflexivity.
Defined.

Lemma BufferMessage_spec_witness :
  crashed demoEntered = false /\
  threads demoEntered !! 1%nat
    = Some (mkThread Caller
              (callProg (client demoEntered) (CallBufferMessage demoMessage))
              None false) /\
  finalize (client demoEntered) = false /\
  run demoEntered [Run 1 ANone; Run 1 (AMiniStats demoMiniStats)]
    = Some (setThread 1
              (mkThread Caller (maybeWork (Return (RError None))) None false)
              demoEntered).
Proof.
  split; [reflexivity|]. split; [reflexivity|]. split; [reflexivity|].
  destruct (BufferMessage_spec demoEntered 1
              (mkThread Caller
                 (callProg (client demoEntered) (CallBufferMessage demoMessage))
                 None false)
              demoMessage eq_refl eq_refl eq_refl)
    as (_ & Hopen & _).
  destruct (Hopen eq_refl demoMiniStats) as (Hrun & _).
  exact Hrun.
Defined.

Lemma maybeWork_empty_batch_witness :
  crashed demoSaturated = false /\
  threads demoSaturated !! 3%nat
    = Some (mkThread Caller (maybeWork (Return (RError None))) None false) /\
  NumberFramed (bMiniStats emptyBundle) <= 0 /\
  exists s1 s2 s3,
    step demoSaturated (Run 3 ANone) = Some s1 /\
    step s1 (Run 3 (ABundle emptyBundle)) = Some s2 /\
    step s2 (Run 3 ANone) = Some s3 /\
    s3 = setThread 3
           (mkThread Caller (Return (RError None)) None false) demoSaturated.
Proof.
  split; [reflexivity|]. split; [reflexivity|]. split; [simpl; lia|].
  destruct (maybeWork_empty_batch demoSaturated 3
              (mkThread Caller (maybeWork (Return (RError None))) None false)
              (Return (RError None)) emptyBundle
              eq_refl eq_refl eq_refl eq_refl)
    as (s1 & s2 & s3 & H1 & H2 & H3 & _ & _ & _ & _ & _ & Hsame);
    [simpl; lia|].
  exists s1, s2, s3. repeat split; try assumption.
  apply Hsame. unfold in_int32. simpl. lia.
Defined.

Lemma zero_capacity_always_drops_witness :
  Config.Concurrency demoConfigZero = 0 /\
  reachable demoNewMiniClient demoConfigZero demoZero /\
  bucket (client demoZero) = [] /\ inCirculation demoZero = 0 /\
  exists s',
    run demoZero (map (Run 1) (dropAnswers demoBundle)) = Some s' /\
    getCounter CDropped (stats (client s')) = 1 /\
    length (threads s') = length (threads demoZero).
Proof.
  assert (Hr : reachable demoNewMiniClient demoConfigZero demoZero)
    by (apply (reachable_stateAfter demoConfigZero demoZeroCaller);
        vm_compute; reflexivity).
  split; [reflexivity|]. split; [exact Hr|].
  destruct (zero_capacity_always_drops demoNewMiniClient demoConfigZero
              eq_refl) as [_ Hall].
  destruct (Hall demoZero Hr) as (_ & Hcirc & Hb & _ & _ & Hdrop).
  split; [exact Hb|]. split; [exact Hcirc|].
  destruct (Hdrop 1%nat
              (mkThread Caller (maybeWork (Return (RError None))) None false)
              (Return (RError None)) demoBundle
              eq_refl eq_refl eq_refl eq_refl)
    as (s' & Hrun & _ & Hcnt & Hth); [simpl; lia | reflexivity|].
  exists s'. split; [exact Hrun|]. split.
  - rewrite Hcnt. reflexivity.
  - rewrite Hth. apply length_insert.
Defined.

Lemma Close_panics_without_ticker_witness :
  reachable demoNewMiniClient demoConfigImmediate demoClosing /\
  Config.TimeTrigger demoConfigImmediate <> TimeTriggerPeriodic /\
  threads demoClosing !! 1%nat
    = Some (mkThread Caller (Close (Return RVoid)) None false) /\
  ticker (client demoClosing) = None /\
  run demoClosing [Run 1 ANone] = Some (crash demoClosing) /\
  finalize (client (crash demoClosing)) = false /\
  finalizeDone (client (crash demoClosing)) = 1.
Proof.
  assert (Hr : reachable demoNewMiniClient demoConfigImmediate demoClosing)
    by (apply (reachable_stateAfter demoConfigImmediate [Invoke CallClose]);
        vm_compute; reflexivity).
  assert (Hcfg : Config.TimeTrigger demoConfigImmediate <> TimeTriggerPeriodic)
    by discriminate.
  split; [exact Hr|]. split; [exact Hcfg|]. split; [reflexivity|].
  destruct (Close_panics_without_ticker demoNewMiniClient demoConfigImmediate
              demoClosing 1
              (mkThread Caller (Close (Return RVoid)) None false)
              (Return RVoid) Hr (or_introl Hcfg) eq_refl eq_refl eq_refl)
    as (Hnone & Hstep & _ & _ & _).
  split; [exact Hnone|]. split; [|split; reflexivity].
  rewrite run_cons, Hstep. reflexivity.
Defined.

Lemma NewClient_period_witness :
  Config.TimeTrigger demoConfigZeroPeriod = TimeTriggerPeriodic /\
  Config.Period demoConfigZeroPeriod = 0 /\
  exists m,
    NewClient demoNewMiniClient demoConfigZeroPeriod [] =
      (Ok m,
       [mkThread Supplier (tokenSupplier 1) None false]) /\
    timeTrigger m = TimeTriggerImmediate /\ ticker m = None.
Proof.
  split; [reflexivity|]. split; [reflexivity|].
  destruct (NewClient_period demoNewMiniClient demoConfigZeroPeriod [])
    as (_ & Hzero & _).
  exact (Hzero _ eq_refl eq_refl eq_refl).
Defined.

(** C7 as stated fails: with the immediate behaviour a negative period is
    accepted, the client is built and its supply goroutine started. *)
Lemma NewClient_negative_period_accepted :
  Config.Period demoConfigNegative < 0 /\
  NewClient demoNewMiniClient demoConfigNegative [] =
    (Ok (mkClient zeroStats false
           (mkMiniClient (miniConfigOf demoConfigNegative)) [] 1024
           TimeTriggerImmediate None false 1),
     [mkThread Supplier (tokenSupplier 1) None false]) /\
  (forall err,
     NewClient demoNewMiniClient demoConfigNegative [] <> (Err err, [])).
Proof.
  split; [reflexivity|]. split; [reflexivity|]. intros err. discriminate.
Qed.

(** C8.  The gauge counts the flush attempts in progress, not the
    deliveries: with capacity 1 and two callers inside [maybeWork] it reads
    2; and it reads 0 again once the caller has returned, while the delivery
    it started is still waiting for the transport. *)
Theorem gauge_exceeds_capacity :
  (stateAfter demoConfigImmediate demoTwoAttempts = Some demoTwoInside /\
   Concurrency (stats (client demoTwoInside)) = 2 /\
   Config.Concurrency demoConfigImmediate = 1 /\
   crashed demoTwoInside = false) /\
  (stateAfter demoConfig (demoDispatch ++ [Run 1 ANone]) = Some demoReturned /\
   Concurrency (stats (client demoReturned)) = 0 /\
   (exists t, threads demoReturned !! 2%nat = Some t /\ role t = Worker /\
              prim (code t) = PPost)).
Proof.
  split.
  - repeat split; vm_compute; reflexivity.
  - split; [vm_compute; reflexivity|]. split; [reflexivity|].
    eexists. repeat split; reflexivity.
Qed.


Lemma no_admission_after_shutdown_witness :
  let ret := AtomicAddInt32 (-1) (Return (RError None)) in
  let kRecv := WgAdd 1 (Go Worker (syncWorker demoBundle) ret) in
  let kDefault := statReqDrop demoMiniStats (Gosched ret) in
  reachable demoNewMiniClient demoConfigPeriodic demoClosed /\
  finalize (client demoClosed) = true /\
  threads demoClosed !! 2%nat
    = Some (mkThread Caller (RecvBucketOrDefault kRecv kDefault) None false) /\
  step demoClosed (Run 2 ANone)
    = Some (setThread 2 (mkThread Caller kDefault None false) demoClosed).
Proof.
  intros ret kRecv kDefault.
  assert (Hr : reachable demoNewMiniClient demoConfigPeriodic demoClosed)
    by (apply (reachable_stateAfter demoConfigPeriodic demoShutdown);
        vm_compute; reflexivity).
  split; [exact Hr|]. split; [reflexivity|]. split; [reflexivity|].
  exact (proj2 (no_admission_after_shutdown demoNewMiniClient
                  demoConfigPeriodic demoClosed 2
                  (mkThread Caller (RecvBucketOrDefault kRecv kDefault)
                     None false)
                  kRecv kDefault ANone Hr eq_refl eq_refl eq_refl eq_refl)).
Defined.

Lemma waitgroup_counts_tasks_witness :
  reachable demoNewMiniClient demoConfig demoInFlight /\
  tasksRunning (threads demoInFlight) = 2 /\
  finalizeDone (client demoInFlight) = 2 /\
  0 <= tasksRunning (threads demoInFlight)
    <= finalizeDone (client demoInFlight).
Proof.
  assert (Hr : reachable demoNewMiniClient demoConfig demoInFlight)
    by (apply (reachable_stateAfter demoConfig demoDispatch);
        vm_compute; reflexivity).
  split; [exact Hr|]. split; [reflexivity|]. split; [reflexivity|].
  exact (proj1 (waitgroup_counts_tasks demoNewMiniClient demoConfig
                  demoInFlight Hr)).
Defined.

Lemma statLock_excludes_witness :
  let section :=
    AddUint64 CTotalRequests 1 (
    AddUint64 CSuccessful 1 (
    AddUint64 CSuccessRequests 1 (
    Unlock (BodyClose syncWorkerExit)))) in
  reachable demoNewMiniClient demoConfig demoUpdating /\
  threads demoUpdating !! 2%nat = Some (mkThread Worker section None true) /\
  statLock (client demoUpdating) = true.
Proof.
  intros section.
  assert (Hr : reachable demoNewMiniClient demoConfig demoUpdating)
    by (apply (reachable_stateAfter demoConfig demoUpdate);
        vm_compute; reflexivity).
  split; [exact Hr|]. split; [reflexivity|].
  destruct (statLock_excludes demoNewMiniClient demoConfig demoUpdating Hr)
    as (Hex & _).
  exact (proj2 (Hex 2%nat 2%nat (mkThread Worker section None true)
                  (mkThread Worker section None true)
                  eq_refl eq_refl eq_refl eq_refl)).
Defined.



Lemma Statistics_snapshot_witness :
  reachable demoNewMiniClient demoConfig demoAsking /\
  threads demoAsking !! 3%nat
    = Some (mkThread Caller (callProg (client demoAsking) CallStatistics)
              None false) /\
  statLock (client demoAsking) = false /\
  Successful (stats (client demoAsking)) = 1 /\
  run demoAsking [Run 3 ANone; Run 3 ANone; Run 3 ANone] =
    Some (setThread 3
            (mkThread Caller (Return (RStats (stats (client demoAsking))))
               None false) demoAsking).
Proof.
  assert (Hr : reachable demoNewMiniClient demoConfig demoAsking)
    by (apply (reachable_stateAfter demoConfig demoAsk);
        vm_compute; reflexivity).
  split; [exact Hr|]. split; [reflexivity|]. split; [reflexivity|].
  split; [reflexivity|].
  destruct (Statistics_snapshot demoNewMiniClient demoConfig demoAsking 3
              (mkThread Caller (callProg (client demoAsking) CallStatistics)
                 None false) Hr eq_refl eq_refl eq_refl) as [_ Hfree].
  exact (proj1 (Hfree eq_refl)).
Defined.

Lemma Close_signals_shutdown_witness :
  reachable demoNewMiniClient demoConfigPeriodic demoClosingPeriodic /\
  threads demoClosingPeriodic !! 2%nat
    = Some (mkThread Caller (Close (Return RVoid)) None false) /\
  finalize (client demoClosingPeriodic) = false /\
  exists s2,
    run demoClosingPeriodic [Run 2 ANone; Run 2 ANone] = Some s2 /\
    finalize (client s2) = true /\
    step s2 TimerFires = None /\
    step s2 (Run 2 ANone) = None.
Proof.
  assert (Hr : reachable demoNewMiniClient demoConfigPeriodic
                 demoClosingPeriodic)
    by (apply (reachable_stateAfter demoConfigPeriodic [Invoke CallClose]);
        vm_compute; reflexivity).
  split; [exact Hr|]. split; [reflexivity|]. split; [reflexivity|].
  destruct (Close_signals_shutdown demoNewMiniClient demoConfigPeriodic
              demoClosingPeriodic 2
              (mkThread Caller (Close (Return RVoid)) None false)
              (Return RVoid) Hr eq_refl)
    as (tk & s2 & _ & Hrun & _ & Hcl & _ & _ & Hno & _ & _ & Hwait);
    [simpl; lia | reflexivity | reflexivity | reflexivity | reflexivity |].
  exists s2. split; [exact Hrun|]. split; [now rewrite Hcl|].
  split; [exact Hno|]. rewrite Hwait. reflexivity.
Defined.

Lemma second_Close_panics_witness :
  reachable demoNewMiniClient demoConfigPeriodic demoClosedAgain /\
  threads demoClosedAgain !! 4%nat
    = Some (mkThread Caller (Close (Return RVoid)) None false) /\
  finalize (client demoClosedAgain) = true /\
  exists s1,
    step demoClosedAgain (Run 4 ANone) = Some s1 /\
    crashed s1 = false /\
    step s1 (Run 4 ANone) = Some (crash s1).
Proof.
  assert (Hr : reachable demoNewMiniClient demoConfigPeriodic demoClosedAgain)
    by (apply (reachable_stateAfter demoConfigPeriodic demoCloseAgain);
        vm_compute; reflexivity).
  split; [exact Hr|]. split; [reflexivity|]. split; [reflexivity|].
  destruct (second_Close_panics demoNewMiniClient demoConfigPeriodic
              demoClosedAgain 4
              (mkThread Caller (Close (Return RVoid)) None false)
              (Return RVoid) Hr eq_refl)
    as (s1 & H1 & Hc1 & _ & H2 & _);
    [simpl; lia | reflexivity | reflexivity | reflexivity | reflexivity |].
  exists s1. split; [exact H1|]. split; [exact Hc1 | exact H2].
Defined.

Lemma shutdown_is_permanent_witness :
  finalize (client demoClosed) = true /\
  run demoClosed [Run 0 ANone] = Some demoLeft /\
  crashed demoLeft = false /\
  finalize (client demoLeft) = true /\
  run demoLeft [Invoke (CallBufferMessage demoMessage); Run 4 ANone] =
    Some (mkSys (client demoLeft)
            (threads demoLeft
             ++ [mkThread Caller (Return (RError (Some errClosed))) None
                   false])
            false (inserted demoLeft)).
Proof.
  assert (Hrun : run demoClosed [Run 0 ANone] = Some demoLeft)
    by (vm_compute; reflexivity).
  split; [reflexivity|]. split; [exact Hrun|]. split; [reflexivity|].
  exact (shutdown_is_permanent demoClosed demoLeft [Run 0 ANone] demoMessage
           eq_refl Hrun eq_refl).
Defined.

Lemma maybeWork_admits_witness :
  reachable demoNewMiniClient demoConfig demoOffered /\
  threads demoOffered !! 1%nat
    = Some (mkThread Caller (maybeWork (Return (RError None))) None false) /\
  bucket (client demoOffered) = [0%nat] /\
  exists s',
    run demoOffered (map (Run 1) (admitAnswers demoBundle)) = Some s' /\
    threads s' !! 2%nat
      = Some (mkThread Worker (syncWorker demoBundle) None true) /\
    bucket (client s') = [] /\
    finalizeDone (client s') = 2.
Proof.
  assert (Hr : reachable demoNewMiniClient demoConfig demoOffered)
    by (apply (reachable_stateAfter demoConfig demoOffer);
        vm_compute; reflexivity).
  split; [exact Hr|]. split; [reflexivity|]. split; [reflexivity|].
  destruct (maybeWork_admits demoNewMiniClient demoConfig demoOffered 1
              (mkThread Caller (maybeWork (Return (RError None))) None false)
              (Return (RError None)) demoBundle 0 [] Hr
              eq_refl eq_refl eq_refl eq_refl)
    as (ts & kS & kF & s' & _ & _ & Hrun & _ & Hth & Hb & Hwg & _);
    [simpl; lia | reflexivity|].
  exists s'. split; [exact Hrun|]. split; [|split; [exact Hb|]].
  - rewrite Hth. rewrite lookup_app_r; rewrite !length_insert; [|simpl; lia].
    reflexivity.
  - rewrite Hwg. reflexivity.
Defined.

Lemma syncWorker_returns_token_witness :
  reachable demoNewMiniClient demoConfig demoAccounted /\
  threads demoAccounted !! 2%nat
    = Some (mkThread Worker syncWorkerExit None true) /\
  finalize (client demoAccounted) = false /\
  bucket (client demoAccounted) = [] /\
  step demoAccounted (Run 2 ANone)
    = Some (setClient (withBucket [2%nat] (client demoAccounted))
              demoAccounted).
Proof.
  assert (Hr : reachable demoNewMiniClient demoConfig demoAccounted)
    by (apply (reachable_stateAfter demoConfig demoAccount);
        vm_compute; reflexivity).
  split; [exact Hr|]. split; [reflexivity|]. split; [reflexivity|].
  split; [reflexivity|].
  destruct (syncWorker_returns_token demoNewMiniClient demoConfig
              demoAccounted 2 (mkThread Worker syncWorkerExit None true)
              Hr eq_refl eq_refl eq_refl eq_refl) as (_ & Hopen & _).
  destruct (Hopen eq_refl) as [_ Hpark].
  apply Hpark. simpl. apply not_elem_of_nil.
Defined.

Lemma Close_misses_late_admission_witness :
  let ret := AtomicAddInt32 (-1) (Return (RError None)) in
  reachable demoNewMiniClient demoConfigPeriodic demoLate /\
  threads demoLate !! 3%nat
    = Some (mkThread Caller (WgWait (Return RVoid)) None false) /\
  threads demoLate !! 2%nat
    = Some (mkThread Caller (WgAdd 1 (Go Worker (syncWorker demoBundle) ret))
              None true) /\
  finalizeDone (client demoLate) = 0 /\
  exists s',
    run demoLate [Run 3 ANone; Run 2 ANone; Run 2 ANone] = Some s' /\
    threads s' !! 3%nat = Some (mkThread Caller (Return RVoid) None false) /\
    threads s' !! 4%nat
      = Some (mkThread Worker (syncWorker demoBundle) None true) /\
    finalizeDone (client s') = 1.
Proof.
  intros ret.
  assert (Hr : reachable demoNewMiniClient demoConfigPeriodic demoLate)
    by (apply (reachable_stateAfter demoConfigPeriodic demoLateAdmission);
        vm_compute; reflexivity).
  split; [exact Hr|]. split; [reflexivity|]. split; [reflexivity|].
  split; [reflexivity|].
  destruct (Close_misses_late_admission demoNewMiniClient demoConfigPeriodic
              demoLate 3 2
              (mkThread Caller (WgWait (Return RVoid)) None false)
              (mkThread Caller
                 (WgAdd 1 (Go Worker (syncWorker demoBundle) ret)) None true)
              (Return RVoid) ret demoBundle
              Hr eq_refl eq_refl eq_refl eq_refl eq_refl eq_refl)
    as (s' & Hrun & Hth & Hwg & _).
  exists s'. split; [exact Hrun|]. rewrite Hth.
  split; [reflexivity|]. split; [reflexivity | exact Hwg].
Defined.


Lemma ticker_flushes_on_tick_witness :
  reachable demoNewMiniClient demoConfigPeriodic demoTick /\
  threads demoTick !! 1%nat
    = Some (mkThread TickerTask tickerLoop (Some tickerLoop) false) /\
  run demoTick (map (Run 1) idleTurn) = Some demoBooted /\
  trace demoTick 1 idleTurn = idleTrace.
Proof.
  assert (Hr : reachable demoNewMiniClient demoConfigPeriodic demoTick)
    by (apply (reachable_stateAfter demoConfigPeriodic [TimerFires]);
        vm_compute; reflexivity).
  split; [exact Hr|]. split; [reflexivity|].
  destruct (ticker_flushes_on_tick demoNewMiniClient demoConfigPeriodic
              demoTick 1
              (mkThread TickerTask tickerLoop (Some tickerLoop) false)
              Hr eq_refl)
    as (tk & Htk & _ & Htick & _);
    [simpl; lia | reflexivity | reflexivity | reflexivity | reflexivity |].
  injection Htk as <-.
  destruct (Htick eq_refl) as (_ & Hrun & Htr).
  split; [exact Hrun | exact Htr].
Defined.

Lemma posts_bounded_witness :
  reachable demoNewMiniClient demoConfig demoInFlight /\
  threads demoInFlight !! 2%nat
    = Some (mkThread Worker (syncWorker demoBundle) None true) /\
  inFlight (threads demoInFlight) = 1 /\
  0 <= inFlight (threads demoInFlight)
    <= Z.max 0 (Config.Concurrency demoConfig).
Proof.
  assert (Hr : reachable demoNewMiniClient demoConfig demoInFlight)
    by (apply (reachable_stateAfter demoConfig demoDispatch);
        vm_compute; reflexivity).
  split; [exact Hr|]. split; [reflexivity|]. split; [reflexivity|].
  exact (proj1 (posts_bounded demoNewMiniClient demoConfig demoInFlight Hr)).
Defined.

Lemma shutdown_can_complete_witness :
  reachable demoNewMiniClient demoConfigPeriodic demoClosed /\
  finalize (client demoClosed) = true /\
  finalizeDone (client demoClosed) = 2 /\
  exists ls s',
    run demoClosed ls = Some s' /\ Forall isRun ls /\
    length ls = workLeft (threads demoClosed) /\
    crashed s' = false /\ finalizeDone (client s') = 0.
Proof.
  assert (Hr : reachable demoNewMiniClient demoConfigPeriodic demoClosed)
    by (apply (reachable_stateAfter demoConfigPeriodic demoShutdown);
        vm_compute; reflexivity).
  split; [exact Hr|]. split; [reflexivity|]. split; [reflexivity|].
  exact (shutdown_can_complete demoNewMiniClient demoConfigPeriodic
           demoClosed Hr eq_refl eq_refl).
Defined.

Lemma records_accounted_once_witness :
  boot demoNewMiniClient demoConfig = Some demoFresh /\
  run demoFresh demoDelivery = Some demoDelivered /\
  takenAlong false demoFresh demoDelivery = 1 /\
  pendingOf false (threads demoDelivered) = 0 /\
  getCounter CTotal (stats (client demoDelivered))
  = uint64 (takenAlong false demoFresh demoDelivery).
Proof.
  assert (Hb : boot demoNewMiniClient demoConfig = Some demoFresh)
    by (vm_compute; reflexivity).
  assert (Hrun : run demoFresh demoDelivery = Some demoDelivered)
    by (vm_compute; reflexivity).
  assert (Hp : pendingOf false (threads demoDelivered) = 0)
    by (vm_compute; reflexivity).
  split; [exact Hb|]. split; [exact Hrun|].
  split; [vm_compute; reflexivity|]. split; [exact Hp|].
  exact (proj2 (records_accounted_once demoNewMiniClient demoConfig
                  demoFresh demoDelivered demoDelivery false Hb Hrun) Hp).
Defined.

Lemma flush_policy_by_config_witness :
  reachable demoNewMiniClient demoConfig demoEntered /\
  threads demoEntered !! 1%nat
    = Some (mkThread Caller
              (callProg (client demoEntered) (CallBufferMessage demoMessage))
              None false) /\
  Config.RequestSizeTrigger demoConfig = 1 /\
  Buffered demoMiniStats = 1 /\
  run demoEntered [Run 1 ANone; Run 1 (AMiniStats demoMiniStats)]
    = Some (setThread 1
              (mkThread Caller (maybeWork (Return (RError None))) None false)
              demoEntered).
Proof.
  assert (Hr : reachable demoNewMiniClient demoConfig demoEntered)
    by (apply (reachable_stateAfter demoConfig
                 [Invoke (CallBufferMessage demoMessage)]);
        vm_compute; reflexivity).
  split; [exact Hr|]. split; [reflexivity|]. split; [reflexivity|].
  split; [reflexivity|].
  destruct (flush_policy_by_config demoNewMiniClient demoConfig demoEntered
              Hr) as (_ & _ & _ & _ & Hflush).
  exact (Hflush 1%nat
           (mkThread Caller
              (callProg (client demoEntered) (CallBufferMessage demoMessage))
              None false)
           demoMessage demoMiniStats eq_refl eq_refl eq_refl eq_refl).
Defined.
